(** * A shallow embedding of the ZooKeeper transaction coordinator

    Source: [AppDB/zkappscale/zktransaction.py] (class [ZKTransaction]).

    The coordinator talks to an external hierarchical coordination service
    through a kazoo client handle.  The service is modelled here as a finite
    map from paths to node values, together with one sequence counter per
    parent; the functions of [ZKTransaction] are translated one by one on
    top of that model, as computations in a state-and-exception monad. *)

From Stdlib Require Import ZArith Ascii String DecimalString DecimalZ DecimalN List Lia.
From stdpp Require Import gmap strings list fin_maps.

Open Scope string_scope.
Open Scope Z_scope.
Open Scope list_scope.

(** ** Python string primitives *)

Module PyStr.

(** [c in s] for a single character. *)
Fixpoint has_char (c : ascii) (s : string) : bool :=
  match s with
  | EmptyString => false
  | String a r => if Ascii.eqb a c then true else has_char c r
  end.

(** [sep.join(l)] *)
Fixpoint join (sep : string) (l : list string) : string :=
  match l with
  | [] => ""
  | [x] => x
  | x :: r => x +:+ sep +:+ join sep r
  end.

(** [s.split(sep)] for a non-empty separator: leftmost, non-overlapping
    occurrences.  [skip] counts the characters of a matched separator that
    are still to be dropped, [cur] is the piece being accumulated. *)
Fixpoint split_go (sep : string) (skip : nat) (cur : string) (s : string)
  : list string :=
  match s with
  | EmptyString => [cur]
  | String c r =>
    match skip with
    | S k => split_go sep k cur r
    | O =>
      if String.prefix sep s
      then cur :: split_go sep (String.length sep - 1) "" r
      else split_go sep 0 (cur +:+ String c "") r
    end
  end.

Definition split (sep s : string) : list string := split_go sep 0 "" s.

(** [s.lstrip(chars)] *)
Fixpoint lstrip (chars : string) (s : string) : string :=
  match s with
  | EmptyString => ""
  | String c r => if has_char c chars then lstrip chars r else s
  end.

(** [l[-1]] on a list of strings ([split] never returns the empty list). *)
Definition last_item (l : list string) : string := List.last l "".

Definition is_digit (c : ascii) : bool :=
  let n := nat_of_ascii c in (48 <=? n)%nat && (n <=? 57)%nat.

Definition is_alpha (c : ascii) : bool :=
  let n := nat_of_ascii c in
  ((65 <=? n)%nat && (n <=? 90)%nat) || ((97 <=? n)%nat && (n <=? 122)%nat).

(** [re.match("^" + prefix, s)] for a literal prefix. *)
Definition match_prefix (p s : string) : bool := String.prefix p s.

(** [re.match("^tx\d", s)] *)
Definition match_tx_digit (s : string) : bool :=
  match s with
  | String "t" (String "x" (String d _)) => is_digit d
  | _ => false
  end.

(** *** [urllib.quote_plus] and [urllib.unquote_plus] (Python 2) *)

Definition hex_digit (n : nat) : ascii :=
  if (n <? 10)%nat then ascii_of_nat (48 + n) else ascii_of_nat (55 + n).

Definition always_safe (c : ascii) : bool :=
  is_alpha c || is_digit c
  || Ascii.eqb c "_" || Ascii.eqb c "." || Ascii.eqb c "-".

Definition quote_char (c : ascii) : string :=
  if always_safe c then String c ""
  else if Ascii.eqb c " " then "+"
  else let n := nat_of_ascii c in
       String "%" (String (hex_digit (n / 16)) (String (hex_digit (n mod 16)) "")).

Fixpoint quote_plus (s : string) : string :=
  match s with
  | EmptyString => ""
  | String c r => quote_char c +:+ quote_plus r
  end.

Definition hex_value (c : ascii) : option nat :=
  let n := nat_of_ascii c in
  if is_digit c then Some (n - 48)%nat
  else if (65 <=? n)%nat && (n <=? 70)%nat then Some (n - 55)%nat
  else if (97 <=? n)%nat && (n <=? 102)%nat then Some (n - 87)%nat
  else None.

Fixpoint replace_plus (s : string) : string :=
  match s with
  | EmptyString => ""
  | String c r => String (if Ascii.eqb c "+" then " "%char else c) (replace_plus r)
  end.

(** [urllib.unquote]: a percent sign followed by two hexadecimal digits is
    decoded, any other percent sign is kept. *)
Fixpoint unquote (s : string) : string :=
  match s with
  | EmptyString => ""
  | String c t =>
    if Ascii.eqb c "%" then
      match t with
      | String a (String b r) =>
        match hex_value a, hex_value b with
        | Some x, Some y => String (ascii_of_nat (16 * x + y)) (unquote r)
        | _, _ => String c (unquote t)
        end
      | _ => String c (unquote t)
      end
    else String c (unquote t)
  end.

Definition unquote_plus (s : string) : string := unquote (replace_plus s).

(** *** Decimal numbers *)

Fixpoint zeros (n : nat) : string :=
  match n with O => "" | S k => String "0" (zeros k) end.

Definition pad0 (width : nat) (s : string) : string :=
  zeros (width - String.length s) +:+ s.

Definition digits (n : N) : string := NilZero.string_of_uint (N.to_uint n).

(** [str(z)] for an integer. *)
Definition str_int (z : Z) : string :=
  if z <? 0 then String "-" (digits (Z.abs_N z)) else digits (Z.abs_N z).

(** ["%010d" % z] *)
Definition fmt_010d (z : Z) : string :=
  if z <? 0 then String "-" (pad0 9 (digits (Z.abs_N z)))
  else pad0 10 (digits (Z.abs_N z)).

Definition parse_digits (s : string) : option N :=
  option_map N.of_uint (NilZero.uint_of_string s).

(** [long(s)]: an optional sign followed by decimal digits; [None] stands for
    the [ValueError] raised on anything else. *)
Definition py_long (s : string) : option Z :=
  match s with
  | String "-" r => option_map (fun n => - Z.of_N n) (parse_digits r)
  | String "+" r => option_map Z.of_N (parse_digits r)
  | _ => option_map Z.of_N (parse_digits s)
  end.

(** Wall-clock readings are kept in whole clock units: [str(time.time())]
    prints such a reading and [float(s)] parses it back. *)
Definition str_time (t : Z) : string := str_int t.
Definition py_float (s : string) : option Z := py_long s.

End PyStr.

Import PyStr.

(** ** Exceptions, values and the coordination-service handle *)

(** The exception classes that the source raises or catches.  The first
    eleven are (subclasses of) [kazoo.exceptions.ZookeeperError];
    [ZookeeperError] itself stands for any other subclass. *)
Inductive exn : Type :=
  | NoNodeError
  | NodeExistsError
  | NotEmptyError
  | ConnectionLoss
  | ConnectionClosedError
  | OperationTimeoutError
  | SessionExpiredError
  | DataInconsistency
  | BadArgumentsError
  | SystemZookeeperError
  | ZookeeperError
  | ZKTimeoutException
  | ZKTransactionException (msg : string)
  | TypeError
  | ValueError
  | IndexError.

(** [isinstance(e, kazoo.exceptions.ZookeeperError)] *)
Definition is_zookeeper_error (e : exn) : bool :=
  match e with
  | NoNodeError | NodeExistsError | NotEmptyError | ConnectionLoss
  | ConnectionClosedError | OperationTimeoutError | SessionExpiredError
  | DataInconsistency | BadArgumentsError | SystemZookeeperError
  | ZookeeperError => true
  | _ => false
  end.

Definition exn_name (e : exn) : string :=
  match e with
  | NoNodeError => "NoNodeError"
  | NodeExistsError => "NodeExistsError"
  | NotEmptyError => "NotEmptyError"
  | ConnectionLoss => "ConnectionLoss"
  | ConnectionClosedError => "ConnectionClosedError"
  | OperationTimeoutError => "OperationTimeoutError"
  | SessionExpiredError => "SessionExpiredError"
  | DataInconsistency => "DataInconsistency"
  | BadArgumentsError => "BadArgumentsError"
  | SystemZookeeperError => "SystemZookeeperError"
  | ZookeeperError => "ZookeeperError"
  | ZKTimeoutException => "ZKTimeoutException"
  | ZKTransactionException m => m
  | TypeError => "TypeError"
  | ValueError => "ValueError"
  | IndexError => "IndexError"
  end.

(** Python values that travel through [run_with_timeout]'s [*args] and
    return value. [PAsync] is the result object of an asynchronous call. *)
Inductive pyval : Type :=
  | PNone
  | PBool (b : bool)
  | PStr (s : string)
  | PList (l : list string)
  | PAsync.

(** The methods of the kazoo client that the coordinator uses. *)
Inductive zk_op : Type :=
  | Create | CreateAsync | Get | SetData | SetAsync
  | Exists | GetChildren | Delete | DeleteAsync.

Definition op_name (f : zk_op) : string :=
  match f with
  | Create => "create" | CreateAsync => "create_async"
  | Get => "get" | SetData => "set" | SetAsync => "set_async"
  | Exists => "exists" | GetChildren => "get_children"
  | Delete => "delete" | DeleteAsync => "delete_async"
  end.

(** What the world remembers of a run: every request handed to the client
    (also the ones that fail), every reconnect, and the warning that
    [notify_failed_transaction] logs on entry. *)
Inductive event : Type :=
  | Req (f : zk_op) (args : list pyval)
  | Reconnect
  | NotifyFailed (app_id : string) (txid : Z).

Inductive result (A : Type) : Type :=
  | Ok (a : A)
  | Raise (e : exn).
Arguments Ok {A} a.
Arguments Raise {A} e.

(** A node path is the list of its [/]-separated segments. *)
Record world : Type := World {
  nodes : gmap (list string) string;   (* node path -> node value *)
  seqs : gmap (list string) N;         (* parent path -> next sequence number *)
  session : nat;                       (* number of client handles created so far *)
  faults : list (option exn);          (* what the next requests run into *)
  log : list event;                    (* newest event first *)
  now : Z                              (* time.time() *)
}.

Definition set_nodes (m : gmap (list string) string) (w : world) : world :=
  World m (seqs w) (session w) (faults w) (log w) (now w).
Definition set_seqs (s : gmap (list string) N) (w : world) : world :=
  World (nodes w) s (session w) (faults w) (log w) (now w).
Definition set_faults (f : list (option exn)) (w : world) : world :=
  World (nodes w) (seqs w) (session w) f (log w) (now w).
Definition add_log (e : event) (w : world) : world :=
  World (nodes w) (seqs w) (session w) (faults w) (e :: log w) (now w).

(** The events of a run in the order they happened. *)
Definition history (w : world) : list event := rev (log w).

(** ** The monad of coordinator code *)

Definition M (A : Type) : Type := world -> result A * world.

Definition ret {A} (a : A) : M A := fun w => (Ok a, w).
Definition raise {A} (e : exn) : M A := fun w => (Raise e, w).
Definition bind {A B} (m : M A) (k : A -> M B) : M B :=
  fun w => match m w with
           | (Ok a, w') => k a w'
           | (Raise e, w') => (Raise e, w')
           end.
(** [try: m except: h] where [h] re-raises what it does not handle. *)
Definition try_except {A} (m : M A) (h : exn -> M A) : M A :=
  fun w => match m w with
           | (Ok a, w') => (Ok a, w')
           | (Raise e, w') => h e w'
           end.

Declare Scope zk_scope.
Delimit Scope zk_scope with zk.
Notation "x <- m ;; k" := (bind m (fun x => k))
  (at level 100, m at next level, k at level 200, right associativity) : zk_scope.
Notation "m ;; k" := (bind m (fun _ => k))
  (at level 100, k at level 200, right associativity) : zk_scope.
Open Scope zk_scope.

Definition time_time : M Z := fun w => (Ok (now w), w).
Definition emit (e : event) : M unit := fun w => (Ok tt, add_log e w).

(** Outcome of a loop body: go on, or [return] from the function. *)
Inductive ctl (R : Type) : Type :=
  | Next
  | Return (r : R).
Arguments Next {R}.
Arguments Return {R} r.

Fixpoint for_each {A} (l : list A) (body : A -> M unit) : M unit :=
  match l with
  | [] => ret tt
  | x :: r => body x ;; for_each r body
  end.

Fixpoint for_ctl {A R} (l : list A) (body : A -> M (ctl R)) : M (ctl R) :=
  match l with
  | [] => ret Next
  | x :: r =>
    c <- body x ;;
    match c with
    | Next => for_ctl r body
    | Return v => ret (Return v)
    end
  end.

(** [retries_left = n; while retries_left > 0: body; retries_left -= 1]
    followed by [exhausted]; the decrement sits in a [finally] clause, so it
    happens on every way out of the body. *)
Fixpoint retry_loop {A} (retries_left : nat) (body : M (ctl A)) (exhausted : M A)
  : M A :=
  match retries_left with
  | O => exhausted
  | S n =>
    c <- body ;;
    match c with
    | Return a => ret a
    | Next => retry_loop n body exhausted
    end
  end.

Definition get_str (v : pyval) : M string :=
  match v with PStr s => ret s | _ => raise TypeError end.
Definition get_list (v : pyval) : M (list string) :=
  match v with PList l => ret l | _ => raise TypeError end.
(** Python truth value *)
Definition truthy (v : pyval) : bool :=
  match v with
  | PNone => false
  | PBool b => b
  | PStr s => negb (String.eqb s "")
  | PList l => match l with [] => false | _ => true end
  | PAsync => true
  end.

(** ** The coordination service *)

Module Zk.

Definition parse_path (s : string) : option (list string) :=
  match s with
  | String "/" r => Some (match r with EmptyString => [] | _ => split "/" r end)
  | _ => None
  end.

Fixpoint child_name (p k : list string) : option string :=
  match p, k with
  | [], [c] => Some c
  | a :: p', b :: k' => if decide (a = b) then child_name p' k' else None
  | _, _ => None
  end.

Definition children (m : gmap (list string) string) (p : list string)
  : list string :=
  omap (fun kv => child_name p kv.1) (map_to_list m).

Definition has_parent (m : gmap (list string) string) (p : list string) : bool :=
  match removelast p with
  | [] => true
  | q => bool_decide (is_Some (m !! q))
  end.

(** [ensure_path]: create every missing node along [pre ++ rest]. *)
Fixpoint ensure_path (pre rest : list string) (m : gmap (list string) string)
  : gmap (list string) string :=
  match rest with
  | [] => m
  | c :: r =>
    let q := pre ++ [c] in
    ensure_path q r (match m !! q with Some _ => m | None => <[q := ""]> m end)
  end.

Definition next_seq (w : world) (parent : list string) : N :=
  default 0%N (seqs w !! parent).

(** A decoded request. *)
Inductive request : Type :=
  | RCreate (path value : string) (ephemeral sequence makepath async : bool)
  | RGet (path : string)
  | RSet (path value : string) (async : bool)
  | RExists (path : string)
  | RChildren (path : string)
  | RDelete (path : string) (async : bool).

Definition decode_create (async : bool) (args : list pyval) : option request :=
  match args with
  | [PStr p] => Some (RCreate p "" false false false async)
  | [PStr p; PStr v] => Some (RCreate p v false false false async)
  | [PStr p; PStr v; PNone] => Some (RCreate p v false false false async)
  | [PStr p; PStr v; PNone; PBool e] => Some (RCreate p v e false false async)
  | [PStr p; PStr v; PNone; PBool e; PBool s] => Some (RCreate p v e s false async)
  | [PStr p; PStr v; PNone; PBool e; PBool s; PBool k] =>
      Some (RCreate p v e s k async)
  | _ => None
  end.

(** Binding of the positional arguments; [None] is Python's [TypeError]. *)
Definition decode (f : zk_op) (args : list pyval) : option request :=
  match f, args with
  | Create, _ => decode_create false args
  | CreateAsync, _ => decode_create true args
  | Get, [PStr p] => Some (RGet p)
  | SetData, [PStr p; PStr v] => Some (RSet p v false)
  | SetAsync, [PStr p; PStr v] => Some (RSet p v true)
  | Exists, [PStr p] => Some (RExists p)
  | GetChildren, [PStr p] => Some (RChildren p)
  | Delete, [PStr p] => Some (RDelete p false)
  | DeleteAsync, [PStr p] => Some (RDelete p true)
  | _, _ => None
  end.

Definition do_create (path value : string) (sequence makepath : bool)
  : M pyval := fun w =>
  match parse_path path with
  | None => (Raise BadArgumentsError, w)
  | Some p =>
    let parent := removelast p in
    let n := next_seq w parent in
    let suffix := fmt_010d (Z.of_N n) in
    let real := if sequence then parent ++ [List.last p "" +:+ suffix] else p in
    if negb (has_parent (nodes w) p) && negb makepath then (Raise NoNodeError, w)
    else
      let m1 := if makepath then ensure_path [] parent (nodes w) else nodes w in
      match m1 !! real with
      | Some _ => (Raise NodeExistsError, set_nodes m1 w)
      | None =>
        let w1 := set_nodes (<[real := value]> m1) w in
        let w2 := if sequence
                  then set_seqs (<[parent := N.succ n]> (seqs w1)) w1 else w1 in
        (Ok (PStr (if sequence then path +:+ suffix else path)), w2)
      end
  end.

Definition do_get (path : string) : M pyval := fun w =>
  match parse_path path with
  | None => (Raise BadArgumentsError, w)
  | Some p =>
    match nodes w !! p with
    | Some v => (Ok (PStr v), w)
    | None => (Raise NoNodeError, w)
    end
  end.

Definition do_set (path value : string) : M pyval := fun w =>
  match parse_path path with
  | None => (Raise BadArgumentsError, w)
  | Some p =>
    match nodes w !! p with
    | Some _ => (Ok PNone, set_nodes (<[p := value]> (nodes w)) w)
    | None => (Raise NoNodeError, w)
    end
  end.

Definition do_exists (path : string) : M pyval := fun w =>
  match parse_path path with
  | None => (Raise BadArgumentsError, w)
  | Some p => (Ok (PBool (bool_decide (is_Some (nodes w !! p)))), w)
  end.

Definition do_children (path : string) : M pyval := fun w =>
  match parse_path path with
  | None => (Raise BadArgumentsError, w)
  | Some p =>
    match nodes w !! p with
    | Some _ => (Ok (PList (children (nodes w) p)), w)
    | None => (Raise NoNodeError, w)
    end
  end.

Definition do_delete (path : string) : M pyval := fun w =>
  match parse_path path with
  | None => (Raise BadArgumentsError, w)
  | Some p =>
    match nodes w !! p with
    | None => (Raise NoNodeError, w)
    | Some _ =>
      match children (nodes w) p with
      | [] => (Ok (PBool true), set_nodes (delete p (nodes w)) w)
      | _ :: _ => (Raise NotEmptyError, w)
      end
    end
  end.

(** An asynchronous call hands back a result object; what the service
    answers, error or not, stays inside that object. *)
Definition async (m : M pyval) : M pyval := fun w =>
  match m w with
  | (_, w') => (Ok PAsync, w')
  end.

Definition perform (r : request) : M pyval :=
  match r with
  | RCreate p v _ s k a =>
      if a then async (do_create p v s k) else do_create p v s k
  | RGet p => do_get p
  | RSet p v a => if a then async (do_set p v) else do_set p v
  | RExists p => do_exists p
  | RChildren p => do_children p
  | RDelete p a => if a then async (do_delete p) else do_delete p
  end.

(** [function( *args )] on the client handle.  The request is logged, then it
    either runs into the next scheduled fault or reaches the service. *)
Definition call (f : zk_op) (args : list pyval) : M pyval := fun w =>
  match decode f args with
  | None => (Raise TypeError, w)
  | Some r =>
    let w1 := add_log (Req f args) w in
    match faults w1 with
    | [] => perform r w1
    | None :: fs => perform r (set_faults fs w1)
    | Some e :: fs => (Raise e, set_faults fs w1)
    end
  end.

End Zk.

Import Zk.

(** ** Module constants of [zktransaction.py] *)

Definition ZOO_ACL_OPEN : pyval := PNone.
Definition TX_TIMEOUT : Z := 30.
Definition GC_INTERVAL : Z := 30.
Definition DEFAULT_VAL : string := "default".
Definition PATH_SEPARATOR : string := "/".
Definition APPS_PATH : string := "/appscale/apps".
Definition APP_TX_PATH : string := "txids".
Definition APP_LOCK_PATH : string := "locks".
Definition APP_TX_PREFIX : string := "tx".
Definition TX_UPDATEDKEY_PREFIX : string := "ukey".
Definition TX_LOCK_PATH : string := "lockpath".
Definition TX_BLACKLIST_PATH : string := "blacklist".
Definition TX_VALIDLIST_PATH : string := "validlist".
Definition XG_PREFIX : string := "xg".
Definition MAX_GROUPS_FOR_XG : nat := 5.
Definition LOCK_LIST_SEPARATOR : string := "!XG_LIST!".
Definition GC_LOCK_PATH : string := "gclock".
Definition GC_TIME_PATH : string := "gclast_time".
Definition DS_GROOM_LOCK_PATH : string := "/appscale_datastore_groomer".

(** [str(v)] *)
Definition py_str (v : pyval) : string :=
  match v with
  | PStr s => s
  | PNone => "None"
  | PBool true => "True"
  | PBool false => "False"
  | PList _ => "[...]"
  | PAsync => "<AsyncResult>"
  end.

(** ** class [ZKTransaction] *)

Module ZKTransaction.

Definition DEFAULT_NUM_RETRIES : Z := 5.
Definition DEFAULT_ZK_TIMEOUT : Z := 3.

(** *** Path builders *)

Definition get_app_root_path (app_id : string) : string :=
  join PATH_SEPARATOR [APPS_PATH; quote_plus app_id].

Definition get_transaction_prefix_path (app_id : string) : string :=
  join PATH_SEPARATOR [get_app_root_path app_id; APP_TX_PATH].

Definition get_txn_path_before_getting_id (app_id : string) : string :=
  join PATH_SEPARATOR [get_transaction_prefix_path app_id; APP_TX_PREFIX].

Definition get_transaction_path (app_id : string) (txid : Z) : string :=
  let txstr := APP_TX_PREFIX +:+ fmt_010d txid in
  join PATH_SEPARATOR [get_app_root_path app_id; APP_TX_PATH; txstr].

Definition get_transaction_lock_list_path (app_id : string) (txid : Z) : string :=
  join PATH_SEPARATOR [get_transaction_path app_id txid; TX_LOCK_PATH].

Definition get_blacklist_root_path (app_id : string) : string :=
  join PATH_SEPARATOR [get_transaction_prefix_path app_id; TX_BLACKLIST_PATH].

Definition get_valid_transaction_root_path (app_id : string) : string :=
  join PATH_SEPARATOR [get_transaction_prefix_path app_id; TX_VALIDLIST_PATH].

Definition get_valid_transaction_path (app_id entity_key : string) : string :=
  join PATH_SEPARATOR
    [get_valid_transaction_root_path app_id; quote_plus entity_key].

Definition get_lock_root_path (app_id key : string) : string :=
  join PATH_SEPARATOR [get_app_root_path app_id; APP_LOCK_PATH; quote_plus key].

Definition get_xg_path (app_id : string) (tx_id : Z) : string :=
  let txstr := APP_TX_PREFIX +:+ fmt_010d tx_id in
  join PATH_SEPARATOR [get_app_root_path app_id; APP_TX_PATH; txstr; XG_PREFIX].

(** *** Session and executor *)

(** [self.handle.stop()], a new [KazooClient], [start()]: the coordinator
    goes on with a fresh handle.  The nodes of transactions, of entity-group
    locks and of the two lists are not ephemeral, so the end of the old
    session removes none of them. *)
Definition reestablish_connection : M unit := fun w =>
  (Ok tt, World (nodes w) (seqs w) (S (session w)) (faults w)
                (Reconnect :: log w) (now w)).

Definition reset_timer_and_connection : M unit := reestablish_connection.

Definition failed_to_run (function : zk_op) (why : string) : exn :=
  ZKTransactionException ("Failed to run " +:+ op_name function +:+ why).

(** [run_with_timeout], by recursion on the retries that are left.  The
    alarm going off inside the call is the fault [ZKTimeoutException]. *)
Fixpoint run_with_timeout_from (retries : nat) (timeout_time : Z)
    (function : zk_op) (args : list pyval) : M pyval :=
  match retries with
  | O => raise (failed_to_run function ", no more retries")
  | S n =>
    try_except (call function args) (fun e =>
      match e with
      | ZKTimeoutException => raise (failed_to_run function ", timed out")
      | NoNodeError => raise e
      | NodeExistsError => raise e
      | ConnectionLoss =>
          reset_timer_and_connection ;;
          run_with_timeout_from n timeout_time function args
      | ConnectionClosedError =>
          reset_timer_and_connection ;;
          run_with_timeout_from n timeout_time function args
      | OperationTimeoutError =>
          reset_timer_and_connection ;;
          run_with_timeout_from n timeout_time function []
      | SessionExpiredError =>
          reset_timer_and_connection ;;
          run_with_timeout_from n timeout_time function args
      | DataInconsistency => raise e
      | BadArgumentsError => raise e
      | SystemZookeeperError => raise e
      | _ => run_with_timeout_from n timeout_time function args
      end)
  end.

Definition run_with_timeout (timeout_time num_retries : Z)
    (function : zk_op) (args : list pyval) : M pyval :=
  run_with_timeout_from (Z.to_nat num_retries) timeout_time function args.

(** The call every method makes: default deadline, default retries. *)
Definition zk (function : zk_op) (args : list pyval) : M pyval :=
  run_with_timeout DEFAULT_ZK_TIMEOUT DEFAULT_NUM_RETRIES function args.

(** *** Transaction identifiers *)

Definition unable_to_create (path value : string) : exn :=
  ZKTransactionException
    ("Unable to create sequence node with path " +:+ path +:+
     ", value " +:+ value).

Definition create_node (path value : string) : M unit :=
  retry_loop (Z.to_nat DEFAULT_NUM_RETRIES)
    (* try: ...; return   finally: retries_left -= 1 *)
    (zk Create [PStr path; PStr value; ZOO_ACL_OPEN;
                PBool false; PBool false; PBool true] ;;
     ret (Return tt))
    (raise (unable_to_create path value)).

Definition create_sequence_node (path value : string) : M Z :=
  retry_loop (Z.to_nat DEFAULT_NUM_RETRIES)
    (try_except
       (v <- zk Create [PStr path; PStr value; ZOO_ACL_OPEN;
                        PBool false; PBool true; PBool true] ;;
        if truthy v then
          let txn_id_path := py_str v in
          match py_long (lstrip APP_TX_PREFIX
                           (last_item (split PATH_SEPARATOR txn_id_path))) with
          | None => raise ValueError
          | Some txn_id =>
            if txn_id =? 0 then
              call DeleteAsync [PStr txn_id_path] ;; ret Next
            else ret (Return txn_id)
          end
        else ret Next)
       (fun e => if is_zookeeper_error e then ret Next else raise e))
    (raise (unable_to_create path value)).

Definition get_transaction_id (app_id : string) (is_xg : bool) : M Z :=
  t <- time_time ;;
  let timestamp := str_time t in
  let app_path := get_txn_path_before_getting_id app_id in
  txn_id <- create_sequence_node app_path timestamp ;;
  (if is_xg then create_node (get_xg_path app_id txn_id) timestamp
   else ret tt) ;;
  ret txn_id.

(** *** Blacklist and transaction status *)

Definition is_blacklisted (app_id : string) (txid : Z) : M bool :=
  let blacklist_root := get_blacklist_root_path app_id in
  e <- zk Exists [PStr blacklist_root] ;;
  (if negb (truthy e) then
     call Create [PStr blacklist_root; PStr DEFAULT_VAL; ZOO_ACL_OPEN;
                  PBool false; PBool false; PBool true] ;; ret tt
   else ret tt) ;;
  try_except
    (v <- zk GetChildren [PStr blacklist_root] ;;
     blacklist <- get_list v ;;
     ret (bool_decide (str_int txid ∈ blacklist)))
    (fun e => match e with NoNodeError => ret false | _ => raise e end).

Definition check_transaction (app_id : string) (txid : Z) : M bool :=
  let txpath := get_transaction_path app_id txid in
  b <- is_blacklisted app_id txid ;;
  if b then
    raise (ZKTransactionException
             ("[check_transaction] Transaction " +:+ str_int txid +:+
              " timed out."))
  else
    e <- zk Exists [PStr txpath] ;;
    if negb (truthy e) then
      raise (ZKTransactionException
               ("Transaction " +:+ str_int txid +:+ " is not valid."))
    else ret true.

Definition is_in_transaction (app_id : string) (txid : Z) : M bool :=
  let tx_lock_path := get_transaction_lock_list_path app_id txid in
  b <- is_blacklisted app_id txid ;;
  if b then
    raise (ZKTransactionException
             ("[is_in_transaction]: Transaction " +:+ str_int txid +:+
              " timed out."))
  else
    e <- zk Exists [PStr tx_lock_path] ;;
    if negb (truthy e) then ret false else ret true.

Definition is_xg (app_id : string) (tx_id : Z) : M bool :=
  try_except
    (v <- call Exists [PStr (get_xg_path app_id tx_id)] ;; ret (truthy v))
    (fun e =>
       if is_zookeeper_error e
       then raise (ZKTransactionException
                     ("ZooKeeper exception:" +:+ exn_name e))
       else raise e).

(** *** Locks *)

Definition already_held (lockrootpath : string) : exn :=
  ZKTransactionException
    ("acquire_additional_lock: There is already another transaction using "
     +:+ lockrootpath +:+ " lock").

Definition too_many_groups : exn :=
  ZKTransactionException
    "acquire_additional_lock: Too many groups for this XG transaction.".

Definition different_root : exn :=
  ZKTransactionException
    "acquire_lock: You can not lock different root entity in non-cross-group transaction.".

(** The [while retry:] loop of the source runs its body once: [retry] is
    cleared on entry and never set again. *)
Definition acquire_additional_lock (app_id : string) (txid : Z)
    (entity_key : string) (create : bool) : M bool :=
  let txpath := get_transaction_path app_id txid in
  let lockrootpath := get_lock_root_path app_id entity_key in
  lockpath <-
    try_except
      (zk Create [PStr lockrootpath; PStr txpath; ZOO_ACL_OPEN;
                  PBool false; PBool false; PBool true])
      (fun e =>
         match e with
         | NodeExistsError =>
           try_except (zk Get [PStr lockrootpath] ;; ret tt)
             (fun e' => match e' with NoNodeError => ret tt | _ => raise e' end) ;;
           raise (already_held lockrootpath)
         | _ => raise e
         end) ;;
  let transaction_lock_path := get_transaction_lock_list_path app_id txid in
  if create then
    zk CreateAsync [PStr transaction_lock_path; PStr (py_str lockpath);
                    ZOO_ACL_OPEN; PBool false; PBool false] ;;
    ret true
  else
    v <- zk Get [PStr transaction_lock_path] ;;
    tx_lockpath <- get_str v ;;
    let lock_list := split LOCK_LIST_SEPARATOR tx_lockpath in
    if (MAX_GROUPS_FOR_XG <=? length lock_list)%nat then raise too_many_groups
    else
      let lock_list := lock_list ++ [py_str lockpath] in
      let lock_list_str := join LOCK_LIST_SEPARATOR lock_list in
      zk SetAsync [PStr transaction_lock_path; PStr lock_list_str] ;;
      ret true.

Definition acquire_lock (app_id : string) (txid : Z) (entity_key : string)
  : M bool :=
  let lockrootpath := get_lock_root_path app_id entity_key in
  b <- is_in_transaction app_id txid ;;
  if b then
    let transaction_lock_path := get_transaction_lock_list_path app_id txid in
    v <- zk Get [PStr transaction_lock_path] ;;
    prelockpath <- get_str v ;;
    let lock_list := split LOCK_LIST_SEPARATOR prelockpath in
    if bool_decide (lockrootpath ∈ lock_list) then ret true
    else
      x <- is_xg app_id txid ;;
      if x then acquire_additional_lock app_id txid entity_key false
      else raise different_root
  else acquire_additional_lock app_id txid entity_key true.

Definition release_lock (app_id : string) (txid : Z) : M bool :=
  check_transaction app_id txid ;;
  let txpath := get_transaction_path app_id txid in
  let transaction_lock_path := get_transaction_lock_list_path app_id txid in
  r <- try_except
         (v <- zk Get [PStr transaction_lock_path] ;;
          lock_list_str <- get_str v ;;
          let lock_list := split LOCK_LIST_SEPARATOR lock_list_str in
          for_each lock_list (fun lock_path =>
            zk DeleteAsync [PStr lock_path] ;; ret tt) ;;
          zk Delete [PStr transaction_lock_path] ;;
          ret Next)
         (fun e =>
            match e with
            | NoNodeError =>
              b <- is_blacklisted app_id txid ;;
              if b then
                raise (ZKTransactionException
                         ("Unable to release lock " +:+ transaction_lock_path
                          +:+ " for app id " +:+ app_id))
              else ret (Return true)
            | _ => raise e
            end) ;;
  match r with
  | Return b => ret b
  | Next =>
    x <- is_xg app_id txid ;;
    (if x then zk DeleteAsync [PStr (get_xg_path app_id txid)] ;; ret tt
     else ret tt) ;;
    v <- zk GetChildren [PStr txpath] ;;
    cs <- get_list v ;;
    for_each cs (fun child =>
      zk DeleteAsync [PStr (join PATH_SEPARATOR [txpath; child])] ;; ret tt) ;;
    (* This deletes the transaction root path. *)
    zk DeleteAsync [PStr txpath] ;;
    ret true
  end.

(** *** Journal *)

Definition register_updated_key (app_id : string) (current_txid target_txid : Z)
    (entity_key : string) : M bool :=
  let vtxpath := get_valid_transaction_path app_id entity_key in
  e <- zk Exists [PStr vtxpath] ;;
  (if truthy e then
     zk SetAsync [PStr vtxpath; PStr (str_int target_txid)] ;; ret tt
   else
     let value := join PATH_SEPARATOR [quote_plus entity_key; str_int target_txid] in
     let txpath := get_transaction_path app_id current_txid in
     e' <- zk Exists [PStr txpath] ;;
     if truthy e' then
       zk CreateAsync [PStr (join PATH_SEPARATOR [txpath; TX_UPDATEDKEY_PREFIX]);
                       PStr value; ZOO_ACL_OPEN; PBool false; PBool true] ;;
       ret tt
     else
       raise (ZKTransactionException
                ("Transaction " +:+ str_int current_txid +:+ " is not valid."))) ;;
  ret true.

(** *** Failure notification *)

Definition ensure_root (root : string) : M unit :=
  e <- call Exists [PStr root] ;;
  if negb (truthy e) then
    call Create [PStr root; PStr DEFAULT_VAL; ZOO_ACL_OPEN;
                 PBool false; PBool false; PBool true] ;; ret tt
  else ret tt.

(** Body of the second [try] block of [notify_failed_transaction]. *)
Definition notify_failed_body (app_id : string) (txid : Z)
    (lock_list : list string) : M unit :=
  let txpath := get_transaction_path app_id txid in
  (match lock_list with
   | [] => ret tt
   | _ :: _ =>
     (* Add the transaction ID to the blacklist. *)
     t <- time_time ;;
     let now := str_time t in
     let blacklist_root := get_blacklist_root_path app_id in
     ensure_root blacklist_root ;;
     call CreateAsync [PStr (join PATH_SEPARATOR [blacklist_root; str_int txid]);
                       PStr now; ZOO_ACL_OPEN] ;;
     (* Copy valid transaction ID for each updated key into valid list. *)
     v <- call GetChildren [PStr txpath] ;;
     cs <- get_list v ;;
     for_each cs (fun child =>
       if match_prefix TX_UPDATEDKEY_PREFIX child then
         v <- call Get [PStr (join PATH_SEPARATOR [txpath; child])] ;;
         value <- get_str v ;;
         let valuelist := split PATH_SEPARATOR value in
         let key := unquote_plus (nth 0 valuelist "") in
         vid <- match nth_error valuelist 1 with
                | Some x => ret x
                | None => raise IndexError
                end ;;
         ensure_root (get_valid_transaction_root_path app_id) ;;
         let vtxpath := get_valid_transaction_path app_id key in
         call CreateAsync [PStr vtxpath; PStr vid; ZOO_ACL_OPEN] ;;
         ret tt
       else ret tt)
   end) ;;
  (* Release the locks. *)
  for_each lock_list (fun lock => call DeleteAsync [PStr lock] ;; ret tt) ;;
  x <- is_xg app_id txid ;;
  (if x then call DeleteAsync [PStr (get_xg_path app_id txid)] ;; ret tt
   else ret tt) ;;
  (* Remove the transaction paths. *)
  v <- call GetChildren [PStr txpath] ;;
  items <- get_list v ;;
  for_each items (fun item =>
    call DeleteAsync [PStr (join PATH_SEPARATOR [txpath; item])] ;;
    call DeleteAsync [PStr txpath] ;;
    ret tt).

(** Returns [PBool true], or [PNone] on the bare [return] of the first
    [try] block. *)
Definition notify_failed_transaction (app_id : string) (txid : Z) : M pyval :=
  emit (NotifyFailed app_id txid) ;;
  let txpath := get_transaction_path app_id txid in
  r <- try_except
         (v <- call Get [PStr (join PATH_SEPARATOR [txpath; TX_LOCK_PATH])] ;;
          lockpath <- get_str v ;;
          ret (Some (split LOCK_LIST_SEPARATOR lockpath)))
         (fun e =>
            match e with
            | NoNodeError => ret (Some [])
            | _ => if is_zookeeper_error e then ret None else raise e
            end) ;;
  match r with
  | None => ret PNone
  | Some lock_list =>
    try_except (notify_failed_body app_id txid lock_list)
      (fun e => if is_zookeeper_error e then ret tt else raise e) ;;
    ret (PBool true)
  end.

(** *** Garbage collection *)

Definition execute_garbage_collection (app_id app_path : string) : M unit :=
  start <- time_time ;;
  let txrootpath := join PATH_SEPARATOR [app_path; APP_TX_PATH] in
  r <- try_except
         (v <- call GetChildren [PStr txrootpath] ;;
          l <- get_list v ;; ret (Some l))
         (fun e =>
            match e with
            | NoNodeError => ret None
            | _ => if is_zookeeper_error e
                   then reestablish_connection ;; ret None
                   else raise e
            end) ;;
  match r with
  | None => ret tt
  | Some txlist =>
    (* Verify the time stamp of each transaction. *)
    for_ctl txlist (fun txid =>
      if negb (match_tx_digit txid) then ret Next
      else
        let txpath := join PATH_SEPARATOR [txrootpath; txid] in
        try_except
          (v <- call Get [PStr txpath] ;;
           s <- get_str v ;;
           txtime <- match py_float s with
                     | Some t => ret t
                     | None => raise ValueError
                     end ;;
           t <- time_time ;;
           if txtime + TX_TIMEOUT <? t then
             id <- match py_long (lstrip APP_TX_PREFIX txid) with
                   | Some i => ret i
                   | None => raise ValueError
                   end ;;
             notify_failed_transaction app_id id ;;
             ret Next
           else ret Next)
          (fun e =>
             match e with
             | NoNodeError => ret Next
             | _ => if is_zookeeper_error e
                    then reestablish_connection ;; ret (Return tt)
                    else raise e
             end)) ;;
    ret tt
  end.

(** *** Node updates *)

(** [set], and [create] with [makepath] when the node is missing; any other
    service error of the [set] is logged and dropped. *)
Definition update_node (path value : string) : M unit :=
  try_except (call SetData [PStr path; PStr value] ;; ret tt)
    (fun e =>
       match e with
       | NoNodeError =>
         call Create [PStr path; PStr value; ZOO_ACL_OPEN;
                      PBool false; PBool false; PBool true] ;;
         ret tt
       | _ => if is_zookeeper_error e then ret tt else raise e
       end).

(** *** Valid versions and updated keys *)

Definition get_valid_transaction_id (app_id : string) (target_txid : Z)
    (entity_key : string) : M Z :=
  b <- is_blacklisted app_id target_txid ;;
  if negb b then ret target_txid
  else
    (* get the valid id *)
    let vtxpath := get_valid_transaction_path app_id entity_key in
    try_except
      (v <- zk Get [PStr vtxpath] ;;
       vid <- get_str v ;;
       match py_long vid with
       | Some z => ret z
       | None => raise ValueError
       end)
      (fun e =>
         match e with
         | NoNodeError => ret 0   (* blacklisted, but there is no valid id *)
         | _ => raise e
         end).

(** [for x in l: acc = body(acc, x)] *)
Fixpoint for_fold {A S} (l : list A) (acc : S) (body : S -> A -> M S) : M S :=
  match l with
  | [] => ret acc
  | x :: r => acc' <- body acc x ;; for_fold r acc' body
  end.

Definition get_updated_key_list (app_id : string) (txid : Z)
  : M (list string) :=
  let txpath := get_transaction_path app_id txid in
  try_except
    (v <- zk GetChildren [PStr txpath] ;;
     child_list <- get_list v ;;
     for_fold child_list [] (fun keylist item =>
       if match_prefix TX_UPDATEDKEY_PREFIX item then
         v <- zk Get [PStr (join PATH_SEPARATOR [txpath; item])] ;;
         keyandtx <- get_str v ;;
         let key := unquote_plus (nth 0 (split PATH_SEPARATOR keyandtx) "") in
         ret (keylist ++ [key])
       else ret keylist))
    (fun e =>
       match e with
       | NoNodeError =>
         raise (ZKTransactionException
                  ("get_updated_key_list: Transaction ID " +:+ str_int txid
                   +:+ " is not valid."))
       | _ => raise e
       end).

(** *** The lock of the datastore groomer *)

(** The lock is an ephemeral node: the service removes it when the session
    of its creator ends.  The world keeps no owner of a node, so the
    statements on this lock follow it up to the next reconnect only.

    Every exception is caught by one of the handlers: all but the two
    "node" errors lead to a reconnect, and all give [False]. *)
Definition get_datastore_groomer_lock : M bool :=
  try_except
    (t <- time_time ;;
     let now := str_time t in
     call Create [PStr DS_GROOM_LOCK_PATH; PStr now; ZOO_ACL_OPEN; PBool true] ;;
     ret true)
    (fun e =>
       match e with
       | NoNodeError => ret false
       | NodeExistsError => ret false
       | _ => reestablish_connection ;; ret false
       end).

Definition release_datastore_groomer_lock : M bool :=
  try_except
    (call Delete [PStr DS_GROOM_LOCK_PATH] ;; ret true)
    (fun e =>
       match e with
       | NoNodeError =>
         raise (ZKTransactionException
                  "Unable to delete datastore groomer lock.")
       | _ => reestablish_connection ;; ret false
       end).

(** *** Collection for one application *)

(** [True] when a collection was due, [False] when it was not, [None] on
    the bare [return] after a service error.  The lock of the collector is
    an ephemeral node, taken before the sweep and deleted only when the
    sweep or the time update raises. *)
Definition try_garbage_collection (app_id app_path : string) : M pyval :=
  r <- try_except
         (v <- call Get [PStr (join PATH_SEPARATOR [app_path; GC_TIME_PATH])] ;;
          val <- get_str v ;;
          match py_float val with
          | Some t => ret (Some t)
          | None => raise ValueError
          end)
         (fun e =>
            match e with
            | NoNodeError => ret (Some 0)
            | _ => if is_zookeeper_error e
                   then reestablish_connection ;; ret None
                   else raise e
            end) ;;
  match r with
  | None => ret PNone
  | Some last_time =>
    (* If the last time plus our GC interval is less than the current time,
       that means its time to run the GC again. *)
    t <- time_time ;;
    if last_time + GC_INTERVAL <? t then
      let gc_path := join PATH_SEPARATOR [app_path; GC_LOCK_PATH] in
      r' <- try_except
              (t <- time_time ;;
               let now := str_time t in
               call Create [PStr gc_path; PStr now; ZOO_ACL_OPEN; PBool true] ;;
               try_except
                 (execute_garbage_collection app_id app_path ;;
                  (* Update the last time when the GC was successful. *)
                  t <- time_time ;;
                  let now := str_time t in
                  update_node (join PATH_SEPARATOR [app_path; GC_TIME_PATH]) now)
                 (fun _ => call Delete [PStr gc_path] ;; ret tt) ;;
               ret Next)
              (fun e =>
                 match e with
                 | NodeExistsError => ret Next
                 | _ => if is_zookeeper_error e
                        then reestablish_connection ;; ret (Return PNone)
                        else raise e
                 end) ;;
      match r' with
      | Return v => ret v
      | Next => ret (PBool true)
      end
    else ret (PBool false)
  end.

(** *** Removal of a subtree *)

(** [for x in l: body(x)] for a body that can give up: [None] ends the
    loop. *)
Fixpoint for_opt {A} (l : list A) (body : A -> M (option unit))
  : M (option unit) :=
  match l with
  | [] => ret (Some tt)
  | x :: r =>
    o <- body x ;;
    match o with
    | None => ret None
    | Some _ => for_opt r body
    end
  end.

(** [delete_recursive], by recursion on a bound [depth] for the nesting of
    its calls; [None] stands for a nesting deeper than [depth], which no
    handler of the function catches. *)
Fixpoint delete_recursive (depth : nat) (path : string) : M (option unit) :=
  match depth with
  | O => ret None
  | S d =>
    try_except
      (v <- zk GetChildren [PStr path] ;;
       children <- get_list v ;;
       r <- for_opt children (fun child =>
              delete_recursive d (join PATH_SEPARATOR [path; child])) ;;
       match r with
       | None => ret None
       | Some _ => zk Delete [PStr path] ;; ret (Some tt)
       end)
      (fun e => match e with NoNodeError => ret (Some tt) | _ => raise e end)
  end.

End ZKTransaction.

Import ZKTransaction.

Arguments zk : simpl never.
Arguments call : simpl never.
Arguments parse_path : simpl never.
Arguments children : simpl never.
Arguments ensure_path : simpl never.
Arguments split : simpl never.
Arguments quote_plus : simpl never.
Arguments unquote_plus : simpl never.
Arguments fmt_010d : simpl never.
Arguments str_int : simpl never.
Arguments get_app_root_path : simpl never.
Arguments get_transaction_prefix_path : simpl never.
Arguments get_txn_path_before_getting_id : simpl never.
Arguments get_transaction_path : simpl never.
Arguments get_transaction_lock_list_path : simpl never.
Arguments get_blacklist_root_path : simpl never.
Arguments get_valid_transaction_root_path : simpl never.
Arguments get_valid_transaction_path : simpl never.
Arguments get_lock_root_path : simpl never.
Arguments get_xg_path : simpl never.

(** ** Worlds and predicates of the statements below *)

(** A world with one node [/a], whose next request runs into [e]. *)
Definition one_node (e : exn) : world :=
  World {[ ["a"] := "v" ]} ∅ 0 [Some e] [] 0.

(** The paths of the delete requests in a log, in the order they were made. *)
Definition deletions (l : list event) : list string :=
  omap (fun e => match e with
                 | Req Delete [PStr p] => Some p
                 | Req DeleteAsync [PStr p] => Some p
                 | _ => None
                 end) l.

(** The create requests for [path] in a log. *)
Definition creations_of (path : string) (l : list event) : list event :=
  List.filter (fun e => match e with
                        | Req Create (PStr p :: _) => String.eqb p path
                        | _ => false
                        end) l.

(** An empty name-space at time 1000; the first three requests go through
    (sequence node 0, its removal, sequence node 1), every later one runs
    into a fatal service error. *)
Definition xg_creation_fails : world :=
  World ∅ ∅ 0 ([None; None; None] ++ replicate 10 (Some SystemZookeeperError))
        [] 1000.

(** Application [app] with transaction 1, which holds the lock of key [k]
    and has registered one updated key. *)
Definition tx_with_two_children : world :=
  World (list_to_map
           [ (["appscale"], "");
             (["appscale"; "apps"], "");
             (["appscale"; "apps"; "app"], "");
             (["appscale"; "apps"; "app"; "locks"], "");
             (["appscale"; "apps"; "app"; "locks"; "k"],
              "/appscale/apps/app/txids/tx0000000001");
             (["appscale"; "apps"; "app"; "txids"], "");
             (["appscale"; "apps"; "app"; "txids"; "tx0000000001"], "1000");
             (["appscale"; "apps"; "app"; "txids"; "tx0000000001"; "lockpath"],
              "/appscale/apps/app/locks/k");
             (["appscale"; "apps"; "app"; "txids"; "tx0000000001";
               "ukey0000000000"], "k/42") ])
        {[ ["appscale"; "apps"; "app"; "txids"] := 2%N;
           ["appscale"; "apps"; "app"; "txids"; "tx0000000001"] := 1%N ]}
        0 [] [] 1040.

(** The node paths behind the path builders. *)
Module Key.

Definition tx_name (txid : Z) : string := APP_TX_PREFIX +:+ fmt_010d txid.

Definition app_root (app_id : string) : list string :=
  ["appscale"; "apps"; quote_plus app_id].
Definition tx_root (app_id : string) : list string :=
  ["appscale"; "apps"; quote_plus app_id; "txids"].
Definition tx (app_id : string) (txid : Z) : list string :=
  ["appscale"; "apps"; quote_plus app_id; "txids"; tx_name txid].
Definition lock_list (app_id : string) (txid : Z) : list string :=
  ["appscale"; "apps"; quote_plus app_id; "txids"; tx_name txid; "lockpath"].
Definition xg (app_id : string) (txid : Z) : list string :=
  ["appscale"; "apps"; quote_plus app_id; "txids"; tx_name txid; "xg"].
Definition blacklist (app_id : string) : list string :=
  ["appscale"; "apps"; quote_plus app_id; "txids"; "blacklist"].
Definition blacklisted (app_id : string) (txid : Z) : list string :=
  ["appscale"; "apps"; quote_plus app_id; "txids"; "blacklist"; str_int txid].
Definition validlist (app_id : string) : list string :=
  ["appscale"; "apps"; quote_plus app_id; "txids"; "validlist"].
Definition valid (app_id key : string) : list string :=
  ["appscale"; "apps"; quote_plus app_id; "txids"; "validlist"; quote_plus key].
Definition lock_root (app_id key : string) : list string :=
  ["appscale"; "apps"; quote_plus app_id; "locks"; quote_plus key].

End Key.

(** [create(path, value, acl, False, False, True)] *)
Definition mk_args (s v : string) : list pyval :=
  [PStr s; PStr v; ZOO_ACL_OPEN; PBool false; PBool false; PBool true].

(** What an asynchronous request leaves behind in the name-space. *)
Definition after_create (m : gmap (list string) string) (p : list string)
    (v : string) : gmap (list string) string :=
  if has_parent m p
  then match m !! p with Some _ => m | None => <[p := v]> m end
  else m.

Definition after_set (m : gmap (list string) string) (p : list string)
    (v : string) : gmap (list string) string :=
  match m !! p with Some _ => <[p := v]> m | None => m end.

Definition after_delete (m : gmap (list string) string) (p : list string)
  : gmap (list string) string :=
  match m !! p with
  | Some _ => match children m p with [] => delete p m | _ :: _ => m end
  | None => m
  end.

(** The name-space and the requests of a blacklist lookup, which creates the
    blacklist root when it is missing. *)
Definition with_blacklist_root (app_id : string)
    (m : gmap (list string) string) : gmap (list string) string :=
  match m !! Key.blacklist app_id with
  | Some _ => m
  | None =>
    <[Key.blacklist app_id := DEFAULT_VAL]>
      (ensure_path [] (Key.tx_root app_id) m)
  end.

Definition blacklist_lookup (app_id : string)
    (m : gmap (list string) string) : list event :=
  let root := get_blacklist_root_path app_id in
  Req GetChildren [PStr root]
  :: match m !! Key.blacklist app_id with
     | Some _ => []
     | None => [Req Create (mk_args root DEFAULT_VAL)]
     end
  ++ [Req Exists [PStr root]].

(** The messages of [check_transaction]. *)
Definition timed_out (txid : Z) : exn :=
  ZKTransactionException
    ("[check_transaction] Transaction " +:+ str_int txid +:+ " timed out.").

Definition not_valid (txid : Z) : exn :=
  ZKTransactionException ("Transaction " +:+ str_int txid +:+ " is not valid.").

(** A transaction that exists, is not blacklisted and holds no lock. *)
Definition tx_without_locks : world :=
  World (list_to_map
           [ (["appscale"], "");
             (["appscale"; "apps"], "");
             (["appscale"; "apps"; "app"], "");
             (["appscale"; "apps"; "app"; "txids"], "");
             (["appscale"; "apps"; "app"; "txids"; "tx0000000001"], "1000");
             (["appscale"; "apps"; "app"; "txids"; "tx0000000001"; "xg"],
              "1000") ])
        {[ ["appscale"; "apps"; "app"; "txids"] := 2%N ]}
        0 [] [] 1001.

(** The name-space once the path down to an application's [locks] node is
    there, as [create] with [makepath] leaves it. *)
Definition with_locks_dir (app_id : string)
    (m : gmap (list string) string) : gmap (list string) string :=
  ensure_path [] ["appscale"; "apps"; quote_plus app_id; "locks"] m.

(** The log of [acquire_lock] at the point where it turns to
    [acquire_additional_lock], for a transaction without and with a lock
    list. *)
Definition not_in_transaction_log (app_id : string) (txid : Z)
    (m : gmap (list string) string) (lg : list event) : list event :=
  Req Exists [PStr (get_transaction_lock_list_path app_id txid)]
  :: blacklist_lookup app_id m ++ lg.

Definition xg_check_log (app_id : string) (txid : Z)
    (m : gmap (list string) string) (lg : list event) : list event :=
  Req Exists [PStr (get_xg_path app_id txid)]
  :: Req Get [PStr (get_transaction_lock_list_path app_id txid)]
  :: not_in_transaction_log app_id txid m lg.

(** An entry of a lock list that cannot be mistaken for a separator. *)
Definition separator_free (s : string) : Prop := has_char "!" s = false.

(** P4 for one transaction: at most five entries, one without the [xg]
    marker; the entries are free of the separator's first character. *)
Definition lock_list_ok (w : world) (app_id : string) (txid : Z) : Prop :=
  ∀ v, nodes w !! Key.lock_list app_id txid = Some v →
    Forall separator_free (split LOCK_LIST_SEPARATOR v)
    ∧ (length (split LOCK_LIST_SEPARATOR v) ≤ MAX_GROUPS_FOR_XG)%nat
    ∧ (nodes w !! Key.xg app_id txid = None →
       length (split LOCK_LIST_SEPARATOR v) = 1%nat).

(** Application [app]: transaction 1 (not cross-group) holds the lock of
    [k1]; transaction 2 has just begun. *)
Definition one_lock_held : world :=
  World (list_to_map
           [ (["appscale"], "");
             (["appscale"; "apps"], "");
             (["appscale"; "apps"; "app"], "");
             (["appscale"; "apps"; "app"; "locks"], "");
             (["appscale"; "apps"; "app"; "locks"; "k1"],
              "/appscale/apps/app/txids/tx0000000001");
             (["appscale"; "apps"; "app"; "txids"], "");
             (["appscale"; "apps"; "app"; "txids"; "blacklist"], "default");
             (["appscale"; "apps"; "app"; "txids"; "tx0000000001"], "1000");
             (["appscale"; "apps"; "app"; "txids"; "tx0000000001"; "lockpath"],
              "/appscale/apps/app/locks/k1");
             (["appscale"; "apps"; "app"; "txids"; "tx0000000002"], "1001") ])
        {[ ["appscale"; "apps"; "app"; "txids"] := 3%N ]}
        0 [] [] 1002.

(** Application [app]: the cross-group transaction 1 holds the locks of
    [k1] to [k5]. *)
Definition five_locks_held : world :=
  World (list_to_map
           [ (["appscale"], "");
             (["appscale"; "apps"], "");
             (["appscale"; "apps"; "app"], "");
             (["appscale"; "apps"; "app"; "locks"], "");
             (["appscale"; "apps"; "app"; "locks"; "k1"],
              "/appscale/apps/app/txids/tx0000000001");
             (["appscale"; "apps"; "app"; "locks"; "k2"],
              "/appscale/apps/app/txids/tx0000000001");
             (["appscale"; "apps"; "app"; "locks"; "k3"],
              "/appscale/apps/app/txids/tx0000000001");
             (["appscale"; "apps"; "app"; "locks"; "k4"],
              "/appscale/apps/app/txids/tx0000000001");
             (["appscale"; "apps"; "app"; "locks"; "k5"],
              "/appscale/apps/app/txids/tx0000000001");
             (["appscale"; "apps"; "app"; "txids"], "");
             (["appscale"; "apps"; "app"; "txids"; "blacklist"], "default");
             (["appscale"; "apps"; "app"; "txids"; "tx0000000001"], "1000");
             (["appscale"; "apps"; "app"; "txids"; "tx0000000001"; "xg"], "1000");
             (["appscale"; "apps"; "app"; "txids"; "tx0000000001"; "lockpath"],
              join LOCK_LIST_SEPARATOR
                [ "/appscale/apps/app/locks/k1"; "/appscale/apps/app/locks/k2";
                  "/appscale/apps/app/locks/k3"; "/appscale/apps/app/locks/k4";
                  "/appscale/apps/app/locks/k5" ]) ])
        {[ ["appscale"; "apps"; "app"; "txids"] := 2%N ]}
        0 [] [] 1002.


(** Application [app]: transaction 1 has failed and is blacklisted, version
    7 of [k1] is the valid one; transaction 2 has just begun. *)
Definition failed_transaction : world :=
  World (list_to_map
           [ (["appscale"], "");
             (["appscale"; "apps"], "");
             (["appscale"; "apps"; "app"], "");
             (["appscale"; "apps"; "app"; "txids"], "");
             (["appscale"; "apps"; "app"; "txids"; "blacklist"], "default");
             (["appscale"; "apps"; "app"; "txids"; "blacklist"; "1"], "1000");
             (["appscale"; "apps"; "app"; "txids"; "validlist"], "default");
             (["appscale"; "apps"; "app"; "txids"; "validlist"; "k1"], "7");
             (["appscale"; "apps"; "app"; "txids"; "tx0000000002"], "1001") ])
        {[ ["appscale"; "apps"; "app"; "txids"] := 3%N ]}
        0 [] [] 1002.


(** The name and the value of the node that [register_updated_key] adds to
    a transaction, and what [get_updated_key_list] reads out of a child of
    the transaction node. *)
Definition ukey_name (n : N) : string :=
  TX_UPDATEDKEY_PREFIX +:+ fmt_010d (Z.of_N n).

Definition ukey_value (key : string) (target : Z) : string :=
  join PATH_SEPARATOR [quote_plus key; str_int target].

Definition updated_key (m : gmap (list string) string) (tx : list string)
    (item : string) : option string :=
  if match_prefix TX_UPDATEDKEY_PREFIX item
  then option_map (fun v => unquote_plus (nth 0 (split PATH_SEPARATOR v) ""))
                  (m !! (tx ++ [item]))
  else None.


(** The nodes of the two locks that are not tied to a transaction. *)
Definition groomer_lock : list string := ["appscale_datastore_groomer"].

Definition unable_to_delete_groomer_lock : exn :=
  ZKTransactionException "Unable to delete datastore groomer lock.".


(** Requests that change nothing. *)
Definition is_read (e : event) : Prop :=
  match e with
  | Req Get _ | Req Exists _ | Req GetChildren _ => True
  | _ => False
  end.

(** A child [c] of the [txids] node [txroot] that the sweep at time [t]
    leaves alone: its name is not that of a transaction, or its time stamp
    plus [TX_TIMEOUT] is not in the past. *)
Definition young (m : gmap (list string) string) (txroot : list string)
    (t : Z) (c : string) : Prop :=
  match_tx_digit c = true →
  ∃ s ts, m !! (txroot ++ [c]) = Some s ∧ py_float s = Some ts
          ∧ t ≤ ts + TX_TIMEOUT.

(** The time of the last collection, as [try_garbage_collection] reads it:
    0 when the node is missing. *)
Definition last_collection (m : gmap (list string) string)
    (app : list string) : option Z :=
  match m !! (app ++ [GC_TIME_PATH]) with
  | Some v => py_float v
  | None => Some 0
  end.


(** Application [app] at time 1001: the last collection was at time 900 and
    its [gclock] node is still there; transaction 1 began at time 1000. *)
Definition collector_holds_lock : world :=
  World (list_to_map
           [ (["appscale"], "");
             (["appscale"; "apps"], "");
             (["appscale"; "apps"; "app"], "");
             (["appscale"; "apps"; "app"; "gclast_time"], "900");
             (["appscale"; "apps"; "app"; "gclock"], "900");
             (["appscale"; "apps"; "app"; "txids"], "");
             (["appscale"; "apps"; "app"; "txids"; "tx0000000001"], "1000") ])
        {[ ["appscale"; "apps"; "app"; "txids"] := 2%N ]}
        0 [] [] 1001.


(** The errors after which the executor reconnects and runs the same call
    again. *)
Definition transient (e : exn) : Prop :=
  e = ConnectionLoss ∨ e = ConnectionClosedError ∨ e = SessionExpiredError.

(** The world after [k] requests [f args] that failed and were followed by
    a reconnect. *)
Fixpoint after_retries (k : nat) (f : zk_op) (args : list pyval) (w : world)
  : world :=
  match k with
  | O => w
  | S k' =>
    after_retries k' f args
      (World (nodes w) (seqs w) (S (session w)) (tl (faults w))
             (Reconnect :: Req f args :: log w) (now w))
  end.


(** One node; the next two requests lose the connection and the session. *)
Definition two_transient_faults : world :=
  World {[ ["a"] := "v" ]} ∅ 0
        [Some ConnectionLoss; Some SessionExpiredError] [] 0.


(** A service without any node, at time 1000. *)
Definition empty_service : world := World ∅ ∅ 0 [] [] 1000.


(** The name-space after the release of a transaction that held the lock
    of [key]: the lock root, the lock list, the [xg] marker and the
    transaction node are gone. *)
Definition released (app_id : string) (txid : Z) (key : string)
    (m : gmap (list string) string) : gmap (list string) string :=
  delete (Key.tx app_id txid)
    (delete (Key.xg app_id txid)
       (delete (Key.lock_list app_id txid)
          (delete (Key.lock_root app_id key) (with_blacklist_root app_id m)))).

(** The state of a transaction that [release_lock] cleans up completely:
    it is not blacklisted, its lock list names the lock root of [key], its
    only children are the lock list and the [xg] marker, and nothing lies
    below these or below the lock root. *)
Record holds_one_lock (app_id : string) (txid : Z) (key : string)
    (m : gmap (list string) string) : Prop := {
  hol_live : m !! Key.blacklisted app_id txid = None;
  hol_tx : is_Some (m !! Key.tx app_id txid);
  hol_list : m !! Key.lock_list app_id txid
             = Some (get_lock_root_path app_id key);
  hol_root_leaf : ∀ c, m !! (Key.lock_root app_id key ++ [c]) = None;
  hol_list_leaf : ∀ c, m !! (Key.lock_list app_id txid ++ [c]) = None;
  hol_xg_leaf : ∀ c, m !! (Key.xg app_id txid ++ [c]) = None;
  hol_children : ∀ c, c ≠ TX_LOCK_PATH → c ≠ XG_PREFIX →
                      m !! (Key.tx app_id txid ++ [c]) = None
}.


(** The name-space after the failure of a transaction that held the lock
    of [key], notified at time [t]. *)
Definition failed (app_id : string) (txid : Z) (key : string) (t : Z)
    (m : gmap (list string) string) : gmap (list string) string :=
  delete (Key.tx app_id txid)
    (delete (Key.lock_list app_id txid)
       (delete (Key.xg app_id txid)
          (delete (Key.lock_root app_id key)
             (<[Key.blacklisted app_id txid := str_time t]>
                (with_blacklist_root app_id m))))).


(** Application [app] at time 1040: transaction 1, begun at time 1000,
    holds the lock of [k1]; transaction 2 began at time 1020. *)
Definition expired_lock_holder : world :=
  World (list_to_map
           [ (["appscale"], "");
             (["appscale"; "apps"], "");
             (["appscale"; "apps"; "app"], "");
             (["appscale"; "apps"; "app"; "locks"], "");
             (["appscale"; "apps"; "app"; "locks"; "k1"],
              "/appscale/apps/app/txids/tx0000000001");
             (["appscale"; "apps"; "app"; "txids"], "");
             (["appscale"; "apps"; "app"; "txids"; "blacklist"], "default");
             (["appscale"; "apps"; "app"; "txids"; "tx0000000001"], "1000");
             (["appscale"; "apps"; "app"; "txids"; "tx0000000001"; "lockpath"],
              "/appscale/apps/app/locks/k1");
             (["appscale"; "apps"; "app"; "txids"; "tx0000000002"], "1020") ])
        {[ ["appscale"; "apps"; "app"; "txids"] := 3%N ]}
        0 [] [] 1040.


(** The name-space without the node [p] and the nodes below it. *)
Definition without_subtree (p : list string)
    (m : gmap (list string) string) : gmap (list string) string :=
  filter (fun kv => ¬ p `prefix_of` kv.1) m.

(** The nodes below [p] form a tree of height [d] at most: every node but
    [p] has its parent, no name contains a slash, and no node lies more
    than [d] levels below [p]. *)
Record subtree_ok (m : gmap (list string) string) (p : list string)
    (d : nat) : Prop := {
  st_closed : ∀ q c, is_Some (m !! (p ++ q ++ [c])) → is_Some (m !! (p ++ q));
  st_names : ∀ q c, is_Some (m !! (p ++ q ++ [c])) → has_char "/" c = false;
  st_depth : ∀ q, is_Some (m !! (p ++ q)) → (length q ≤ d)%nat
}.

(*PROPERTIES*)
(** * Properties *)

(** ** One step of the executor and of the loops *)

Module Steps.

Lemma retry_loop_S {A} n (body : M (ctl A)) (exhausted : M A) :
  retry_loop (S n) body exhausted
  = (c <- body ;;
     match c with
     | Return a => ret a
     | Next => retry_loop n body exhausted
     end).
Proof. reflexivity. Qed.

Lemma call_fault f args r e w fs :
  decode f args = Some r →
  faults w = Some e :: fs →
  call f args w = (Raise e, set_faults fs (add_log (Req f args) w)).
Proof. intros Hd Hf. unfold call. rewrite Hd. cbn. by rewrite Hf. Qed.

Lemma call_clean f args r w :
  decode f args = Some r →
  faults w = [] →
  call f args w = perform r (add_log (Req f args) w).
Proof. intros Hd Hf. unfold call. rewrite Hd. cbn. by rewrite Hf. Qed.

Definition passes_through (e : exn) : Prop :=
  e = NoNodeError ∨ e = NodeExistsError ∨ e = DataInconsistency
  ∨ e = BadArgumentsError ∨ e = SystemZookeeperError.

Lemma run_ok n t f args w v w' :
  call f args w = (Ok v, w') →
  run_with_timeout_from (S n) t f args w = (Ok v, w').
Proof. intros H. cbn [run_with_timeout_from]. unfold try_except. by rewrite H. Qed.

Lemma run_hands_on n t f args w e w' :
  passes_through e →
  call f args w = (Raise e, w') →
  run_with_timeout_from (S n) t f args w = (Raise e, w').
Proof.
  intros He H. cbn [run_with_timeout_from]. unfold try_except. rewrite H.
  by destruct He as [-> | [-> | [-> | [-> | ->]]]].
Qed.

Lemma zk_unfold f args : zk f args = run_with_timeout_from 5 3 f args.
Proof. reflexivity. Qed.

Lemma zk_hands_on e f args r w fs :
  passes_through e →
  decode f args = Some r →
  faults w = Some e :: fs →
  zk f args w = (Raise e, set_faults fs (add_log (Req f args) w)).
Proof.
  intros He Hd Hf. rewrite zk_unfold.
  apply run_hands_on; [done|]. by eapply call_fault.
Qed.

End Steps.

(** ** The executor on transient errors *)

Module Executor.

Lemma decode_no_args f : decode f [] = None.
Proof. by destruct f. Qed.

(** Without arguments no client method can be called: every attempt ends in
    a [TypeError], which the executor counts as a retry. *)
Lemma run_without_args n t f w :
  run_with_timeout_from n t f [] w
  = (Raise (failed_to_run f ", no more retries"), w).
Proof.
  induction n as [|n IH]; [done|].
  cbn [run_with_timeout_from]. unfold try_except, call.
  rewrite decode_no_args. exact IH.
Qed.

(** After connection loss, a closed connection or an expired session the
    executor reconnects and runs the same call with one retry less. *)
Lemma retry_same_args e n t f args r w fs :
  e = ConnectionLoss ∨ e = ConnectionClosedError ∨ e = SessionExpiredError →
  decode f args = Some r →
  faults w = Some e :: fs →
  run_with_timeout_from (S n) t f args w
  = (reestablish_connection ;; run_with_timeout_from n t f args)
      (set_faults fs (add_log (Req f args) w)).
Proof.
  intros He Hd Hf. cbn [run_with_timeout_from]. unfold try_except, call.
  rewrite Hd. cbn. rewrite Hf.
  destruct He as [-> | [-> | ->]]; reflexivity.
Qed.

(** After an operation timeout it reconnects as well, but the call it then
    runs has lost its arguments. *)
Lemma retry_operation_timeout n t f args r w fs :
  decode f args = Some r →
  faults w = Some OperationTimeoutError :: fs →
  run_with_timeout_from (S n) t f args w
  = (reestablish_connection ;; run_with_timeout_from n t f [])
      (set_faults fs (add_log (Req f args) w)).
Proof.
  intros Hd Hf. cbn [run_with_timeout_from]. unfold try_except, call.
  rewrite Hd. cbn. by rewrite Hf.
Qed.

(** C3 (evaluated at the failing input).  One connection loss costs one
    retry and the read of [/a] then answers; one operation timeout makes the
    same read fail for good: the only request that reaches the client is the
    first one, no request with the same arguments follows the reconnect. *)
Theorem operation_timeout_loses_the_arguments :
  (let (r, w) := run_with_timeout 3 5 Get [PStr "/a"] (one_node ConnectionLoss) in
   r = Ok (PStr "v")
   ∧ history w = [Req Get [PStr "/a"]; Reconnect; Req Get [PStr "/a"]])
  ∧
  (let (r, w) :=
     run_with_timeout 3 5 Get [PStr "/a"] (one_node OperationTimeoutError) in
   r = Raise (ZKTransactionException "Failed to run get, no more retries")
   ∧ history w = [Req Get [PStr "/a"]; Reconnect]
   ∧ session w = 1%nat).
Proof.
  split.
  - vm_compute. done.
  - unfold run_with_timeout. change (Z.to_nat 5) with 5%nat.
    erewrite retry_operation_timeout by reflexivity.
    unfold bind, reestablish_connection. rewrite run_without_args.
    vm_compute. done.
Qed.

End Executor.

(** ** Creation of the XG marker *)

Module XgMarker.
Import Steps.

(** [create_node] has a [finally] clause but no [except] clause: an error
    that the executor hands on leaves [create_node] as it is, after the one
    attempt that met it. *)
Lemma create_node_hands_on e path value w fs :
  passes_through e →
  faults w = Some e :: fs →
  create_node path value w
  = (Raise e,
     set_faults fs
       (add_log (Req Create [PStr path; PStr value; ZOO_ACL_OPEN;
                             PBool false; PBool false; PBool true]) w)).
Proof.
  intros He Hf. unfold create_node.
  change (Z.to_nat DEFAULT_NUM_RETRIES) with 5%nat.
  rewrite retry_loop_S. unfold bind at 1 2.
  by erewrite zk_hands_on by (done || reflexivity).
Qed.

(** C8 (evaluated at the failing input).  The transaction node is created,
    every creation of its [xg] child fails with a fatal service error:
    [get_transaction_id] makes one attempt and the service error itself
    comes out, not a transaction exception. *)
Theorem xg_marker_error_escapes :
  let (r, w) := get_transaction_id "app" true xg_creation_fails in
  r = Raise SystemZookeeperError
  ∧ creations_of "/appscale/apps/app/txids/tx0000000001/xg" (history w)
    = [Req Create [PStr "/appscale/apps/app/txids/tx0000000001/xg";
                   PStr "1000"; PNone; PBool false; PBool false; PBool true]]
  ∧ faults w = replicate 9 (Some SystemZookeeperError).
Proof. vm_compute. done. Qed.

End XgMarker.

(** ** Removal of a failed transaction's nodes *)

Module Removal.

(** C4 (evaluated at the failing input).  The transaction has two children.
    [notify_failed_transaction] asks for the removal of the transaction node
    once per child, the first time while a child is still there; the claim
    has one removal of the parent, after all the children. *)
Theorem parent_removal_requested_per_child :
  let (r, w) := notify_failed_transaction "app" 1 tx_with_two_children in
  r = Ok (PBool true)
  ∧ deletions (history w)
    = [ "/appscale/apps/app/locks/k";
        "/appscale/apps/app/txids/tx0000000001/lockpath";
        "/appscale/apps/app/txids/tx0000000001";
        "/appscale/apps/app/txids/tx0000000001/ukey0000000000";
        "/appscale/apps/app/txids/tx0000000001" ]
  ∧ nodes w !! ["appscale"; "apps"; "app"; "txids"; "tx0000000001"] = None.
Proof. vm_compute. done. Qed.

End Removal.

(** ** Facts about the string primitives *)

Module PyStrFacts.

Lemma sapp_cons x (a b : string) : String x a +:+ b = String x (a +:+ b).
Proof. reflexivity. Qed.

Lemma sapp_nil_l (b : string) : "" +:+ b = b.
Proof. reflexivity. Qed.

Lemma sapp_assoc (a b c : string) : (a +:+ b) +:+ c = a +:+ (b +:+ c).
Proof.
  induction a as [|x a IH]; [done|]. rewrite !sapp_cons. by f_equal.
Qed.

Lemma sapp_empty_r (a : string) : a +:+ "" = a.
Proof. induction a as [|x a IH]; [done|]. rewrite sapp_cons. by f_equal. Qed.

Lemma has_char_app c (a b : string) :
  has_char c (a +:+ b) = has_char c a || has_char c b.
Proof.
  induction a as [|x a IH]; [done|]. rewrite sapp_cons. cbn [has_char].
  destruct (Ascii.eqb x c); [done|]. exact IH.
Qed.

Lemma sprefix_app (a b : string) : String.prefix a (a +:+ b) = true.
Proof.
  induction a as [|x a IH]; [by destruct b|]. rewrite sapp_cons. cbn.
  destruct (ascii_dec x x); [exact IH|done].
Qed.

Lemma prefix_other_head c0 (sep' : string) c (r : string) :
  c ≠ c0 → String.prefix (String c0 sep') (String c r) = false.
Proof. intros H. cbn. destruct (ascii_dec c0 c); [congruence|done]. Qed.

(** *** [split] *)

Lemma split_go_skip sep (u : string) cur (t : string) :
  split_go sep (String.length u) cur (u +:+ t) = split_go sep 0 cur t.
Proof.
  induction u as [|x u IH]; [done|].
  rewrite sapp_cons. cbn [String.length split_go]. exact IH.
Qed.

Lemma split_go_piece c0 sep' (a : string) cur (r : string) :
  has_char c0 a = false →
  split_go (String c0 sep') 0 cur (a +:+ String c0 sep' +:+ r)
  = (cur +:+ a) :: split_go (String c0 sep') 0 "" r.
Proof.
  revert cur. induction a as [|x a IH]; intros cur Ha.
  - rewrite sapp_empty_r, sapp_nil_l.
    pose proof (sprefix_app (String c0 sep') r) as Hp.
    rewrite sapp_cons in Hp |- *.
    cbn [split_go]. rewrite Hp.
    cbn [String.length]. rewrite Nat.sub_1_r. cbn [Nat.pred].
    by rewrite split_go_skip.
  - cbn in Ha. destruct (Ascii.eqb_spec x c0) as [|Hne]; [done|].
    rewrite sapp_cons. cbn [split_go]. rewrite prefix_other_head by done.
    rewrite IH by done. by rewrite sapp_assoc.
Qed.

Lemma split_go_last c0 sep' (a : string) cur :
  has_char c0 a = false →
  split_go (String c0 sep') 0 cur a = [cur +:+ a].
Proof.
  revert cur. induction a as [|x a IH]; intros cur Ha.
  - by rewrite sapp_empty_r.
  - cbn in Ha. destruct (Ascii.eqb_spec x c0) as [|Hne]; [done|].
    cbn [split_go]. rewrite prefix_other_head by done.
    rewrite IH by done. by rewrite sapp_assoc.
Qed.

Lemma split_piece c0 sep' (a r : string) :
  has_char c0 a = false →
  split (String c0 sep') (a +:+ String c0 sep' +:+ r)
  = a :: split (String c0 sep') r.
Proof. intros. unfold split. by rewrite split_go_piece. Qed.

Lemma split_last c0 sep' (a : string) :
  has_char c0 a = false → split (String c0 sep') a = [a].
Proof. intros. unfold split. by rewrite split_go_last. Qed.

(** [split] undoes [join] on pieces that are free of the separator's first
    character. *)
Lemma split_join c0 sep' (l : list string) :
  l ≠ [] →
  Forall (fun a => has_char c0 a = false) l →
  split (String c0 sep') (join (String c0 sep') l) = l.
Proof.
  induction l as [|a l IH]; [done|]. intros _ Hl.
  apply Forall_cons in Hl as [Ha Hl].
  destruct l as [|b l].
  - cbn [join]. by apply split_last.
  - change (join (String c0 sep') (a :: b :: l))
      with (a +:+ String c0 sep' +:+ join (String c0 sep') (b :: l)).
    rewrite split_piece by done. f_equal. by apply IH.
Qed.

Lemma join_snoc sep (l : list string) (a : string) :
  l ≠ [] → join sep (l ++ [a]) = join sep l +:+ sep +:+ a.
Proof.
  induction l as [|x l IH]; [done|]. intros _.
  destruct l as [|y l]; [done|].
  change (join sep ((x :: y :: l) ++ [a]))
    with (x +:+ sep +:+ join sep ((y :: l) ++ [a])).
  rewrite IH by done.
  change (join sep (x :: y :: l)) with (x +:+ sep +:+ join sep (y :: l)).
  by rewrite !sapp_assoc.
Qed.

End PyStrFacts.

Module PathFacts.
Import PyStrFacts.

(** *** One-character separators *)

Lemma split_go_char_app c0 (r t : string) cur :
  split_go (String c0 "") 0 cur (r +:+ String c0 "" +:+ t)
  = split_go (String c0 "") 0 cur r ++ split (String c0 "") t.
Proof.
  revert cur. induction r as [|x r IH]; intros cur.
  - rewrite sapp_nil_l, sapp_cons, sapp_nil_l. cbn [split_go].
    cbn. destruct (ascii_dec c0 c0); [|done]. by destruct t.
  - rewrite sapp_cons. cbn [split_go]. cbn [String.prefix].
    destruct (ascii_dec c0 x) as [->|Hne].
    + assert (String.prefix "" (r +:+ String x "" +:+ t) = true) as ->
        by (by destruct (r +:+ String x "" +:+ t)).
      assert (String.prefix "" r = true) as -> by (by destruct r).
      cbn [String.length Nat.sub]. rewrite IH. done.
    + apply IH.
Qed.

Lemma split_char_app c0 (r t : string) :
  split (String c0 "") (r +:+ String c0 "" +:+ t)
  = split (String c0 "") r ++ split (String c0 "") t.
Proof. apply split_go_char_app. Qed.

(** *** Characters of the generated strings *)

Definition plain (x : ascii) : Prop := x = "/"%char ∨ x = "!"%char.

Lemma quote_char_plain x c : plain x → has_char x (quote_char c) = false.
Proof.
  intros [-> | ->];
    destruct c as [[] [] [] [] [] [] [] []]; vm_compute; reflexivity.
Qed.

Lemma quote_plus_plain x (s : string) :
  plain x → has_char x (quote_plus s) = false.
Proof.
  intros Hx. induction s as [|c s IH]; [done|].
  change (quote_plus (String c s)) with (quote_char c +:+ quote_plus s).
  by rewrite has_char_app, quote_char_plain, IH.
Qed.

Lemma uint_string_plain x d :
  plain x → has_char x (NilEmpty.string_of_uint d) = false.
Proof.
  intros Hx. induction d; cbn [NilEmpty.string_of_uint has_char];
    [done|..]; rewrite IHd; by destruct Hx as [-> | ->].
Qed.

Lemma digits_plain x n : plain x → has_char x (digits n) = false.
Proof.
  intros Hx. unfold digits, NilZero.string_of_uint.
  destruct (N.to_uint n) eqn:E;
    try (rewrite <- E; by apply uint_string_plain).
  by destruct Hx as [-> | ->].
Qed.

Lemma zeros_plain x k : plain x → has_char x (zeros k) = false.
Proof.
  intros Hx. induction k as [|k IH]; [done|].
  cbn [zeros has_char]. rewrite IH. by destruct Hx as [-> | ->].
Qed.

Lemma fmt_010d_plain x z : plain x → has_char x (fmt_010d z) = false.
Proof.
  intros Hx. unfold fmt_010d, pad0. destruct (z <? 0).
  - cbn [has_char]. rewrite has_char_app, zeros_plain, digits_plain by done.
    by destruct Hx as [-> | ->].
  - by rewrite has_char_app, zeros_plain, digits_plain.
Qed.

Lemma str_int_plain x z : plain x → has_char x (str_int z) = false.
Proof.
  intros Hx. unfold str_int. destruct (z <? 0).
  - cbn [has_char]. rewrite digits_plain by done.
    by destruct Hx as [-> | ->].
  - by rewrite digits_plain.
Qed.

Lemma tx_name_plain x z :
  plain x → has_char x (APP_TX_PREFIX +:+ fmt_010d z) = false.
Proof.
  intros Hx. rewrite has_char_app, fmt_010d_plain by done.
  by destruct Hx as [-> | ->].
Qed.

End PathFacts.

Module Paths.
Import PyStrFacts PathFacts.

Definition no_slash (s : string) : Prop := has_char "/" s = false.

Lemma parse_path_join (s c : string) p :
  parse_path s = Some p → p ≠ [] →
  parse_path (s +:+ "/" +:+ c) = Some (p ++ split "/" c).
Proof.
  destruct s as [|x r]; [done|]. rewrite sapp_cons. unfold parse_path.
  destruct (Ascii.eqb_spec x "/") as [->|Hne].
  - destruct r as [|y r]; [by intros [= <-]|].
    intros [= <-] _. rewrite sapp_cons.
    rewrite <- sapp_cons. by rewrite split_char_app.
  - intros H. exfalso. revert H.
    destruct x as [[] [] [] [] [] [] [] []]; try done.
Qed.

Lemma parse_path_child (s c : string) p :
  parse_path s = Some p → p ≠ [] → no_slash c →
  parse_path (s +:+ "/" +:+ c) = Some (p ++ [c]).
Proof.
  intros Hs Hp Hc. rewrite (parse_path_join _ _ _ Hs Hp).
  by rewrite (split_last "/" "" c Hc).
Qed.

Lemma no_slash_quote (s : string) : no_slash (quote_plus s).
Proof. apply quote_plus_plain. by left. Qed.

Lemma no_slash_tx_name z : no_slash (Key.tx_name z).
Proof. apply tx_name_plain. by left. Qed.

Lemma no_slash_str_int z : no_slash (str_int z).
Proof. apply str_int_plain. by left. Qed.

Lemma join2 (a b : string) : join "/" [a; b] = a +:+ "/" +:+ b.
Proof. reflexivity. Qed.

Lemma join3 (a b c : string) :
  join "/" [a; b; c] = join "/" [join "/" [a; b]; c].
Proof. cbn [join]. by rewrite !sapp_assoc. Qed.

Lemma join4 (a b c d : string) :
  join "/" [a; b; c; d] = join "/" [join "/" [a; b; c]; d].
Proof. cbn [join]. by rewrite !sapp_assoc. Qed.

Lemma parse_join2 (s c : string) p :
  parse_path s = Some p → p ≠ [] → no_slash c →
  parse_path (join "/" [s; c]) = Some (p ++ [c]).
Proof. rewrite join2. apply parse_path_child. Qed.

Lemma parse_app_root app :
  parse_path (get_app_root_path app) = Some (Key.app_root app).
Proof.
  unfold get_app_root_path, PATH_SEPARATOR.
  by rewrite (parse_join2 APPS_PATH _ ["appscale"; "apps"])
    by (done || apply no_slash_quote).
Qed.

Lemma parse_tx_root app :
  parse_path (get_transaction_prefix_path app) = Some (Key.tx_root app).
Proof.
  unfold get_transaction_prefix_path, PATH_SEPARATOR.
  by rewrite (parse_join2 _ _ _ (parse_app_root app)).
Qed.

Lemma parse_tx app txid :
  parse_path (get_transaction_path app txid) = Some (Key.tx app txid).
Proof.
  unfold get_transaction_path, PATH_SEPARATOR. rewrite join3.
  rewrite (parse_join2 _ _ (Key.tx_root app));
    [done|apply parse_tx_root|done|apply no_slash_tx_name].
Qed.

Lemma parse_lock_list app txid :
  parse_path (get_transaction_lock_list_path app txid)
  = Some (Key.lock_list app txid).
Proof.
  unfold get_transaction_lock_list_path, PATH_SEPARATOR.
  by rewrite (parse_join2 _ _ _ (parse_tx app txid)).
Qed.

Lemma parse_xg app txid :
  parse_path (get_xg_path app txid) = Some (Key.xg app txid).
Proof.
  unfold get_xg_path, PATH_SEPARATOR. rewrite join4.
  by rewrite (parse_join2 _ _ _ (parse_tx app txid)).
Qed.

Lemma parse_blacklist app :
  parse_path (get_blacklist_root_path app) = Some (Key.blacklist app).
Proof.
  unfold get_blacklist_root_path, PATH_SEPARATOR.
  by rewrite (parse_join2 _ _ _ (parse_tx_root app)).
Qed.

Lemma parse_blacklisted app txid :
  parse_path (join PATH_SEPARATOR [get_blacklist_root_path app; str_int txid])
  = Some (Key.blacklisted app txid).
Proof.
  unfold PATH_SEPARATOR.
  by rewrite (parse_join2 _ _ _ (parse_blacklist app))
    by (done || apply no_slash_str_int).
Qed.

Lemma parse_validlist app :
  parse_path (get_valid_transaction_root_path app) = Some (Key.validlist app).
Proof.
  unfold get_valid_transaction_root_path, PATH_SEPARATOR.
  by rewrite (parse_join2 _ _ _ (parse_tx_root app)).
Qed.

Lemma parse_valid app key :
  parse_path (get_valid_transaction_path app key) = Some (Key.valid app key).
Proof.
  unfold get_valid_transaction_path, PATH_SEPARATOR.
  by rewrite (parse_join2 _ _ _ (parse_validlist app))
    by (done || apply no_slash_quote).
Qed.

Lemma parse_lock_root app key :
  parse_path (get_lock_root_path app key) = Some (Key.lock_root app key).
Proof.
  unfold get_lock_root_path, PATH_SEPARATOR. rewrite join3.
  rewrite (parse_join2 _ _ (Key.app_root app ++ ["locks"]));
    [done| |done|apply no_slash_quote].
  by rewrite (parse_join2 _ _ _ (parse_app_root app)).
Qed.

End Paths.

(** ** Facts about the name-space *)

Module Tree.

Lemma child_name_spec (p k : list string) (c : string) :
  child_name p k = Some c ↔ k = p ++ [c].
Proof.
  revert k. induction p as [|a p IH]; intros k.
  - destruct k as [|b [|b' k]]; cbn; split; intros H; by simplify_eq.
  - destruct k as [|b k]; cbn; [split; intros H; by simplify_eq|].
    destruct (decide (a = b)) as [->|Hne].
    + rewrite IH. split; intros H; by simplify_eq.
    + split; intros H; by simplify_eq.
Qed.

Lemma elem_of_children (m : gmap (list string) string)
    (p : list string) (c : string) :
  c ∈ children m p ↔ is_Some (m !! (p ++ [c])).
Proof.
  unfold children. rewrite list_elem_of_omap. split.
  - intros [[k v] [Hin Hc]]. cbn in Hc.
    apply child_name_spec in Hc as ->.
    apply elem_of_map_to_list in Hin. by exists v.
  - intros [v Hv]. exists (p ++ [c], v). split.
    + by apply elem_of_map_to_list.
    + cbn. by apply child_name_spec.
Qed.

Lemma children_nil (m : gmap (list string) string) (p : list string) :
  children m p = [] ↔ ∀ c, m !! (p ++ [c]) = None.
Proof.
  split.
  - intros H c. apply eq_None_not_Some. rewrite <- elem_of_children, H.
    apply not_elem_of_nil.
  - intros H. destruct (children m p) as [|c l] eqn:E; [done|].
    assert (c ∈ children m p) as Hc by (rewrite E; left).
    apply elem_of_children in Hc as [v Hv]. by rewrite H in Hv.
Qed.

Lemma ensure_path_cons (pre : list string) (c : string) (rest : list string)
    (m : gmap (list string) string) :
  ensure_path pre (c :: rest) m
  = ensure_path (pre ++ [c]) rest
      (match m !! (pre ++ [c]) with
       | Some _ => m
       | None => <[pre ++ [c] := ""]> m
       end).
Proof. reflexivity. Qed.

(** [ensure_path] keeps what is there and adds nothing beyond the path. *)
Lemma ensure_path_keeps (pre rest : list string)
    (m : gmap (list string) string) (p : list string) (v : string) :
  m !! p = Some v → ensure_path pre rest m !! p = Some v.
Proof.
  revert pre m. induction rest as [|c rest IH]; intros pre m Hp; [done|].
  rewrite ensure_path_cons. apply IH.
  destruct (m !! (pre ++ [c])) eqn:E; [done|].
  rewrite lookup_insert_ne; [done|]. intros <-. congruence.
Qed.

Lemma ensure_path_other (pre rest : list string)
    (m : gmap (list string) string) (p : list string) :
  ¬ p `prefix_of` pre ++ rest →
  ensure_path pre rest m !! p = m !! p.
Proof.
  revert pre m. induction rest as [|c rest IH]; intros pre m Hp; [done|].
  rewrite ensure_path_cons.
  rewrite IH by (by rewrite <- (assoc_L (++))).
  destruct (m !! (pre ++ [c])) eqn:E; [done|].
  rewrite lookup_insert_ne; [done|]. intros <-. apply Hp.
  apply prefix_app, prefix_cons, prefix_nil.
Qed.

Lemma ensure_path_longer (rest : list string)
    (m : gmap (list string) string) (p : list string) :
  (length rest < length p)%nat → ensure_path [] rest m !! p = m !! p.
Proof.
  intros H. apply ensure_path_other. intros Hp%prefix_length.
  cbn in Hp. lia.
Qed.

Lemma ensure_path_is_Some (pre rest : list string)
    (m : gmap (list string) string) (p : list string) :
  is_Some (m !! p) → is_Some (ensure_path pre rest m !! p).
Proof. intros [v Hv]. exists v. by apply ensure_path_keeps. Qed.

End Tree.

(** ** Requests that meet no fault *)

Module Calls.
Import Steps.

Lemma bind_ok {A B} (m : M A) (k : A → M B) w a w' R :
  m w = (Ok a, w') → k a w' = R → bind m k w = R.
Proof. intros Hm Hk. unfold bind. by rewrite Hm. Qed.

Lemma bind_raise {A B} (m : M A) (k : A → M B) w e w' :
  m w = (Raise e, w') → bind m k w = (Raise e, w').
Proof. intros Hm. unfold bind. by rewrite Hm. Qed.

Lemma try_ok {A} (m : M A) (h : exn → M A) w a w' :
  m w = (Ok a, w') → try_except m h w = (Ok a, w').
Proof. intros Hm. unfold try_except. by rewrite Hm. Qed.

Lemma try_raise {A} (m : M A) (h : exn → M A) w e w' R :
  m w = (Raise e, w') → h e w' = R → try_except m h w = R.
Proof. intros Hm Hh. unfold try_except. by rewrite Hm. Qed.

Lemma zk_ok f args w v w' :
  call f args w = (Ok v, w') → zk f args w = (Ok v, w').
Proof. rewrite zk_unfold. apply run_ok. Qed.

Lemma zk_hand f args w e w' :
  passes_through e →
  call f args w = (Raise e, w') → zk f args w = (Raise e, w').
Proof. rewrite zk_unfold. apply run_hands_on. Qed.

Section clean.
Context (sq : gmap (list string) N) (se : nat) (t : Z).
Implicit Types (m : gmap (list string) string) (lg : list event).
Implicit Types (s v : string) (p : list string).

Local Abbreviation W m lg := (World m sq se [] lg t).

Lemma call_exists m lg s p :
parse_path s = Some p →
call Exists [PStr s] (W m lg)
= (Ok (PBool (bool_decide (is_Some (m !! p)))),
   W m (Req Exists [PStr s] :: lg)).
Proof.
intros Hp. rewrite (call_clean _ _ (RExists s)) by done.
cbn. unfold do_exists. by rewrite Hp.
Qed.

Lemma call_get m lg s p v :
parse_path s = Some p → m !! p = Some v →
call Get [PStr s] (W m lg)
= (Ok (PStr v), W m (Req Get [PStr s] :: lg)).
Proof.
intros Hp Hv. rewrite (call_clean _ _ (RGet s)) by done.
cbn. unfold do_get. rewrite Hp. cbn. by rewrite Hv.
Qed.

Lemma call_get_none m lg s p :
parse_path s = Some p → m !! p = None →
call Get [PStr s] (W m lg)
= (Raise NoNodeError, W m (Req Get [PStr s] :: lg)).
Proof.
intros Hp Hv. rewrite (call_clean _ _ (RGet s)) by done.
cbn. unfold do_get. rewrite Hp. cbn. by rewrite Hv.
Qed.

Lemma call_children m lg s p v :
parse_path s = Some p → m !! p = Some v →
call GetChildren [PStr s] (W m lg)
= (Ok (PList (children m p)), W m (Req GetChildren [PStr s] :: lg)).
Proof.
intros Hp Hv. rewrite (call_clean _ _ (RChildren s)) by done.
cbn. unfold do_children. rewrite Hp. cbn. by rewrite Hv.
Qed.

Lemma call_children_none m lg s p :
parse_path s = Some p → m !! p = None →
call GetChildren [PStr s] (W m lg)
= (Raise NoNodeError, W m (Req GetChildren [PStr s] :: lg)).
Proof.
intros Hp Hv. rewrite (call_clean _ _ (RChildren s)) by done.
cbn. unfold do_children. rewrite Hp. cbn. by rewrite Hv.
Qed.

Lemma call_create_new m lg s p v :
parse_path s = Some p →
ensure_path [] (removelast p) m !! p = None →
call Create (mk_args s v) (W m lg)
= (Ok (PStr s),
   W (<[p := v]> (ensure_path [] (removelast p) m))
     (Req Create (mk_args s v) :: lg)).
Proof.
intros Hp Hv.
rewrite (call_clean _ _ (RCreate s v false false true false)) by done.
cbn. unfold do_create. rewrite Hp. cbn.
rewrite andb_false_r. by rewrite Hv.
Qed.

Lemma call_create_exists m lg s p v v' :
parse_path s = Some p →
ensure_path [] (removelast p) m !! p = Some v' →
call Create (mk_args s v) (W m lg)
= (Raise NodeExistsError,
   W (ensure_path [] (removelast p) m) (Req Create (mk_args s v) :: lg)).
Proof.
intros Hp Hv.
rewrite (call_clean _ _ (RCreate s v false false true false)) by done.
cbn. unfold do_create. rewrite Hp. cbn.
rewrite andb_false_r. by rewrite Hv.
Qed.

Lemma call_create_async m lg s p v rest :
parse_path s = Some p →
rest = [] ∨ rest = [PBool false; PBool false] →
call CreateAsync (PStr s :: PStr v :: ZOO_ACL_OPEN :: rest) (W m lg)
= (Ok PAsync,
   W (after_create m p v)
     (Req CreateAsync (PStr s :: PStr v :: ZOO_ACL_OPEN :: rest) :: lg)).
Proof.
intros Hp Hr.
rewrite (call_clean _ _ (RCreate s v false false false true))
  by (by destruct Hr as [-> | ->]).
cbn. unfold async, do_create, after_create. rewrite Hp. cbn.
rewrite andb_true_r.
destruct (has_parent m p); cbn; [|done].
by destruct (m !! p).
Qed.

Lemma call_set_async m lg s p v :
parse_path s = Some p →
call SetAsync [PStr s; PStr v] (W m lg)
= (Ok PAsync, W (after_set m p v) (Req SetAsync [PStr s; PStr v] :: lg)).
Proof.
intros Hp. rewrite (call_clean _ _ (RSet s v true)) by done.
cbn. unfold async, do_set, after_set. rewrite Hp. cbn.
by destruct (m !! p).
Qed.

Lemma call_delete_async m lg s p :
parse_path s = Some p →
call DeleteAsync [PStr s] (W m lg)
= (Ok PAsync, W (after_delete m p) (Req DeleteAsync [PStr s] :: lg)).
Proof.
intros Hp. rewrite (call_clean _ _ (RDelete s true)) by done.
cbn. unfold async, do_delete, after_delete. rewrite Hp. cbn.
destruct (m !! p); [|done]. by destruct (children m p).
Qed.

Lemma call_delete_async_bad m lg s :
parse_path s = None →
call DeleteAsync [PStr s] (W m lg)
= (Ok PAsync, W m (Req DeleteAsync [PStr s] :: lg)).
Proof.
intros Hp. rewrite (call_clean _ _ (RDelete s true)) by done.
cbn. unfold async, do_delete. by rewrite Hp.
Qed.

End clean.

End Calls.

(** ** Blacklist lookups and transaction status *)

Module Status.
Import Steps Paths Tree Calls.

Section clean.
Context (sq : gmap (list string) N) (se : nat) (t : Z).
Implicit Types (m : gmap (list string) string) (lg : list event).
Implicit Types (app : string) (txid : Z) (p : list string).

Local Abbreviation W m lg := (World m sq se [] lg t).

Lemma with_blacklist_root_keeps app m p v :
m !! p = Some v → with_blacklist_root app m !! p = Some v.
Proof.
intros Hp. unfold with_blacklist_root.
destruct (m !! Key.blacklist app) eqn:E; [done|].
rewrite lookup_insert_ne by congruence. by apply ensure_path_keeps.
Qed.

Lemma with_blacklist_root_deep app m p :
(5 < length p)%nat → with_blacklist_root app m !! p = m !! p.
Proof.
intros Hp. unfold with_blacklist_root.
destruct (m !! Key.blacklist app) eqn:E; [done|].
rewrite lookup_insert_ne by (intros <-; cbn in Hp; lia).
apply ensure_path_longer. cbn. lia.
Qed.

Lemma with_blacklist_root_other app m p :
p ≠ Key.blacklist app → ¬ p `prefix_of` Key.tx_root app →
with_blacklist_root app m !! p = m !! p.
Proof.
intros Hp Hq. unfold with_blacklist_root.
destruct (m !! Key.blacklist app) eqn:E; [done|].
rewrite lookup_insert_ne by done. by apply ensure_path_other.
Qed.

Lemma with_blacklist_root_has app m :
is_Some (with_blacklist_root app m !! Key.blacklist app).
Proof.
unfold with_blacklist_root.
destruct (m !! Key.blacklist app) eqn:E; [by rewrite E|].
by rewrite lookup_insert_eq.
Qed.

Lemma is_blacklisted_clean app txid m lg :
is_blacklisted app txid (W m lg)
= (Ok (bool_decide (is_Some (m !! Key.blacklisted app txid))),
   W (with_blacklist_root app m) (blacklist_lookup app m ++ lg)).
Proof.
unfold is_blacklisted.
eapply bind_ok; [apply zk_ok, call_exists, parse_blacklist|]. cbn beta.
pose proof (with_blacklist_root_has app m) as [d Hd].
assert (bool_decide (str_int txid ∈ children (with_blacklist_root app m)
                                      (Key.blacklist app))
        = bool_decide (is_Some (m !! Key.blacklisted app txid))) as Hb.
{ apply bool_decide_ext. rewrite elem_of_children.
  change (Key.blacklist app ++ [str_int txid])
    with (Key.blacklisted app txid).
  by rewrite with_blacklist_root_deep by (cbn; lia). }
unfold with_blacklist_root, blacklist_lookup in *.
destruct (m !! Key.blacklist app) as [d'|] eqn:E.
- rewrite bool_decide_eq_true_2 by eauto. cbn.
  eapply try_ok. eapply bind_ok;
    [eapply zk_ok, call_children; [apply parse_blacklist|exact E]|].
  cbn. unfold bind, ret. cbn. by rewrite <- Hb.
- rewrite bool_decide_eq_false_2 by (by intros [? ?]). cbn.
  eapply bind_ok.
  { eapply bind_ok; [|reflexivity].
    eapply call_create_new; [apply parse_blacklist|].
    rewrite ensure_path_longer by (cbn; lia). exact E. }
  eapply try_ok. eapply bind_ok;
    [eapply zk_ok, call_children; [apply parse_blacklist|exact Hd]|].
  cbn. unfold bind, ret. cbn. by rewrite <- Hb.
Qed.

End clean.

End Status.

(** ** Releasing the locks of a transaction *)

Module Release.
Import Steps Paths Tree Calls Status.

Section clean.
Context (sq : gmap (list string) N) (se : nat) (t : Z).
Implicit Types (m : gmap (list string) string) (lg : list event).
Implicit Types (app : string) (txid : Z) (p : list string).

Local Abbreviation W m lg := (World m sq se [] lg t).

Lemma with_blacklist_root_twice app m :
with_blacklist_root app (with_blacklist_root app m)
= with_blacklist_root app m.
Proof.
destruct (with_blacklist_root_has app m) as [d Hd].
unfold with_blacklist_root at 1. by rewrite Hd.
Qed.

Lemma tx_not_blacklist app txid : Key.tx app txid ≠ Key.blacklist app.
Proof. by intros [= H]. Qed.

Lemma check_transaction_blacklisted app txid m lg :
is_Some (m !! Key.blacklisted app txid) →
check_transaction app txid (W m lg)
= (Raise (timed_out txid),
   W (with_blacklist_root app m) (blacklist_lookup app m ++ lg)).
Proof.
intros Hb. unfold check_transaction.
eapply bind_ok; [apply is_blacklisted_clean|].
by rewrite bool_decide_eq_true_2.
Qed.

Lemma check_transaction_missing app txid m lg :
m !! Key.blacklisted app txid = None →
m !! Key.tx app txid = None →
check_transaction app txid (W m lg)
= (Raise (not_valid txid),
   W (with_blacklist_root app m)
     (Req Exists [PStr (get_transaction_path app txid)]
      :: blacklist_lookup app m ++ lg)).
Proof.
intros Hb Ht. unfold check_transaction.
eapply bind_ok; [apply is_blacklisted_clean|].
rewrite bool_decide_eq_false_2 by (rewrite Hb; by intros [? ?]).
eapply bind_ok; [apply zk_ok, call_exists, parse_tx|].
rewrite with_blacklist_root_other, Ht;
  [|apply tx_not_blacklist|intros H%prefix_length; cbn in H; lia].
by rewrite bool_decide_eq_false_2 by (by intros [? ?]).
Qed.

Lemma check_transaction_live app txid m lg :
m !! Key.blacklisted app txid = None →
is_Some (m !! Key.tx app txid) →
check_transaction app txid (W m lg)
= (Ok true,
   W (with_blacklist_root app m)
     (Req Exists [PStr (get_transaction_path app txid)]
      :: blacklist_lookup app m ++ lg)).
Proof.
intros Hb [d Ht]. unfold check_transaction.
eapply bind_ok; [apply is_blacklisted_clean|].
rewrite bool_decide_eq_false_2 by (rewrite Hb; by intros [? ?]).
eapply bind_ok; [apply zk_ok, call_exists, parse_tx|].
rewrite (with_blacklist_root_keeps _ _ _ _ Ht).
by rewrite bool_decide_eq_true_2 by eauto.
Qed.

End clean.

Lemma deletions_app (a b : list event) :
  deletions (a ++ b) = deletions a ++ deletions b.
Proof. apply omap_app. Qed.

Lemma deletions_read f args (l : list event) :
  f ≠ Delete → f ≠ DeleteAsync →
  deletions (Req f args :: l) = deletions l.
Proof. by destruct f. Qed.

Lemma deletions_blacklist_lookup app m :
  deletions (blacklist_lookup app m) = [].
Proof. unfold blacklist_lookup. by destruct (m !! Key.blacklist app). Qed.

(** C10.  On a transaction whose node is there, which is not blacklisted and
    has no [lockpath] child, [release_lock] answers [True]; it makes no
    delete request, every node keeps its value, and below the transaction
    node nothing appears or disappears. *)
Theorem release_lock_without_lock_list app txid w :
  faults w = [] →
  is_Some (nodes w !! Key.tx app txid) →
  nodes w !! Key.blacklisted app txid = None →
  nodes w !! Key.lock_list app txid = None →
  ∃ w' new,
    release_lock app txid w = (Ok true, w')
    ∧ log w' = new ++ log w ∧ deletions new = []
    ∧ (∀ p v, nodes w !! p = Some v → nodes w' !! p = Some v)
    ∧ (∀ q, nodes w' !! (Key.tx app txid ++ q) = nodes w !! (Key.tx app txid ++ q)).
Proof.
  destruct w as [m sq se fl lg t]. cbn. intros -> Ht Hb Hl.
  eexists _, _. split; [|split; [|split; [|split]]].
  - unfold release_lock.
    eapply bind_ok; [by apply check_transaction_live|].
    eapply bind_ok.
    { eapply try_raise.
      - eapply bind_raise. apply zk_hand; [by left|].
        eapply call_get_none; [apply parse_lock_list|].
        rewrite with_blacklist_root_deep by (cbn; lia). exact Hl.
      - cbn beta iota. eapply bind_ok; [apply is_blacklisted_clean|].
        rewrite with_blacklist_root_deep by (cbn; lia).
        rewrite bool_decide_eq_false_2 by (rewrite Hb; by intros [? ?]).
        reflexivity. }
    reflexivity.
  - cbn [log]. rewrite !app_comm_cons, !(assoc_L (++)). reflexivity.
  - rewrite deletions_app, !deletions_blacklist_lookup.
    by rewrite !deletions_read, deletions_blacklist_lookup.
  - cbn [nodes]. intros p v Hp. rewrite with_blacklist_root_twice.
    by apply with_blacklist_root_keeps.
  - cbn [nodes]. intros q. rewrite with_blacklist_root_twice.
    destruct q as [|c q].
    + change (Key.tx app txid ++ []) with (Key.tx app txid).
      destruct Ht as [d Ht].
      by rewrite (with_blacklist_root_keeps _ _ _ _ Ht).
    + apply with_blacklist_root_deep. cbn. lia.
Qed.

Lemma release_lock_without_lock_list_witness :
  ∃ w' new,
    release_lock "app" 1 tx_without_locks = (Ok true, w')
    ∧ log w' = new ++ log tx_without_locks ∧ deletions new = []
    ∧ (∀ p v, nodes tx_without_locks !! p = Some v → nodes w' !! p = Some v)
    ∧ (∀ q, nodes w' !! (Key.tx "app" 1 ++ q)
            = nodes tx_without_locks !! (Key.tx "app" 1 ++ q)).
Proof.
  apply release_lock_without_lock_list;
    [reflexivity | vm_compute; eauto | reflexivity | reflexivity].
Defined.

End Release.

(** ** Acquiring locks *)

Module Locks.
Import PyStrFacts PathFacts Steps Paths Tree Calls Status Release.

Section clean.
Context (sq : gmap (list string) N) (se : nat) (t : Z).
Implicit Types (m : gmap (list string) string) (lg : list event).
Implicit Types (app key : string) (txid : Z) (p : list string).

Local Abbreviation W m lg := (World m sq se [] lg t).

Lemma is_in_transaction_clean app txid m lg :
m !! Key.blacklisted app txid = None →
is_in_transaction app txid (W m lg)
= (Ok (bool_decide (is_Some (m !! Key.lock_list app txid))),
   W (with_blacklist_root app m)
     (Req Exists [PStr (get_transaction_lock_list_path app txid)]
      :: blacklist_lookup app m ++ lg)).
Proof.
intros Hb. unfold is_in_transaction.
eapply bind_ok; [apply is_blacklisted_clean|].
rewrite bool_decide_eq_false_2 by (rewrite Hb; by intros [? ?]).
eapply bind_ok; [apply zk_ok, call_exists, parse_lock_list|].
rewrite with_blacklist_root_deep by (cbn; lia).
by destruct (bool_decide (is_Some (m !! Key.lock_list app txid))).
Qed.

Lemma is_xg_clean app txid m lg :
is_xg app txid (W m lg)
= (Ok (bool_decide (is_Some (m !! Key.xg app txid))),
   W m (Req Exists [PStr (get_xg_path app txid)] :: lg)).
Proof.
unfold is_xg. eapply try_ok.
eapply bind_ok; [apply call_exists, parse_xg|]. done.
Qed.

Lemma with_locks_dir_keeps app m p v :
m !! p = Some v → with_locks_dir app m !! p = Some v.
Proof. apply ensure_path_keeps. Qed.

Lemma with_locks_dir_deep app m p :
(4 < length p)%nat → with_locks_dir app m !! p = m !! p.
Proof. intros H. apply ensure_path_longer. cbn. lia. Qed.

Lemma lock_root_not_lock_list app key app' txid :
Key.lock_root app key ≠ Key.lock_list app' txid.
Proof. by intros [= ?]. Qed.

Lemma lock_root_not_xg app key app' txid :
Key.lock_root app key ≠ Key.xg app' txid.
Proof. by intros [= ?]. Qed.

(** The lock root is taken: the request fails after a look at the owner. *)
Lemma acquire_additional_lock_held app txid key create m lg owner :
m !! Key.lock_root app key = Some owner →
acquire_additional_lock app txid key create (W m lg)
= (Raise (already_held (get_lock_root_path app key)),
   W (with_locks_dir app m)
     (Req Get [PStr (get_lock_root_path app key)]
      :: Req Create (mk_args (get_lock_root_path app key)
                             (get_transaction_path app txid)) :: lg)).
Proof.
intros Ho. unfold acquire_additional_lock.
eapply bind_raise. eapply try_raise.
- apply zk_hand; [right; by left|].
  eapply call_create_exists; [apply parse_lock_root|].
  apply with_locks_dir_keeps, Ho.
- cbn beta iota. eapply bind_ok; [|reflexivity].
  eapply try_ok. eapply bind_ok; [|reflexivity].
  apply zk_ok. eapply call_get; [apply parse_lock_root|].
  apply with_locks_dir_keeps, Ho.
Qed.

(** The first lock of a transaction. *)
Lemma acquire_additional_lock_first app txid key m lg :
m !! Key.lock_root app key = None →
acquire_additional_lock app txid key true (W m lg)
= (Ok true,
   W (after_create
        (<[Key.lock_root app key := get_transaction_path app txid]>
           (with_locks_dir app m))
        (Key.lock_list app txid) (get_lock_root_path app key))
     (Req CreateAsync [PStr (get_transaction_lock_list_path app txid);
                       PStr (get_lock_root_path app key); ZOO_ACL_OPEN;
                       PBool false; PBool false]
      :: Req Create (mk_args (get_lock_root_path app key)
                             (get_transaction_path app txid)) :: lg)).
Proof.
intros Ho. unfold acquire_additional_lock.
eapply bind_ok.
{ eapply try_ok. apply zk_ok.
  eapply call_create_new; [apply parse_lock_root|].
  change (ensure_path [] (removelast (Key.lock_root app key)) m)
    with (with_locks_dir app m).
  by rewrite with_locks_dir_deep by (cbn; lia). }
cbn beta iota. eapply bind_ok; [|reflexivity].
apply zk_ok. eapply call_create_async; [apply parse_lock_list|by right].
Qed.

(** One more lock for a cross-group transaction. *)
Lemma acquire_additional_lock_more app txid key m lg v :
m !! Key.lock_root app key = None →
m !! Key.lock_list app txid = Some v →
(length (split LOCK_LIST_SEPARATOR v) < MAX_GROUPS_FOR_XG)%nat →
acquire_additional_lock app txid key false (W m lg)
= (Ok true,
   W (<[Key.lock_list app txid :=
          join LOCK_LIST_SEPARATOR
            (split LOCK_LIST_SEPARATOR v ++ [get_lock_root_path app key])]>
        (<[Key.lock_root app key := get_transaction_path app txid]>
           (with_locks_dir app m)))
     (Req SetAsync
        [PStr (get_transaction_lock_list_path app txid);
         PStr (join LOCK_LIST_SEPARATOR
                 (split LOCK_LIST_SEPARATOR v
                  ++ [get_lock_root_path app key]))]
      :: Req Get [PStr (get_transaction_lock_list_path app txid)]
      :: Req Create (mk_args (get_lock_root_path app key)
                             (get_transaction_path app txid)) :: lg)).
Proof.
intros Ho Hv Hn. unfold acquire_additional_lock.
assert (<[Key.lock_root app key := get_transaction_path app txid]>
          (with_locks_dir app m) !! Key.lock_list app txid = Some v) as Hv'.
{ rewrite lookup_insert_ne by apply lock_root_not_lock_list.
  by rewrite with_locks_dir_deep by (cbn; lia). }
eapply bind_ok.
{ eapply try_ok. apply zk_ok.
  eapply call_create_new; [apply parse_lock_root|].
  change (ensure_path [] (removelast (Key.lock_root app key)) m)
    with (with_locks_dir app m).
  by rewrite with_locks_dir_deep by (cbn; lia). }
cbn beta iota.
change (ensure_path [] (removelast (Key.lock_root app key)) m)
  with (with_locks_dir app m).
eapply bind_ok;
  [apply zk_ok; eapply call_get; [apply parse_lock_list|exact Hv']|].
cbn beta iota. unfold get_str. eapply bind_ok; [reflexivity|].
cbn zeta. apply Nat.leb_gt in Hn. rewrite Hn.
eapply bind_ok; [|reflexivity].
apply zk_ok. cbn [py_str].
erewrite call_set_async by apply parse_lock_list.
unfold after_set. by rewrite Hv'.
Qed.

(** A cross-group transaction that already has its five groups. *)
Lemma acquire_additional_lock_full app txid key m lg v :
m !! Key.lock_root app key = None →
m !! Key.lock_list app txid = Some v →
(MAX_GROUPS_FOR_XG ≤ length (split LOCK_LIST_SEPARATOR v))%nat →
acquire_additional_lock app txid key false (W m lg)
= (Raise too_many_groups,
   W (<[Key.lock_root app key := get_transaction_path app txid]>
        (with_locks_dir app m))
     (Req Get [PStr (get_transaction_lock_list_path app txid)]
      :: Req Create (mk_args (get_lock_root_path app key)
                             (get_transaction_path app txid)) :: lg)).
Proof.
intros Ho Hv Hn. unfold acquire_additional_lock.
assert (<[Key.lock_root app key := get_transaction_path app txid]>
          (with_locks_dir app m) !! Key.lock_list app txid = Some v) as Hv'.
{ rewrite lookup_insert_ne by apply lock_root_not_lock_list.
  by rewrite with_locks_dir_deep by (cbn; lia). }
eapply bind_ok.
{ eapply try_ok. apply zk_ok.
  eapply call_create_new; [apply parse_lock_root|].
  change (ensure_path [] (removelast (Key.lock_root app key)) m)
    with (with_locks_dir app m).
  by rewrite with_locks_dir_deep by (cbn; lia). }
cbn beta iota.
change (ensure_path [] (removelast (Key.lock_root app key)) m)
  with (with_locks_dir app m).
eapply bind_ok;
  [apply zk_ok; eapply call_get; [apply parse_lock_list|exact Hv']|].
cbn beta iota. unfold get_str. eapply bind_ok; [reflexivity|].
cbn zeta. apply Nat.leb_le in Hn. by rewrite Hn.
Qed.

Lemma is_in_transaction_blacklisted app txid m lg :
is_Some (m !! Key.blacklisted app txid) →
∃ e, is_in_transaction app txid (W m lg)
     = (Raise e, W (with_blacklist_root app m) (blacklist_lookup app m ++ lg)).
Proof.
intros Hb. eexists. unfold is_in_transaction.
eapply bind_ok; [apply is_blacklisted_clean|].
by rewrite bool_decide_eq_true_2.
Qed.

Lemma lock_root_not_blacklist app key app' :
Key.lock_root app key ≠ Key.blacklist app'.
Proof. by intros [= ?]. Qed.

Lemma with_blacklist_root_lock_root app app' key m :
with_blacklist_root app' m !! Key.lock_root app key
= m !! Key.lock_root app key.
Proof.
apply with_blacklist_root_other; [apply lock_root_not_blacklist|].
intros H%prefix_length. cbn in H. lia.
Qed.

Lemma acquire_lock_blacklisted app txid key m lg :
is_Some (m !! Key.blacklisted app txid) →
∃ e, acquire_lock app txid key (W m lg)
     = (Raise e, W (with_blacklist_root app m) (blacklist_lookup app m ++ lg)).
Proof.
intros Hb. destruct (is_in_transaction_blacklisted app txid m lg Hb) as [e He].
exists e. unfold acquire_lock. by eapply bind_raise.
Qed.

Lemma acquire_lock_fresh app txid key m lg :
m !! Key.blacklisted app txid = None →
m !! Key.lock_list app txid = None →
acquire_lock app txid key (W m lg)
= acquire_additional_lock app txid key true
    (W (with_blacklist_root app m) (not_in_transaction_log app txid m lg)).
Proof.
intros Hb Hl. unfold acquire_lock.
eapply bind_ok; [by apply is_in_transaction_clean|].
by rewrite bool_decide_eq_false_2 by (rewrite Hl; by intros [? ?]).
Qed.

Lemma acquire_lock_again app txid key m lg v :
m !! Key.blacklisted app txid = None →
m !! Key.lock_list app txid = Some v →
get_lock_root_path app key ∈ split LOCK_LIST_SEPARATOR v →
acquire_lock app txid key (W m lg)
= (Ok true,
   W (with_blacklist_root app m)
     (Req Get [PStr (get_transaction_lock_list_path app txid)]
      :: not_in_transaction_log app txid m lg)).
Proof.
intros Hb Hl Hin. unfold acquire_lock.
eapply bind_ok; [by apply is_in_transaction_clean|].
rewrite bool_decide_eq_true_2 by eauto.
eapply bind_ok.
{ apply zk_ok. eapply call_get; [apply parse_lock_list|].
  rewrite with_blacklist_root_deep by (cbn; lia). exact Hl. }
cbn. by rewrite bool_decide_eq_true_2.
Qed.

Lemma acquire_lock_other_root app txid key m lg v :
m !! Key.blacklisted app txid = None →
m !! Key.lock_list app txid = Some v →
get_lock_root_path app key ∉ split LOCK_LIST_SEPARATOR v →
m !! Key.xg app txid = None →
acquire_lock app txid key (W m lg)
= (Raise different_root,
   W (with_blacklist_root app m) (xg_check_log app txid m lg)).
Proof.
intros Hb Hl Hin Hx. unfold acquire_lock.
eapply bind_ok; [by apply is_in_transaction_clean|].
rewrite bool_decide_eq_true_2 by eauto.
eapply bind_ok.
{ apply zk_ok. eapply call_get; [apply parse_lock_list|].
  rewrite with_blacklist_root_deep by (cbn; lia). exact Hl. }
cbn. rewrite bool_decide_eq_false_2 by done.
eapply bind_ok; [apply is_xg_clean|].
rewrite with_blacklist_root_deep by (cbn; lia).
by rewrite bool_decide_eq_false_2 by (rewrite Hx; by intros [? ?]).
Qed.

Lemma acquire_lock_xg app txid key m lg v :
m !! Key.blacklisted app txid = None →
m !! Key.lock_list app txid = Some v →
get_lock_root_path app key ∉ split LOCK_LIST_SEPARATOR v →
is_Some (m !! Key.xg app txid) →
acquire_lock app txid key (W m lg)
= acquire_additional_lock app txid key false
    (W (with_blacklist_root app m) (xg_check_log app txid m lg)).
Proof.
intros Hb Hl Hin Hx. unfold acquire_lock.
eapply bind_ok; [by apply is_in_transaction_clean|].
rewrite bool_decide_eq_true_2 by eauto.
eapply bind_ok.
{ apply zk_ok. eapply call_get; [apply parse_lock_list|].
  rewrite with_blacklist_root_deep by (cbn; lia). exact Hl. }
cbn. rewrite bool_decide_eq_false_2 by done.
eapply bind_ok; [apply is_xg_clean|].
rewrite with_blacklist_root_deep by (cbn; lia).
by rewrite bool_decide_eq_true_2.
Qed.

End clean.

Lemma lock_root_path_plain app key :
  separator_free (get_lock_root_path app key).
Proof.
  unfold separator_free, get_lock_root_path, get_app_root_path.
  cbn [join]. rewrite !has_char_app.
  by rewrite !quote_plus_plain by (by right).
Qed.

Lemma split_one_entry (s : string) :
  separator_free s → split LOCK_LIST_SEPARATOR s = [s].
Proof. apply (split_last "!" "XG_LIST!"). Qed.

Lemma split_more_entries (v s : string) :
  Forall separator_free (split LOCK_LIST_SEPARATOR v) →
  separator_free s →
  split LOCK_LIST_SEPARATOR
    (join LOCK_LIST_SEPARATOR (split LOCK_LIST_SEPARATOR v ++ [s]))
  = split LOCK_LIST_SEPARATOR v ++ [s].
Proof.
  intros Hv Hs. apply (split_join "!" "XG_LIST!").
  - by destruct (split LOCK_LIST_SEPARATOR v).
  - apply Forall_app. split; [done|]. by apply Forall_singleton.
Qed.

Lemma lock_list_not_xg app txid : Key.lock_list app txid ≠ Key.xg app txid.
Proof. by intros [= ?]. Qed.

(** C6.  A live transaction without the [xg] marker holds the lock of
    [k1]; the lock root of [k2] is not in its lock list.  Then
    [acquire_lock] for [k2] raises the different-root exception and takes
    no lock, and [acquire_lock] for [k1] answers [True] and leaves every
    node as it is. *)
Theorem non_xg_second_key app txid k1 k2 v w :
  faults w = [] →
  nodes w !! Key.blacklisted app txid = None →
  nodes w !! Key.lock_list app txid = Some v →
  nodes w !! Key.xg app txid = None →
  get_lock_root_path app k1 ∈ split LOCK_LIST_SEPARATOR v →
  get_lock_root_path app k2 ∉ split LOCK_LIST_SEPARATOR v →
  (∃ w', acquire_lock app txid k2 w = (Raise different_root, w')
         ∧ nodes w' !! Key.lock_list app txid = Some v
         ∧ nodes w' !! Key.lock_root app k2 = nodes w !! Key.lock_root app k2)
  ∧ (∃ w', acquire_lock app txid k1 w = (Ok true, w')
           ∧ nodes w' !! Key.lock_list app txid = Some v
           ∧ (∀ p x, nodes w !! p = Some x → nodes w' !! p = Some x)
           ∧ (∀ p, (5 < length p)%nat → nodes w' !! p = nodes w !! p)
           ∧ nodes w' !! Key.lock_root app k1 = nodes w !! Key.lock_root app k1).
Proof.
  destruct w as [m sq se fl lg t]. cbn. intros -> Hb Hl Hx H1 H2. split.
  - eexists. split; [by eapply acquire_lock_other_root|]. cbn [nodes]. split.
    + by rewrite with_blacklist_root_deep by (cbn; lia).
    + apply with_blacklist_root_lock_root.
  - eexists. split; [by eapply acquire_lock_again|]. cbn [nodes].
    split; [|split; [|split]].
    + by rewrite with_blacklist_root_deep by (cbn; lia).
    + intros p x. apply with_blacklist_root_keeps.
    + intros p. apply with_blacklist_root_deep.
    + apply with_blacklist_root_lock_root.
Qed.

Lemma non_xg_second_key_witness :
  (∃ w', acquire_lock "app" 1 "k2" one_lock_held = (Raise different_root, w')
         ∧ nodes w' !! Key.lock_list "app" 1 = Some "/appscale/apps/app/locks/k1"
         ∧ nodes w' !! Key.lock_root "app" "k2"
           = nodes one_lock_held !! Key.lock_root "app" "k2")
  ∧ (∃ w', acquire_lock "app" 1 "k1" one_lock_held = (Ok true, w')
           ∧ nodes w' !! Key.lock_list "app" 1 = Some "/appscale/apps/app/locks/k1"
           ∧ (∀ p x, nodes one_lock_held !! p = Some x → nodes w' !! p = Some x)
           ∧ (∀ p, (5 < length p)%nat → nodes w' !! p = nodes one_lock_held !! p)
           ∧ nodes w' !! Key.lock_root "app" "k1"
             = nodes one_lock_held !! Key.lock_root "app" "k1").
Proof.
  apply (non_xg_second_key "app" 1 "k1" "k2" "/appscale/apps/app/locks/k1");
    [reflexivity | reflexivity | reflexivity | reflexivity
    | vm_compute; left | vm_compute; by intros ?%list_elem_of_singleton].
Defined.

(** C7.  The lock root of [key] is there, with the path of its owner.  A
    second transaction, not blacklisted, either holds no lock yet or is a
    cross-group transaction without this lock.  Its [acquire_lock] raises
    the already-held exception; the last two requests are the failed
    [create] of the lock root and the read of its owner; the lock root
    keeps its value, and so does every other node. *)
Theorem second_transaction_is_refused app t2 key owner w :
  faults w = [] →
  nodes w !! Key.lock_root app key = Some owner →
  nodes w !! Key.blacklisted app t2 = None →
  (nodes w !! Key.lock_list app t2 = None
   ∨ (∃ v, nodes w !! Key.lock_list app t2 = Some v
           ∧ (get_lock_root_path app key ∉ split LOCK_LIST_SEPARATOR v)
           ∧ is_Some (nodes w !! Key.xg app t2))) →
  ∃ w' earlier,
    acquire_lock app t2 key w
    = (Raise (already_held (get_lock_root_path app key)), w')
    ∧ log w'
      = Req Get [PStr (get_lock_root_path app key)]
        :: Req Create (mk_args (get_lock_root_path app key)
                               (get_transaction_path app t2))
        :: earlier ++ log w
    ∧ nodes w' !! Key.lock_root app key = Some owner
    ∧ (∀ p x, nodes w !! p = Some x → nodes w' !! p = Some x).
Proof.
  destruct w as [m sq se fl lg t]. cbn. intros -> Ho Hb Hl.
  assert (with_blacklist_root app m !! Key.lock_root app key = Some owner)
    as Ho' by (by rewrite with_blacklist_root_lock_root).
  destruct Hl as [Hl | (v & Hl & Hin & Hx)].
  - eexists _, (Req Exists [PStr (get_transaction_lock_list_path app t2)]
                :: blacklist_lookup app m).
    split; [|split; [|split]].
    + rewrite acquire_lock_fresh by done.
      by eapply acquire_additional_lock_held.
    + reflexivity.
    + cbn [nodes]. by apply with_locks_dir_keeps.
    + cbn [nodes]. intros p x Hp.
      by apply with_locks_dir_keeps, with_blacklist_root_keeps.
  - eexists _, (Req Exists [PStr (get_xg_path app t2)]
                :: Req Get [PStr (get_transaction_lock_list_path app t2)]
                :: Req Exists [PStr (get_transaction_lock_list_path app t2)]
                :: blacklist_lookup app m).
    split; [|split; [|split]].
    + rewrite (acquire_lock_xg _ _ _ _ _ _ _ _ v) by done.
      by eapply acquire_additional_lock_held.
    + reflexivity.
    + cbn [nodes]. by apply with_locks_dir_keeps.
    + cbn [nodes]. intros p x Hp.
      by apply with_locks_dir_keeps, with_blacklist_root_keeps.
Qed.

Lemma second_transaction_is_refused_witness :
  ∃ w' earlier,
    acquire_lock "app" 2 "k1" one_lock_held
    = (Raise (already_held (get_lock_root_path "app" "k1")), w')
    ∧ log w'
      = Req Get [PStr (get_lock_root_path "app" "k1")]
        :: Req Create (mk_args (get_lock_root_path "app" "k1")
                               (get_transaction_path "app" 2))
        :: earlier ++ log one_lock_held
    ∧ nodes w' !! Key.lock_root "app" "k1"
      = Some "/appscale/apps/app/txids/tx0000000001"
    ∧ (∀ p x, nodes one_lock_held !! p = Some x → nodes w' !! p = Some x).
Proof.
  apply second_transaction_is_refused;
    [reflexivity | reflexivity | reflexivity | left; reflexivity].
Defined.

End Locks.

(** ** Percent-encoding and the layout of the paths *)

Module Layout.
Import PyStrFacts PathFacts Paths.

Lemma replace_plus_app (a b : string) :
  replace_plus (a +:+ b) = replace_plus a +:+ replace_plus b.
Proof.
  induction a as [|x a IH]; [done|].
  rewrite sapp_cons. cbn [replace_plus]. rewrite sapp_cons. by f_equal.
Qed.

Lemma unquote_quote_char c (r : string) :
  unquote (replace_plus (quote_char c) +:+ r) = String c (unquote r).
Proof. destruct c as [[] [] [] [] [] [] [] []]; reflexivity. Qed.

(** [unquote_plus] undoes [quote_plus]. *)
Lemma unquote_plus_quote_plus (s : string) : unquote_plus (quote_plus s) = s.
Proof.
  unfold unquote_plus. induction s as [|c s IH]; [done|].
  change (quote_plus (String c s)) with (quote_char c +:+ quote_plus s).
  rewrite replace_plus_app, unquote_quote_char. by f_equal.
Qed.

Lemma quote_plus_inj (a b : string) : quote_plus a = quote_plus b → a = b.
Proof.
  intros H. rewrite <- (unquote_plus_quote_plus a), <- (unquote_plus_quote_plus b).
  by rewrite H.
Qed.

(** X1.  Whatever characters the application id and the entity key contain,
    also [/], each of the paths built from them lies under
    [/appscale/apps] and holds them as one percent-encoded segment each. *)
Theorem builders_layout app txid key :
  parse_path (get_app_root_path app) = Some ["appscale"; "apps"; quote_plus app]
  ∧ parse_path (get_transaction_prefix_path app)
    = Some ["appscale"; "apps"; quote_plus app; "txids"]
  ∧ parse_path (get_transaction_path app txid)
    = Some ["appscale"; "apps"; quote_plus app; "txids";
            "tx" +:+ fmt_010d txid]
  ∧ parse_path (get_transaction_lock_list_path app txid)
    = Some ["appscale"; "apps"; quote_plus app; "txids";
            "tx" +:+ fmt_010d txid; "lockpath"]
  ∧ parse_path (get_xg_path app txid)
    = Some ["appscale"; "apps"; quote_plus app; "txids";
            "tx" +:+ fmt_010d txid; "xg"]
  ∧ parse_path (get_blacklist_root_path app)
    = Some ["appscale"; "apps"; quote_plus app; "txids"; "blacklist"]
  ∧ parse_path (get_valid_transaction_root_path app)
    = Some ["appscale"; "apps"; quote_plus app; "txids"; "validlist"]
  ∧ parse_path (get_valid_transaction_path app key)
    = Some ["appscale"; "apps"; quote_plus app; "txids"; "validlist";
            quote_plus key]
  ∧ parse_path (get_lock_root_path app key)
    = Some ["appscale"; "apps"; quote_plus app; "locks"; quote_plus key].
Proof.
  repeat split.
  - apply parse_app_root.
  - apply parse_tx_root.
  - apply parse_tx.
  - apply parse_lock_list.
  - apply parse_xg.
  - apply parse_blacklist.
  - apply parse_validlist.
  - apply parse_valid.
  - apply parse_lock_root.
Qed.

(** X2.  Two lock roots are the same path only for the same application
    and the same entity key, and no lock root is the path of a transaction
    node, of a lock list or of an [xg] marker. *)
Theorem lock_roots_do_not_collide app1 key1 app2 key2 txid :
  (get_lock_root_path app1 key1 = get_lock_root_path app2 key2 →
   app1 = app2 ∧ key1 = key2)
  ∧ get_lock_root_path app1 key1 ≠ get_transaction_path app2 txid
  ∧ get_lock_root_path app1 key1 ≠ get_transaction_lock_list_path app2 txid
  ∧ get_lock_root_path app1 key1 ≠ get_xg_path app2 txid.
Proof.
  split; [|split; [|split]].
  - intros H. apply (f_equal parse_path) in H.
    rewrite !parse_lock_root in H. injection H as Ha Hk.
    split; by apply quote_plus_inj.
  - intros H. apply (f_equal parse_path) in H.
    rewrite parse_lock_root, parse_tx in H. by injection H.
  - intros H. apply (f_equal parse_path) in H.
    rewrite parse_lock_root, parse_lock_list in H. by injection H.
  - intros H. apply (f_equal parse_path) in H.
    rewrite parse_lock_root, parse_xg in H. by injection H.
Qed.

Lemma lock_roots_do_not_collide_witness : "app" = "app" ∧ "a/b" = "a/b".
Proof.
  exact (proj1 (lock_roots_do_not_collide "app" "a/b" "app" "a/b" 1) eq_refl).
Defined.

End Layout.

(** ** Transaction status *)

Module StatusFacts.
Import PyStrFacts PathFacts Steps Paths Tree Calls Status Release Locks.

(** X3.  On a service without faults [is_blacklisted] answers whether the
    node [<blacklist root>/<txid>] exists.  It creates the blacklist root
    when that is missing, makes no delete request and keeps every node. *)
Theorem is_blacklisted_is_membership app txid w :
  faults w = [] →
  ∃ w' new,
    is_blacklisted app txid w
    = (Ok (bool_decide (is_Some (nodes w !! Key.blacklisted app txid))), w')
    ∧ is_Some (nodes w' !! Key.blacklist app)
    ∧ (∀ p v, nodes w !! p = Some v → nodes w' !! p = Some v)
    ∧ log w' = new ++ log w ∧ deletions new = [].
Proof.
  destruct w as [m sq se fl lg t]. cbn. intros ->.
  eexists _, _. split; [apply is_blacklisted_clean|]. cbn [nodes log].
  split; [apply with_blacklist_root_has|].
  split; [intros p v; apply with_blacklist_root_keeps|].
  split; [reflexivity|apply deletions_blacklist_lookup].
Qed.

Lemma is_blacklisted_is_membership_witness :
  ∃ w' new,
    is_blacklisted "app" 1 tx_without_locks
    = (Ok (bool_decide
             (is_Some (nodes tx_without_locks !! Key.blacklisted "app" 1))), w')
    ∧ is_Some (nodes w' !! Key.blacklist "app")
    ∧ (∀ p v, nodes tx_without_locks !! p = Some v → nodes w' !! p = Some v)
    ∧ log w' = new ++ log tx_without_locks ∧ deletions new = [].
Proof. apply is_blacklisted_is_membership. reflexivity. Defined.

(** X4.  [check_transaction] looks at the blacklist first: a blacklisted
    transaction gets the timed-out exception whether its node is there or
    not; one that is not blacklisted gets the not-valid exception when its
    node is missing, and [True] when it is there. *)
Theorem check_transaction_cases app txid w :
  faults w = [] →
  (is_Some (nodes w !! Key.blacklisted app txid) →
   ∃ w', check_transaction app txid w = (Raise (timed_out txid), w'))
  ∧ (nodes w !! Key.blacklisted app txid = None →
     nodes w !! Key.tx app txid = None →
     ∃ w', check_transaction app txid w = (Raise (not_valid txid), w'))
  ∧ (nodes w !! Key.blacklisted app txid = None →
     is_Some (nodes w !! Key.tx app txid) →
     ∃ w', check_transaction app txid w = (Ok true, w')).
Proof.
  destruct w as [m sq se fl lg t]. cbn. intros ->. repeat split.
  - intros Hb. eexists. by apply check_transaction_blacklisted.
  - intros Hb Ht. eexists. by apply check_transaction_missing.
  - intros Hb Ht. eexists. by apply check_transaction_live.
Qed.

Lemma check_transaction_cases_witness :
  ∃ w', check_transaction "app" 1 tx_without_locks = (Ok true, w').
Proof.
  apply (check_transaction_cases "app" 1 tx_without_locks eq_refl);
    [reflexivity | vm_compute; eauto].
Defined.

(** X5.  [is_in_transaction] on a transaction that is not blacklisted
    answers whether its [lockpath] node exists; on a blacklisted one it
    raises a transaction exception. *)
Theorem is_in_transaction_cases app txid w :
  faults w = [] →
  (nodes w !! Key.blacklisted app txid = None →
   ∃ w', is_in_transaction app txid w
         = (Ok (bool_decide (is_Some (nodes w !! Key.lock_list app txid))), w'))
  ∧ (is_Some (nodes w !! Key.blacklisted app txid) →
     ∃ w', is_in_transaction app txid w
           = (Raise (ZKTransactionException
                       ("[is_in_transaction]: Transaction " +:+ str_int txid
                        +:+ " timed out.")), w')).
Proof.
  destruct w as [m sq se fl lg t]. cbn. intros ->. split.
  - intros Hb. eexists. by apply is_in_transaction_clean.
  - intros Hb. eexists. unfold is_in_transaction.
    eapply bind_ok; [apply is_blacklisted_clean|].
    by rewrite bool_decide_eq_true_2.
Qed.

Lemma is_in_transaction_cases_witness :
  ∃ w', is_in_transaction "app" 1 one_lock_held
        = (Ok (bool_decide
                 (is_Some (nodes one_lock_held !! Key.lock_list "app" 1))), w').
Proof.
  apply (is_in_transaction_cases "app" 1 one_lock_held eq_refl). reflexivity.
Defined.

(** X6.  [release_lock] on a blacklisted transaction raises the timed-out
    exception, whether the transaction node is there or not; on a
    transaction that is not blacklisted and has no node, as after a first
    [release_lock], it raises the not-valid exception.  In both cases it
    makes no delete request. *)
Theorem release_lock_refused app txid w :
  faults w = [] →
  (is_Some (nodes w !! Key.blacklisted app txid) →
   ∃ w' new, release_lock app txid w = (Raise (timed_out txid), w')
             ∧ log w' = new ++ log w ∧ deletions new = [])
  ∧ (nodes w !! Key.blacklisted app txid = None →
     nodes w !! Key.tx app txid = None →
     ∃ w' new, release_lock app txid w = (Raise (not_valid txid), w')
               ∧ log w' = new ++ log w ∧ deletions new = []).
Proof.
  destruct w as [m sq se fl lg t]. cbn. intros ->. split.
  - intros Hb. eexists _, _. split; [|split].
    + unfold release_lock. eapply bind_raise.
      by apply check_transaction_blacklisted.
    + reflexivity.
    + apply deletions_blacklist_lookup.
  - intros Hb Ht.
    eexists _, (Req Exists [PStr (get_transaction_path app txid)]
                :: blacklist_lookup app m).
    split; [|split].
    + unfold release_lock. eapply bind_raise.
      by apply check_transaction_missing.
    + reflexivity.
    + rewrite deletions_read by done. apply deletions_blacklist_lookup.
Qed.

Lemma release_lock_refused_witness :
  ∃ w' new, release_lock "app" 7 tx_without_locks = (Raise (not_valid 7), w')
            ∧ log w' = new ++ log tx_without_locks ∧ deletions new = [].
Proof.
  apply (release_lock_refused "app" 7 tx_without_locks eq_refl); reflexivity.
Defined.

End StatusFacts.

(** ** Lock lists *)

Module LockFacts.
Import PyStrFacts PathFacts Steps Paths Tree Calls Status Release Locks.

Lemma lock_root_not_tx app key app' txid :
  Key.lock_root app key ≠ Key.tx app' txid.
Proof. by intros [= ?]. Qed.

Lemma tx_after_blacklist_lookup app txid m :
  with_blacklist_root app m !! Key.tx app txid = m !! Key.tx app txid.
Proof.
  apply with_blacklist_root_other; [apply tx_not_blacklist|].
  intros H%prefix_length. cbn in H. lia.
Qed.

Lemma has_parent_lock_list (m : gmap (list string) string) app txid :
  has_parent m (Key.lock_list app txid)
  = bool_decide (is_Some (m !! Key.tx app txid)).
Proof. reflexivity. Qed.

(** X7.  The first lock of a transaction.  The transaction is not
    blacklisted and has no lock list, and nobody holds the lock root of
    [key].  Then [acquire_lock] answers [True] and creates the lock root
    with the path of the transaction as value.  If the transaction node is
    there, the lock list is created with this lock root as its one entry; if
    it is not (the id was never issued, or the transaction is over) the lock
    root is created all the same and no lock list records it. *)
Theorem first_lock app txid key w :
  faults w = [] →
  nodes w !! Key.blacklisted app txid = None →
  nodes w !! Key.lock_list app txid = None →
  nodes w !! Key.lock_root app key = None →
  ∃ w', acquire_lock app txid key w = (Ok true, w')
        ∧ nodes w' !! Key.lock_root app key
          = Some (get_transaction_path app txid)
        ∧ (is_Some (nodes w !! Key.tx app txid) →
           nodes w' !! Key.lock_list app txid
           = Some (get_lock_root_path app key)
           ∧ split LOCK_LIST_SEPARATOR (get_lock_root_path app key)
             = [get_lock_root_path app key])
        ∧ (nodes w !! Key.tx app txid = None →
           nodes w' !! Key.lock_list app txid = None).
Proof.
  destruct w as [m sq se fl lg t]. cbn. intros -> Hb Hl Ho.
  eexists. split.
  { rewrite acquire_lock_fresh by done.
    apply acquire_additional_lock_first.
    by rewrite with_blacklist_root_lock_root. }
  cbn [nodes]. unfold after_create. rewrite has_parent_lock_list.
  set (m2 := <[Key.lock_root app key := get_transaction_path app txid]>
               (with_locks_dir app (with_blacklist_root app m))).
  assert (m2 !! Key.tx app txid = m !! Key.tx app txid) as H1.
  { unfold m2. rewrite lookup_insert_ne by apply lock_root_not_tx.
    rewrite with_locks_dir_deep by (cbn; lia).
    apply tx_after_blacklist_lookup. }
  assert (m2 !! Key.lock_list app txid = None) as H2.
  { unfold m2. rewrite lookup_insert_ne by apply lock_root_not_lock_list.
    rewrite with_locks_dir_deep by (cbn; lia).
    by rewrite with_blacklist_root_deep by (cbn; lia). }
  assert (m2 !! Key.lock_root app key = Some (get_transaction_path app txid))
    as H3 by apply lookup_insert_eq.
  rewrite H1, H2. split; [|split].
  - destruct (bool_decide (is_Some (m !! Key.tx app txid))); [|done].
    by rewrite lookup_insert_ne by (symmetry; apply lock_root_not_lock_list).
  - intros Ht. rewrite bool_decide_eq_true_2 by done.
    split; [by rewrite lookup_insert_eq|].
    apply split_one_entry, lock_root_path_plain.
  - intros Ht. by rewrite bool_decide_eq_false_2 by (rewrite Ht; by intros [? ?]).
Qed.

Lemma first_lock_witness :
  ∃ w', acquire_lock "app" 2 "k2" one_lock_held = (Ok true, w')
        ∧ nodes w' !! Key.lock_root "app" "k2"
          = Some (get_transaction_path "app" 2)
        ∧ (is_Some (nodes one_lock_held !! Key.tx "app" 2) →
           nodes w' !! Key.lock_list "app" 2
           = Some (get_lock_root_path "app" "k2")
           ∧ split LOCK_LIST_SEPARATOR (get_lock_root_path "app" "k2")
             = [get_lock_root_path "app" "k2"])
        ∧ (nodes one_lock_held !! Key.tx "app" 2 = None →
           nodes w' !! Key.lock_list "app" 2 = None).
Proof. apply first_lock; reflexivity. Defined.

(** X8.  One more lock for a live cross-group transaction whose lock list
    does not hold the lock root of [key] yet, the lock root being free.
    With fewer than five entries in the list the lock root is created and
    appended to the list.  With five entries or more [acquire_lock] raises
    the too-many-groups exception and the list stays as it is, but the lock
    root it has just created stays as well, owned by the transaction. *)
Theorem cross_group_lock app txid key v w :
  faults w = [] →
  nodes w !! Key.blacklisted app txid = None →
  nodes w !! Key.lock_list app txid = Some v →
  is_Some (nodes w !! Key.xg app txid) →
  get_lock_root_path app key ∉ split LOCK_LIST_SEPARATOR v →
  nodes w !! Key.lock_root app key = None →
  ((length (split LOCK_LIST_SEPARATOR v) < MAX_GROUPS_FOR_XG)%nat →
   ∃ w', acquire_lock app txid key w = (Ok true, w')
         ∧ nodes w' !! Key.lock_root app key
           = Some (get_transaction_path app txid)
         ∧ nodes w' !! Key.lock_list app txid
           = Some (join LOCK_LIST_SEPARATOR
                     (split LOCK_LIST_SEPARATOR v
                      ++ [get_lock_root_path app key])))
  ∧ ((MAX_GROUPS_FOR_XG ≤ length (split LOCK_LIST_SEPARATOR v))%nat →
     ∃ w', acquire_lock app txid key w = (Raise too_many_groups, w')
           ∧ nodes w' !! Key.lock_root app key
             = Some (get_transaction_path app txid)
           ∧ nodes w' !! Key.lock_list app txid = Some v).
Proof.
  destruct w as [m sq se fl lg t]. cbn. intros -> Hb Hl Hx Hin Ho.
  assert (with_blacklist_root app m !! Key.lock_root app key = None) as Ho'
    by (by rewrite with_blacklist_root_lock_root).
  assert (with_blacklist_root app m !! Key.lock_list app txid = Some v) as Hl'
    by (by rewrite with_blacklist_root_deep by (cbn; lia)).
  split; intros Hn; eexists; (split; [|split]).
  - rewrite (acquire_lock_xg _ _ _ _ _ _ _ _ v) by done.
    by eapply acquire_additional_lock_more.
  - cbn [nodes].
    rewrite lookup_insert_ne by (symmetry; apply lock_root_not_lock_list).
    apply lookup_insert_eq.
  - cbn [nodes]. apply lookup_insert_eq.
  - rewrite (acquire_lock_xg _ _ _ _ _ _ _ _ v) by done.
    by eapply acquire_additional_lock_full.
  - cbn [nodes]. apply lookup_insert_eq.
  - cbn [nodes]. rewrite lookup_insert_ne by apply lock_root_not_lock_list.
    by rewrite with_locks_dir_deep by (cbn; lia).
Qed.

Lemma cross_group_lock_witness :
  ∃ w', acquire_lock "app" 1 "k6" five_locks_held = (Raise too_many_groups, w')
        ∧ nodes w' !! Key.lock_root "app" "k6"
          = Some (get_transaction_path "app" 1)
        ∧ nodes w' !! Key.lock_list "app" 1
          = nodes five_locks_held !! Key.lock_list "app" 1.
Proof.
  refine (proj2 (cross_group_lock "app" 1 "k6" _ five_locks_held
                   eq_refl eq_refl eq_refl _ _ eq_refl) _).
  - vm_compute. eauto.
  - vm_compute. intros H. repeat (apply elem_of_cons in H as [H|H]; [done|]).
    by apply elem_of_nil in H.
  - vm_compute. lia.
Defined.

Lemma lock_list_ok_same w w' app txid :
  nodes w' !! Key.lock_list app txid = nodes w !! Key.lock_list app txid →
  nodes w' !! Key.xg app txid = nodes w !! Key.xg app txid →
  lock_list_ok w app txid → lock_list_ok w' app txid.
Proof. unfold lock_list_ok. intros -> ->. done. Qed.

Lemma lock_list_kept_by_lock_root (app : string) (txid : Z) (key x : string)
    (m : gmap (list string) string) :
  <[Key.lock_root app key := x]>
    (with_locks_dir app (with_blacklist_root app m)) !! Key.lock_list app txid
  = m !! Key.lock_list app txid.
Proof.
  rewrite lookup_insert_ne by apply lock_root_not_lock_list.
  rewrite with_locks_dir_deep by (cbn; lia).
  by rewrite with_blacklist_root_deep by (cbn; lia).
Qed.

Lemma xg_kept_by_lock_root (app : string) (txid : Z) (key x : string)
    (m : gmap (list string) string) :
  <[Key.lock_root app key := x]>
    (with_locks_dir app (with_blacklist_root app m)) !! Key.xg app txid
  = m !! Key.xg app txid.
Proof.
  rewrite lookup_insert_ne by apply lock_root_not_xg.
  rewrite with_locks_dir_deep by (cbn; lia).
  by rewrite with_blacklist_root_deep by (cbn; lia).
Qed.

(** X9.  [acquire_lock] keeps the bound on the lock list of its
    transaction: if the list has at most five entries, one when the
    transaction has no [xg] marker, and no entry contains the first
    character of the separator, then the same holds after the call,
    whatever the key and whatever the outcome. *)
Theorem acquire_lock_keeps_bound app txid key w r w' :
  faults w = [] →
  lock_list_ok w app txid →
  acquire_lock app txid key w = (r, w') →
  lock_list_ok w' app txid.
Proof.
  destruct w as [m sq se fl lg t]. cbn [faults]. intros -> Hok Hrun.
  destruct (m !! Key.blacklisted app txid) as [b|] eqn:Hb.
  { destruct (acquire_lock_blacklisted sq se t app txid key m lg) as [e He];
      [by rewrite Hb|].
    rewrite He in Hrun. injection Hrun as <- <-.
    apply (lock_list_ok_same (World m sq se [] lg t)); [..|done]; cbn [nodes];
      by rewrite with_blacklist_root_deep by (cbn; lia). }
  destruct (m !! Key.lock_root app key) as [o|] eqn:Ho.
  - (* the lock root is taken, or the lock is held already *)
    assert (with_blacklist_root app m !! Key.lock_root app key = Some o) as Ho'
      by (by rewrite with_blacklist_root_lock_root).
    destruct (m !! Key.lock_list app txid) as [v|] eqn:Hl.
    + destruct (decide (get_lock_root_path app key
                        ∈ split LOCK_LIST_SEPARATOR v)) as [Hin|Hin].
      { rewrite (acquire_lock_again _ _ _ _ _ _ _ _ v) in Hrun by done.
        injection Hrun as <- <-.
        apply (lock_list_ok_same (World m sq se [] lg t)); [..|done];
          cbn [nodes]; by rewrite with_blacklist_root_deep by (cbn; lia). }
      destruct (m !! Key.xg app txid) as [x|] eqn:Hx.
      * rewrite (acquire_lock_xg _ _ _ _ _ _ _ _ v) in Hrun
          by (done || by rewrite Hx).
        erewrite acquire_additional_lock_held in Hrun by done.
        injection Hrun as <- <-.
        apply (lock_list_ok_same (World m sq se [] lg t)); [..|done];
          cbn [nodes]; rewrite with_locks_dir_deep by (cbn; lia);
          by rewrite with_blacklist_root_deep by (cbn; lia).
      * rewrite (acquire_lock_other_root _ _ _ _ _ _ _ _ v) in Hrun by done.
        injection Hrun as <- <-.
        apply (lock_list_ok_same (World m sq se [] lg t)); [..|done];
          cbn [nodes]; by rewrite with_blacklist_root_deep by (cbn; lia).
    + rewrite acquire_lock_fresh in Hrun by done.
      erewrite acquire_additional_lock_held in Hrun by done.
      injection Hrun as <- <-.
      apply (lock_list_ok_same (World m sq se [] lg t)); [..|done];
        cbn [nodes]; rewrite with_locks_dir_deep by (cbn; lia);
        by rewrite with_blacklist_root_deep by (cbn; lia).
  - assert (with_blacklist_root app m !! Key.lock_root app key = None) as Ho'
      by (by rewrite with_blacklist_root_lock_root).
    destruct (m !! Key.lock_list app txid) as [v|] eqn:Hl.
    + assert (with_blacklist_root app m !! Key.lock_list app txid = Some v)
        as Hl' by (by rewrite with_blacklist_root_deep by (cbn; lia)).
      destruct (decide (get_lock_root_path app key
                        ∈ split LOCK_LIST_SEPARATOR v)) as [Hin|Hin].
      { rewrite (acquire_lock_again _ _ _ _ _ _ _ _ v) in Hrun by done.
        injection Hrun as <- <-.
        apply (lock_list_ok_same (World m sq se [] lg t)); [..|done];
          cbn [nodes]; by rewrite with_blacklist_root_deep by (cbn; lia). }
      destruct (m !! Key.xg app txid) as [x|] eqn:Hx.
      * rewrite (acquire_lock_xg _ _ _ _ _ _ _ _ v) in Hrun
          by (done || by rewrite Hx).
        destruct (Hok v) as (Hfree & Hlen & _); [done|].
        destruct (decide (length (split LOCK_LIST_SEPARATOR v)
                          < MAX_GROUPS_FOR_XG)%nat) as [Hn|Hn].
        -- erewrite acquire_additional_lock_more in Hrun by done.
           injection Hrun as <- <-. intros v' Hv'. cbn [nodes] in *.
           rewrite lookup_insert_eq in Hv'. injection Hv' as <-.
           rewrite split_more_entries
             by (done || apply lock_root_path_plain).
           split; [|split].
           ++ apply Forall_app. split; [done|].
              apply Forall_singleton, lock_root_path_plain.
           ++ rewrite length_app. unfold MAX_GROUPS_FOR_XG in *. cbn. lia.
           ++ rewrite lookup_insert_ne by apply lock_list_not_xg.
              by rewrite xg_kept_by_lock_root, Hx.
        -- erewrite acquire_additional_lock_full in Hrun
             by (done || (unfold MAX_GROUPS_FOR_XG in *; lia)).
           injection Hrun as <- <-.
           apply (lock_list_ok_same (World m sq se [] lg t)); [..|done];
             cbn [nodes];
             [apply lock_list_kept_by_lock_root|apply xg_kept_by_lock_root].
      * rewrite (acquire_lock_other_root _ _ _ _ _ _ _ _ v) in Hrun by done.
        injection Hrun as <- <-.
        apply (lock_list_ok_same (World m sq se [] lg t)); [..|done];
          cbn [nodes]; by rewrite with_blacklist_root_deep by (cbn; lia).
    + rewrite acquire_lock_fresh in Hrun by done.
      erewrite acquire_additional_lock_first in Hrun by done.
      injection Hrun as <- <-. intros v' Hv'. cbn [nodes] in *.
      unfold after_create in *. rewrite has_parent_lock_list in *.
      rewrite lock_list_kept_by_lock_root, Hl in *.
      destruct (bool_decide _).
      * rewrite lookup_insert_eq in Hv'. injection Hv' as <-.
        rewrite split_one_entry by apply lock_root_path_plain.
        split; [|split; [unfold MAX_GROUPS_FOR_XG; cbn; lia|done]].
        apply Forall_singleton, lock_root_path_plain.
      * by rewrite lock_list_kept_by_lock_root, Hl in Hv'.
Qed.

Lemma acquire_lock_keeps_bound_witness :
  lock_list_ok (acquire_lock "app" 1 "k6" five_locks_held).2 "app" 1.
Proof.
  apply (acquire_lock_keeps_bound "app" 1 "k6" five_locks_held
           (acquire_lock "app" 1 "k6" five_locks_held).1).
  - reflexivity.
  - intros v Hv. vm_compute in Hv. injection Hv as <-.
    split; [|split].
    + vm_compute. repeat constructor.
    + vm_compute. lia.
    + intros Hx. vm_compute in Hx. discriminate Hx.
  - by destruct (acquire_lock "app" 1 "k6" five_locks_held).
Defined.

End LockFacts.

(** ** Decimal round trips *)

Module Numbers.
Import PyStrFacts PathFacts.

Lemma to_uint_not_nil n : N.to_uint n ≠ Decimal.Nil.
Proof.
  intros E. assert (n = 0%N) as ->.
  { by rewrite <- (DecimalN.Unsigned.of_to n), E. }
  done.
Qed.

Lemma parse_digits_digits n : parse_digits (digits n) = Some n.
Proof.
  unfold parse_digits, digits. rewrite NilZero.usu by apply to_uint_not_nil.
  cbn. by rewrite DecimalN.Unsigned.of_to.
Qed.

Lemma digits_head n :
  ∃ c r, digits n = String c r ∧ is_digit c = true.
Proof.
  unfold digits. destruct (N.to_uint n) eqn:E.
  - by apply to_uint_not_nil in E.
  - cbn. eauto.
  - cbn. eauto.
  - cbn. eauto.
  - cbn. eauto.
  - cbn. eauto.
  - cbn. eauto.
  - cbn. eauto.
  - cbn. eauto.
  - cbn. eauto.
  - cbn. eauto.
Qed.

Lemma py_long_digit_head c r :
  is_digit c = true →
  py_long (String c r) = option_map Z.of_N (parse_digits (String c r)).
Proof.
  intros H. unfold py_long.
  destruct c as [[] [] [] [] [] [] [] []]; try done.
Qed.

(** [long(str(z)) == z] *)
Lemma py_long_str_int z : py_long (str_int z) = Some z.
Proof.
  unfold str_int. destruct (Z.ltb_spec z 0).
  - cbn. rewrite parse_digits_digits. cbn. f_equal. lia.
  - destruct (digits_head (Z.abs_N z)) as (c & r & E & Hc).
    rewrite E, py_long_digit_head by done. rewrite <- E, parse_digits_digits.
    cbn. f_equal. lia.
Qed.

End Numbers.

(** ** Node updates and valid versions *)

Module Updates.
Import PyStrFacts PathFacts Steps Paths Tree Calls Status.

Lemma call_set_there (m : gmap (list string) string) sq se lg t
    (s : string) (p : list string) (v old : string) :
  parse_path s = Some p → m !! p = Some old →
  call SetData [PStr s; PStr v] (World m sq se [] lg t)
  = (Ok PNone, World (<[p := v]> m) sq se []
                 (Req SetData [PStr s; PStr v] :: lg) t).
Proof.
  intros Hp Hv. rewrite (call_clean _ _ (RSet s v false)) by done.
  cbn. unfold do_set. rewrite Hp. cbn. by rewrite Hv.
Qed.

Lemma call_set_missing (m : gmap (list string) string) sq se lg t
    (s : string) (p : list string) (v : string) :
  parse_path s = Some p → m !! p = None →
  call SetData [PStr s; PStr v] (World m sq se [] lg t)
  = (Raise NoNodeError, World m sq se []
                 (Req SetData [PStr s; PStr v] :: lg) t).
Proof.
  intros Hp Hv. rewrite (call_clean _ _ (RSet s v false)) by done.
  cbn. unfold do_set. rewrite Hp. cbn. by rewrite Hv.
Qed.

Lemma length_removelast {A} (p : list A) :
  p ≠ [] → (length (removelast p) < length p)%nat.
Proof.
  intros Hp. destruct (exists_last Hp) as (q & a & ->).
  rewrite removelast_last, length_app. cbn. lia.
Qed.

Lemma ensure_parents_self (m : gmap (list string) string) (p : list string) :
  p ≠ [] → ensure_path [] (removelast p) m !! p = m !! p.
Proof. intros Hp. by apply ensure_path_longer, length_removelast. Qed.

(** X10.  [update_node] is an upsert.  On a service without faults it
    answers without an exception and leaves [value] at [path], whether the
    node was there or not; a node that was there before keeps its value if
    it is another one; if the node at [path] was there, nothing else
    changes. *)
Theorem update_node_upserts (path value : string) (p : list string) w :
  faults w = [] → parse_path path = Some p → p ≠ [] →
  ∃ w', update_node path value w = (Ok tt, w')
        ∧ nodes w' !! p = Some value
        ∧ (∀ q v, q ≠ p → nodes w !! q = Some v → nodes w' !! q = Some v)
        ∧ (is_Some (nodes w !! p) → nodes w' = <[p := value]> (nodes w)).
Proof.
  destruct w as [m sq se fl lg t]. cbn. intros -> Hp Hne.
  unfold update_node. destruct (m !! p) as [old|] eqn:E.
  - eexists. split.
    { eapply try_ok, bind_ok; [by eapply call_set_there|reflexivity]. }
    cbn [nodes]. split; [by rewrite lookup_insert_eq|].
    split; [|done]. intros q v Hq Hv. by rewrite lookup_insert_ne.
  - eexists. split.
    { eapply try_raise.
      - eapply bind_raise. by eapply call_set_missing.
      - cbn beta iota. eapply bind_ok; [|reflexivity].
        apply (call_create_new sq se t m _ path p value Hp).
        by rewrite ensure_parents_self. }
    cbn [nodes]. split; [by rewrite lookup_insert_eq|].
    split; [|by intros [? ?]]. intros q v Hq Hv.
    rewrite lookup_insert_ne by done. by apply ensure_path_keeps.
Qed.

Lemma update_node_upserts_witness :
  ∃ w', update_node "/appscale/apps/app/gclast_time" "1001" tx_without_locks
        = (Ok tt, w')
        ∧ nodes w' !! ["appscale"; "apps"; "app"; "gclast_time"] = Some "1001"
        ∧ (∀ q v, q ≠ ["appscale"; "apps"; "app"; "gclast_time"] →
             nodes tx_without_locks !! q = Some v → nodes w' !! q = Some v)
        ∧ (is_Some (nodes tx_without_locks
                    !! ["appscale"; "apps"; "app"; "gclast_time"]) →
           nodes w' = insert ["appscale"; "apps"; "app"; "gclast_time"] "1001"
                        (nodes tx_without_locks)).
Proof.
  apply (update_node_upserts "/appscale/apps/app/gclast_time" "1001"
           ["appscale"; "apps"; "app"; "gclast_time"] tx_without_locks);
    [reflexivity | reflexivity | discriminate].
Defined.

(** X11.  When the [set] of [update_node] runs into a service error other
    than [NoNodeError], [update_node] returns as if the write had been
    made: no exception, no second request, and the name-space is as it
    was. *)
Theorem update_node_drops_the_write (e : exn) fs (path value : string) w :
  faults w = Some e :: fs →
  is_zookeeper_error e = true → e ≠ NoNodeError →
  ∃ w', update_node path value w = (Ok tt, w')
        ∧ nodes w' = nodes w
        ∧ log w' = Req SetData [PStr path; PStr value] :: log w
        ∧ faults w' = fs.
Proof.
  intros Hf He Hn. eexists. split.
  { unfold update_node. eapply try_raise.
    - eapply bind_raise. by eapply (call_fault _ _ (RSet path value false)).
    - destruct e; try done. }
  done.
Qed.

Lemma update_node_drops_the_write_witness :
  ∃ w', update_node "/a" "new" (one_node ConnectionLoss) = (Ok tt, w')
        ∧ nodes w' = nodes (one_node ConnectionLoss)
        ∧ log w' = Req SetData [PStr "/a"; PStr "new"]
                   :: log (one_node ConnectionLoss)
        ∧ faults w' = [].
Proof.
  apply (update_node_drops_the_write ConnectionLoss []);
    [reflexivity | reflexivity | discriminate].
Defined.

Lemma valid_is_deep app key : (5 < length (Key.valid app key))%nat.
Proof. cbn. lia. Qed.

Lemma get_valid_live (app : string) (target : Z) (key : string)
    (m : gmap (list string) string) sq se lg t :
  m !! Key.blacklisted app target = None →
  get_valid_transaction_id app target key (World m sq se [] lg t)
  = (Ok target,
     World (with_blacklist_root app m) sq se [] (blacklist_lookup app m ++ lg) t).
Proof.
  intros Hb. unfold get_valid_transaction_id.
  eapply bind_ok; [apply is_blacklisted_clean|]. by rewrite Hb.
Qed.

Lemma get_valid_none (app : string) (target : Z) (key : string)
    (m : gmap (list string) string) sq se lg t :
  is_Some (m !! Key.blacklisted app target) →
  m !! Key.valid app key = None →
  get_valid_transaction_id app target key (World m sq se [] lg t)
  = (Ok 0,
     World (with_blacklist_root app m) sq se []
       (Req Get [PStr (get_valid_transaction_path app key)]
        :: blacklist_lookup app m ++ lg) t).
Proof.
  intros Hb Hv. unfold get_valid_transaction_id.
  eapply bind_ok; [apply is_blacklisted_clean|].
  rewrite bool_decide_eq_true_2 by done. cbn [negb].
  eapply try_raise.
  - eapply bind_raise, zk_hand; [by left|].
    eapply call_get_none; [apply parse_valid|].
    by rewrite with_blacklist_root_deep by apply valid_is_deep.
  - reflexivity.
Qed.

Lemma get_valid_stored (app : string) (target : Z) (key v : string)
    (m : gmap (list string) string) sq se lg t :
  is_Some (m !! Key.blacklisted app target) →
  m !! Key.valid app key = Some v →
  get_valid_transaction_id app target key (World m sq se [] lg t)
  = (match py_long v with Some z => Ok z | None => Raise ValueError end,
     World (with_blacklist_root app m) sq se []
       (Req Get [PStr (get_valid_transaction_path app key)]
        :: blacklist_lookup app m ++ lg) t).
Proof.
  intros Hb Hv. unfold get_valid_transaction_id.
  eapply bind_ok; [apply is_blacklisted_clean|].
  rewrite bool_decide_eq_true_2 by done. cbn [negb].
  destruct (py_long v) as [z|] eqn:Hz.
  - eapply try_ok, bind_ok.
    { eapply zk_ok, call_get; [apply parse_valid|].
      by rewrite with_blacklist_root_deep by apply valid_is_deep. }
    cbn. unfold bind, ret. cbn. by rewrite Hz.
  - eapply try_raise.
    + eapply bind_ok.
      { eapply zk_ok, call_get; [apply parse_valid|].
        by rewrite with_blacklist_root_deep by apply valid_is_deep. }
      cbn. unfold bind, ret. cbn. by rewrite Hz.
    + reflexivity.
Qed.



End Updates.

(** ** The journal of updated keys *)

Module Journal.
Import PyStrFacts PathFacts Steps Paths Tree Calls Status Layout Numbers Updates.

Lemma call_create_sequence (m : gmap (list string) string) sq se lg t
    (s c v : string) (q : list string) :
  parse_path s = Some (q ++ [c]) → q ≠ [] → is_Some (m !! q) →
  m !! (q ++ [c +:+ fmt_010d (Z.of_N (default 0%N (sq !! q)))]) = None →
  call CreateAsync [PStr s; PStr v; ZOO_ACL_OPEN; PBool false; PBool true]
    (World m sq se [] lg t)
  = (Ok PAsync,
     World (<[q ++ [c +:+ fmt_010d (Z.of_N (default 0%N (sq !! q)))] := v]> m)
           (<[q := N.succ (default 0%N (sq !! q))]> sq) se []
           (Req CreateAsync [PStr s; PStr v; ZOO_ACL_OPEN; PBool false;
                             PBool true] :: lg) t).
Proof.
  intros Hp Hq Hm Hn.
  rewrite (call_clean _ _ (RCreate s v false true false true)) by done.
  cbn. unfold async, do_create. rewrite Hp. cbn.
  rewrite removelast_last, last_last. unfold has_parent.
  rewrite removelast_last. unfold next_seq. cbn.
  destruct q as [|a q]; [done|].
  rewrite bool_decide_eq_true_2 by done. cbn in *. by rewrite Hn.
Qed.

Lemma parse_ukey app txid :
  parse_path (join PATH_SEPARATOR
                [get_transaction_path app txid; TX_UPDATEDKEY_PREFIX])
  = Some (Key.tx app txid ++ ["ukey"]).
Proof.
  unfold PATH_SEPARATOR.
  by rewrite (parse_join2 _ _ _ (parse_tx app txid)).
Qed.

Section clean.
Context (sq : gmap (list string) N) (se : nat) (t : Z).
Implicit Types (m : gmap (list string) string) (lg : list event).
Implicit Types (app key : string) (cur target txid : Z) (p : list string).

Local Abbreviation W m lg := (World m sq se [] lg t).

Lemma register_updated_key_known app cur target key m lg old :
m !! Key.valid app key = Some old →
register_updated_key app cur target key (W m lg)
= (Ok true,
   W (<[Key.valid app key := str_int target]> m)
     (Req SetAsync [PStr (get_valid_transaction_path app key);
                    PStr (str_int target)]
      :: Req Exists [PStr (get_valid_transaction_path app key)] :: lg)).
Proof.
intros Hv. unfold register_updated_key.
eapply bind_ok; [apply zk_ok, call_exists, parse_valid|]. cbn beta.
rewrite bool_decide_eq_true_2 by done. cbn [truthy].
eapply bind_ok; [|reflexivity].
eapply bind_ok; [apply zk_ok, call_set_async, parse_valid|].
unfold after_set. by rewrite Hv.
Qed.

Lemma register_updated_key_invalid app cur target key m lg :
m !! Key.valid app key = None → m !! Key.tx app cur = None →
register_updated_key app cur target key (W m lg)
= (Raise (not_valid cur),
   W m (Req Exists [PStr (get_transaction_path app cur)]
        :: Req Exists [PStr (get_valid_transaction_path app key)] :: lg)).
Proof.
intros Hv Ht. unfold register_updated_key.
eapply bind_ok; [apply zk_ok, call_exists, parse_valid|]. cbn beta.
rewrite bool_decide_eq_false_2 by (rewrite Hv; by intros [? ?]). cbn [truthy].
eapply bind_raise.
eapply bind_ok; [apply zk_ok, call_exists, parse_tx|]. cbn beta.
by rewrite bool_decide_eq_false_2 by (rewrite Ht; by intros [? ?]).
Qed.

End clean.

Lemma register_updated_key_new (app : string) (cur target : Z) (key : string)
    (m : gmap (list string) string) (sq : gmap (list string) N)
    (se : nat) (lg : list event) (t : Z) :
  let n := default 0%N (sq !! Key.tx app cur) in
  m !! Key.valid app key = None → is_Some (m !! Key.tx app cur) →
  m !! (Key.tx app cur ++ [ukey_name n]) = None →
  register_updated_key app cur target key (World m sq se [] lg t)
  = (Ok true,
     World (<[Key.tx app cur ++ [ukey_name n] := ukey_value key target]> m)
           (<[Key.tx app cur := N.succ n]> sq) se []
           (Req CreateAsync
              [PStr (join PATH_SEPARATOR
                       [get_transaction_path app cur; TX_UPDATEDKEY_PREFIX]);
               PStr (ukey_value key target); ZOO_ACL_OPEN;
               PBool false; PBool true]
            :: Req Exists [PStr (get_transaction_path app cur)]
            :: Req Exists [PStr (get_valid_transaction_path app key)] :: lg) t).
Proof.
  intros n Hv Ht Hn. unfold register_updated_key.
  eapply bind_ok; [apply zk_ok, call_exists, parse_valid|]. cbn beta.
  rewrite bool_decide_eq_false_2 by (rewrite Hv; by intros [? ?]).
  cbn [truthy negb].
  eapply bind_ok; [|reflexivity].
  eapply bind_ok; [apply zk_ok, call_exists, parse_tx|]. cbn beta.
  rewrite bool_decide_eq_true_2 by done. cbn [truthy].
  eapply bind_ok; [|reflexivity].
  apply zk_ok. by apply call_create_sequence; [apply parse_ukey| |..].
Qed.

Lemma omap_cons_Some {A B} (f : A → option B) (x : A) (y : B) (l : list A) :
  f x = Some y → omap f (x :: l) = y :: omap f l.
Proof. intros H. cbn. by rewrite H. Qed.

Lemma omap_cons_None {A B} (f : A → option B) (x : A) (l : list A) :
  f x = None → omap f (x :: l) = omap f l.
Proof. intros H. cbn. by rewrite H. Qed.

Lemma keylist_loop (app : string) (txid : Z) (m : gmap (list string) string)
    (sq : gmap (list string) N) (se : nat) (t : Z) (l : list string) :
  Forall no_slash l →
  (∀ c, c ∈ l → is_Some (m !! (Key.tx app txid ++ [c]))) →
  ∀ (acc : list string) (lg : list event), ∃ lg',
    for_fold l acc (fun keylist item =>
       if match_prefix TX_UPDATEDKEY_PREFIX item then
         v <- zk Get [PStr (join PATH_SEPARATOR
                              [get_transaction_path app txid; item])] ;;
         keyandtx <- get_str v ;;
         let key := unquote_plus (nth 0 (split PATH_SEPARATOR keyandtx) "") in
         ret (keylist ++ [key])
       else ret keylist) (World m sq se [] lg t)
    = (Ok (acc ++ omap (updated_key m (Key.tx app txid)) l),
       World m sq se [] lg' t).
Proof.
  induction l as [|c l IH]; intros Hs Hc acc lg.
  - exists lg. cbn. by rewrite app_nil_r.
  - apply Forall_cons in Hs as [Hs Hl].
    destruct (Hc c) as [v Hv]; [left|].
    cbn [for_fold].
    destruct (match_prefix TX_UPDATEDKEY_PREFIX c) eqn:E.
    + erewrite omap_cons_Some by (unfold updated_key; by rewrite E, Hv).
      edestruct (IH Hl) as [lg' Hlg']; [intros; apply Hc; by right|].
      exists lg'. eapply bind_ok.
      { eapply bind_ok.
        - eapply zk_ok, call_get; [|exact Hv].
          by apply parse_join2; [apply parse_tx| |].
        - reflexivity. }
      rewrite Hlg'. by rewrite <- (assoc_L (++)).
    + rewrite omap_cons_None by (unfold updated_key; by rewrite E).
      edestruct (IH Hl) as [lg' Hlg']; [intros; apply Hc; by right|].
      exists lg'. eapply bind_ok; [reflexivity|]. exact Hlg'.
Qed.

Lemma get_updated_key_list_clean (app : string) (txid : Z)
    (m : gmap (list string) string) (sq : gmap (list string) N) (se : nat)
    (t : Z) (lg : list event) :
  is_Some (m !! Key.tx app txid) →
  Forall no_slash (children m (Key.tx app txid)) →
  ∃ lg',
    get_updated_key_list app txid (World m sq se [] lg t)
    = (Ok (omap (updated_key m (Key.tx app txid)) (children m (Key.tx app txid))),
       World m sq se [] lg' t).
Proof.
  intros [v Hv] Hs.
  edestruct (keylist_loop app txid m sq se t _ Hs) as [lg' Hlg'].
  { intros c. by rewrite elem_of_children. }
  exists lg'. unfold get_updated_key_list. eapply try_ok.
  eapply bind_ok; [eapply zk_ok, call_children; [apply parse_tx|exact Hv]|].
  eapply bind_ok; [reflexivity|]. exact Hlg'.
Qed.

Lemma children_insert_new (m : gmap (list string) string)
    (p : list string) (c v : string) :
  m !! (p ++ [c]) = None →
  children (<[p ++ [c] := v]> m) p ≡ₚ c :: children m p.
Proof.
  intros H. unfold children. rewrite map_to_list_insert by done.
  erewrite omap_cons_Some; [done|]. cbn. by apply child_name_spec.
Qed.

Lemma omap_agree {A B} (f g : A → option B) (l : list A) :
  (∀ x, x ∈ l → f x = g x) → omap f l = omap g l.
Proof.
  induction l as [|x l IH]; intros H; [done|]. cbn.
  rewrite (H x) by left. rewrite IH; [done|]. intros y Hy. apply H. by right.
Qed.

Lemma ukey_name_plain n : no_slash (ukey_name n).
Proof.
  unfold no_slash, ukey_name.
  by rewrite has_char_app, fmt_010d_plain by (by left).
Qed.

Lemma updated_key_new (m : gmap (list string) string) (tx : list string)
    n (key : string) (target : Z) :
  updated_key (<[tx ++ [ukey_name n] := ukey_value key target]> m) tx
    (ukey_name n) = Some key.
Proof.
  unfold updated_key, ukey_name at 1, match_prefix.
  rewrite sprefix_app, lookup_insert_eq. cbn [option_map]. f_equal.
  unfold ukey_value, PATH_SEPARATOR. rewrite join2.
  rewrite split_piece by apply no_slash_quote. cbn [nth].
  apply unquote_plus_quote_plus.
Qed.

(** X13.  What [register_updated_key] writes, [get_updated_key_list] reads
    back.  The transaction exists and the entity key has no entry in the
    valid list; the service has no faults and the next sequence number of
    the transaction node is free.  Then the list of updated keys after the
    registration is the list before it with [key] added, up to the order
    in which the service lists the children. *)
Theorem registered_key_is_listed (app : string) (cur target : Z)
    (key : string) w :
  faults w = [] →
  nodes w !! Key.valid app key = None →
  is_Some (nodes w !! Key.tx app cur) →
  Forall no_slash (children (nodes w) (Key.tx app cur)) →
  nodes w !! (Key.tx app cur ++ [ukey_name (next_seq w (Key.tx app cur))])
  = None →
  ∃ l0 l1 w',
    (l0 <- get_updated_key_list app cur ;;
     register_updated_key app cur target key ;;
     l1 <- get_updated_key_list app cur ;;
     ret (l0, l1)) w = (Ok (l0, l1), w')
    ∧ l1 ≡ₚ l0 ++ [key].
Proof.
  destruct w as [m sq se fl lg t]. unfold next_seq. cbn.
  intros -> Hv Ht Hs Hn.
  set (tx := Key.tx app cur) in *.
  set (uk := ukey_name (default 0%N (sq !! tx))) in *.
  set (m' := <[tx ++ [uk] := ukey_value key target]> m).
  assert (children m' tx ≡ₚ uk :: children m tx) as Hc
    by (by apply children_insert_new).
  destruct (get_updated_key_list_clean app cur m sq se t lg Ht Hs)
    as [lg0 H0].
  edestruct (get_updated_key_list_clean app cur m'
               (<[tx := N.succ (default 0%N (sq !! tx))]> sq) se t)
    as [lg1 H1].
  { unfold m'. fold tx. destruct Ht as [x Hx]. exists x.
    rewrite lookup_insert_ne; [done|].
    intros E%(f_equal length). rewrite length_app in E. cbn in E. lia. }
  { fold tx. rewrite Hc. apply Forall_cons. split; [apply ukey_name_plain|done]. }
  eexists _, _, _. split.
  - eapply bind_ok; [exact H0|].
    eapply bind_ok; [by apply register_updated_key_new|].
    eapply bind_ok; [apply H1|]. reflexivity.
  - fold tx. rewrite Hc.
    erewrite omap_cons_Some by apply updated_key_new.
    rewrite <- Permutation_cons_append. apply Permutation_skip.
    erewrite omap_agree; [done|]. intros c Hc'.
    apply elem_of_children in Hc' as [x Hx].
    unfold updated_key, m'. rewrite lookup_insert_ne; [done|].
    intros E%app_inv_head. injection E as ->.
    assert (Some x = None) by (rewrite <- Hx; exact Hn). done.
Qed.

Lemma registered_key_is_listed_witness :
  ∃ l0 l1 w',
    (l0 <- get_updated_key_list "app" 2 ;;
     register_updated_key "app" 2 7 "a b/c" ;;
     l1 <- get_updated_key_list "app" 2 ;;
     ret (l0, l1)) failed_transaction = (Ok (l0, l1), w')
    ∧ l1 ≡ₚ l0 ++ ["a b/c"].
Proof.
  apply registered_key_is_listed;
    [reflexivity | reflexivity | vm_compute; eauto
    | vm_compute; constructor | reflexivity].
Defined.

Lemma valid_not_blacklisted app key txid :
  Key.valid app key ≠ Key.blacklisted app txid.
Proof. by intros [= ?]. Qed.

(** X14.  An entity key that has an entry in the valid list: whatever the
    current transaction is, [register_updated_key] overwrites the entry
    with the target version, and a [get_valid_transaction_id] that follows
    it for a blacklisted transaction answers that version. *)
Theorem registered_version_becomes_valid (app : string) (cur target txid : Z)
    (key : string) w :
  faults w = [] →
  is_Some (nodes w !! Key.valid app key) →
  is_Some (nodes w !! Key.blacklisted app txid) →
  ∃ w', (register_updated_key app cur target key ;;
         get_valid_transaction_id app txid key) w = (Ok target, w')
        ∧ nodes w' !! Key.valid app key = Some (str_int target).
Proof.
  destruct w as [m sq se fl lg t]. cbn. intros -> [old Hv] Hb.
  eexists. split.
  - eapply bind_ok; [by eapply register_updated_key_known|].
    erewrite get_valid_stored.
    + by rewrite py_long_str_int.
    + by rewrite lookup_insert_ne by apply valid_not_blacklisted.
    + by rewrite lookup_insert_eq.
  - cbn [nodes]. rewrite with_blacklist_root_deep by apply valid_is_deep.
    by rewrite lookup_insert_eq.
Qed.

Lemma registered_version_becomes_valid_witness :
  ∃ w', (register_updated_key "app" 5 4 "k1" ;;
         get_valid_transaction_id "app" 1 "k1") failed_transaction
        = (Ok 4, w')
        ∧ nodes w' !! Key.valid "app" "k1" = Some (str_int 4).
Proof.
  apply registered_version_becomes_valid;
    [reflexivity | vm_compute; eauto | vm_compute; eauto].
Defined.

(** X15.  An entity key without an entry in the valid list, registered for
    a transaction whose node is missing: [register_updated_key] raises the
    not-valid exception and writes nothing.  [get_updated_key_list] for a
    missing transaction raises its own exception after the one read. *)
Theorem journal_of_a_missing_transaction (app : string) (cur target : Z)
    (key : string) w :
  faults w = [] →
  nodes w !! Key.tx app cur = None →
  (nodes w !! Key.valid app key = None →
   ∃ w', register_updated_key app cur target key w = (Raise (not_valid cur), w')
         ∧ nodes w' = nodes w)
  ∧ ∃ w', get_updated_key_list app cur w
          = (Raise (ZKTransactionException
                      ("get_updated_key_list: Transaction ID " +:+ str_int cur
                       +:+ " is not valid.")), w')
          ∧ nodes w' = nodes w
          ∧ log w' = Req GetChildren [PStr (get_transaction_path app cur)]
                     :: log w.
Proof.
  destruct w as [m sq se fl lg t]. cbn. intros -> Ht. split.
  - intros Hv. eexists. split; [by apply register_updated_key_invalid|done].
  - eexists. split.
    + unfold get_updated_key_list. eapply try_raise.
      * eapply bind_raise, zk_hand; [by left|].
        by eapply call_children_none; [apply parse_tx|].
      * reflexivity.
    + done.
Qed.

Lemma journal_of_a_missing_transaction_witness :
  ∃ w', get_updated_key_list "app" 9 failed_transaction
        = (Raise (ZKTransactionException
                    ("get_updated_key_list: Transaction ID " +:+ str_int 9
                     +:+ " is not valid.")), w')
        ∧ nodes w' = nodes failed_transaction
        ∧ log w' = Req GetChildren [PStr (get_transaction_path "app" 9)]
                   :: log failed_transaction.
Proof.
  apply (journal_of_a_missing_transaction "app" 9 0 "k" failed_transaction);
    reflexivity.
Defined.

End Journal.

(** ** The lock of the datastore groomer *)

Module Groomer.
Import Steps Tree Calls Journal.

Lemma parse_groomer : parse_path DS_GROOM_LOCK_PATH = Some groomer_lock.
Proof. reflexivity. Qed.

Lemma groomer_create_args s :
  decode Create [PStr DS_GROOM_LOCK_PATH; PStr s; ZOO_ACL_OPEN; PBool true]
  = Some (RCreate DS_GROOM_LOCK_PATH s true false false false).
Proof. reflexivity. Qed.

Lemma groomer_lock_free (m : gmap (list string) string) sq se lg t :
  m !! groomer_lock = None →
  get_datastore_groomer_lock (World m sq se [] lg t)
  = (Ok true,
     World (<[groomer_lock := str_time t]> m) sq se []
       (Req Create [PStr DS_GROOM_LOCK_PATH; PStr (str_time t); ZOO_ACL_OPEN;
                    PBool true] :: lg) t).
Proof.
  intros Hm. unfold get_datastore_groomer_lock.
  eapply try_ok, bind_ok; [reflexivity|]. cbn [now].
  eapply bind_ok; [|reflexivity].
  rewrite (call_clean _ _ _ _ (groomer_create_args _)) by done.
  cbn. unfold do_create. rewrite parse_groomer. cbn. by rewrite Hm.
Qed.

Lemma groomer_lock_taken (m : gmap (list string) string) sq se lg t v :
  m !! groomer_lock = Some v →
  get_datastore_groomer_lock (World m sq se [] lg t)
  = (Ok false,
     World m sq se []
       (Req Create [PStr DS_GROOM_LOCK_PATH; PStr (str_time t); ZOO_ACL_OPEN;
                    PBool true] :: lg) t).
Proof.
  intros Hm. unfold get_datastore_groomer_lock.
  eapply try_raise.
  - eapply bind_ok; [reflexivity|]. cbn [now]. eapply bind_raise.
    rewrite (call_clean _ _ _ _ (groomer_create_args _)) by done.
    cbn. unfold do_create. rewrite parse_groomer. cbn. by rewrite Hm.
  - reflexivity.
Qed.

Lemma groomer_release_held (m : gmap (list string) string) sq se lg t v :
  m !! groomer_lock = Some v → children m groomer_lock = [] →
  release_datastore_groomer_lock (World m sq se [] lg t)
  = (Ok true,
     World (delete groomer_lock m) sq se []
       (Req Delete [PStr DS_GROOM_LOCK_PATH] :: lg) t).
Proof.
  intros Hm Hc. unfold release_datastore_groomer_lock.
  eapply try_ok, bind_ok; [|reflexivity].
  rewrite (call_clean _ _ (RDelete DS_GROOM_LOCK_PATH false)) by done.
  cbn. unfold do_delete. rewrite parse_groomer. cbn. by rewrite Hm, Hc.
Qed.

Lemma groomer_release_free (m : gmap (list string) string) sq se lg t :
  m !! groomer_lock = None →
  release_datastore_groomer_lock (World m sq se [] lg t)
  = (Raise unable_to_delete_groomer_lock,
     World m sq se [] (Req Delete [PStr DS_GROOM_LOCK_PATH] :: lg) t).
Proof.
  intros Hm. unfold release_datastore_groomer_lock.
  eapply try_raise.
  - eapply bind_raise.
    rewrite (call_clean _ _ (RDelete DS_GROOM_LOCK_PATH false)) by done.
    cbn. unfold do_delete. rewrite parse_groomer. cbn. by rewrite Hm.
  - reflexivity.
Qed.

Lemma children_insert_self (m : gmap (list string) string)
    (p : list string) (v : string) :
  m !! p = None → children (<[p := v]> m) p ≡ₚ children m p.
Proof.
  intros H. unfold children. rewrite map_to_list_insert by done.
  rewrite omap_cons_None; [done|]. cbn.
  destruct (child_name p p) as [c|] eqn:E; [|done].
  apply child_name_spec in E. apply (f_equal length) in E.
  rewrite length_app in E. cbn in E. lia.
Qed.


(** X17.  The groomer lock on a service without faults, from a state in
    which nobody holds it: the first [get_datastore_groomer_lock] gets it, a
    second one is refused, [release_datastore_groomer_lock] gives it back
    and restores the name-space, and a second release raises the
    transaction exception. *)
Theorem groomer_lock_round_trip w :
  faults w = [] →
  nodes w !! groomer_lock = None →
  children (nodes w) groomer_lock = [] →
  ∃ w1 w2 w3 w4,
    get_datastore_groomer_lock w = (Ok true, w1)
    ∧ get_datastore_groomer_lock w1 = (Ok false, w2)
    ∧ nodes w2 = nodes w1
    ∧ release_datastore_groomer_lock w2 = (Ok true, w3)
    ∧ nodes w3 = nodes w
    ∧ release_datastore_groomer_lock w3
      = (Raise unable_to_delete_groomer_lock, w4).
Proof.
  destruct w as [m sq se fl lg t]. cbn. intros -> Hm Hc.
  eexists _, _, _, _.
  split; [by apply groomer_lock_free|].
  split; [eapply groomer_lock_taken; by rewrite lookup_insert_eq|].
  split; [done|].
  split.
  { eapply groomer_release_held; [by rewrite lookup_insert_eq|].
    apply Permutation_nil_r. by rewrite children_insert_self, Hc. }
  cbn [nodes]. split; [by apply delete_insert_id|].
  apply groomer_release_free. by rewrite lookup_delete_eq.
Qed.

Lemma groomer_lock_round_trip_witness :
  ∃ w1 w2 w3 w4,
    get_datastore_groomer_lock tx_without_locks = (Ok true, w1)
    ∧ get_datastore_groomer_lock w1 = (Ok false, w2)
    ∧ nodes w2 = nodes w1
    ∧ release_datastore_groomer_lock w2 = (Ok true, w3)
    ∧ nodes w3 = nodes tx_without_locks
    ∧ release_datastore_groomer_lock w3
      = (Raise unable_to_delete_groomer_lock, w4).
Proof. apply groomer_lock_round_trip; reflexivity. Defined.

End Groomer.

(** ** Garbage collection *)

Module Collector.
Import PyStrFacts PathFacts Steps Paths Tree Calls Numbers Updates Journal Groomer.

Lemma children_insert_other (m : gmap (list string) string)
    (q k : list string) (v : string) :
  m !! k = None → (∀ c, k ≠ q ++ [c]) →
  children (<[k := v]> m) q ≡ₚ children m q.
Proof.
  intros H Hk. unfold children. rewrite map_to_list_insert by done.
  rewrite omap_cons_None; [done|]. cbn.
  destruct (child_name q k) as [c|] eqn:E; [|done].
  apply child_name_spec in E. by destruct (Hk c).
Qed.

Lemma call_create_flat (m : gmap (list string) string) sq se lg t
    (s v : string) (p : list string) (e : bool) :
  parse_path s = Some p → has_parent m p = true →
  call Create [PStr s; PStr v; ZOO_ACL_OPEN; PBool e] (World m sq se [] lg t)
  = (match m !! p with
     | Some _ => Raise NodeExistsError
     | None => Ok (PStr s)
     end,
     World (match m !! p with Some _ => m | None => <[p := v]> m end) sq se []
       (Req Create [PStr s; PStr v; ZOO_ACL_OPEN; PBool e] :: lg) t).
Proof.
  intros Hp Hh.
  rewrite (call_clean _ _ (RCreate s v e false false false)) by done.
  cbn [perform]. unfold do_create. rewrite Hp. cbn [nodes add_log].
  rewrite Hh. cbn [negb andb]. by destruct (m !! p).
Qed.

Section sweep.
Context (app_id app_path : string) (p : list string).
Context (Hp : parse_path app_path = Some p) (Hne : p ≠ []).
Context (m : gmap (list string) string) (sq : gmap (list string) N).
Context (se : nat) (t : Z).

Local Abbreviation W lg := (World m sq se [] lg t).
Local Abbreviation txroot := (p ++ [APP_TX_PATH]).

Lemma parse_txroot :
parse_path (join PATH_SEPARATOR [app_path; APP_TX_PATH]) = Some txroot.
Proof. by apply parse_join2. Qed.

Lemma sweep_loop (l : list string) :
Forall (fun c => no_slash c ∧ young m txroot t c) l →
(∀ c, c ∈ l → is_Some (m !! (txroot ++ [c]))) →
∀ lg, ∃ new,
  for_ctl l (fun txid =>
    if negb (match_tx_digit txid) then ret Next
    else
      let txpath := join PATH_SEPARATOR
                      [join PATH_SEPARATOR [app_path; APP_TX_PATH]; txid] in
      try_except
        (v <- call Get [PStr txpath] ;;
         s <- get_str v ;;
         txtime <- match py_float s with
                   | Some t => ret t
                   | None => raise ValueError
                   end ;;
         t <- time_time ;;
         if txtime + TX_TIMEOUT <? t then
           id <- match py_long (lstrip APP_TX_PREFIX txid) with
                 | Some i => ret i
                 | None => raise ValueError
                 end ;;
           notify_failed_transaction app_id id ;;
           ret Next
         else ret Next)
        (fun e =>
           match e with
           | NoNodeError => ret Next
           | _ => if is_zookeeper_error e
                  then reestablish_connection ;; ret (Return tt)
                  else raise e
           end)) (W lg)
  = (Ok Next, W (new ++ lg)) ∧ Forall is_read new.
Proof.
induction l as [|c l IH]; intros Hl Hc lg.
- by exists [].
- apply Forall_cons in Hl as [[Hs Hy] Hl].
  cbn [for_ctl]. destruct (match_tx_digit c) eqn:E; cbn [negb].
  + destruct (Hy E) as (s & ts & Hv & Hf & Ht).
    edestruct (IH Hl) as (new & Hnew & Hr); [intros; apply Hc; by right|].
    exists (new ++ [Req Get [PStr (join PATH_SEPARATOR
              [join PATH_SEPARATOR [app_path; APP_TX_PATH]; c])]]).
    split.
    * eapply bind_ok.
      { eapply try_ok. eapply bind_ok.
        - eapply call_get; [|exact Hv].
          by apply parse_join2; [apply parse_txroot|by destruct p|].
        - cbn. unfold bind, ret, time_time. cbn. rewrite Hf. cbn.
          by rewrite (proj2 (Z.ltb_ge _ _) Ht). }
      cbn beta iota. rewrite <- (assoc_L (++)). exact Hnew.
    * apply Forall_app. split; [done|]. by apply Forall_singleton.
  + edestruct (IH Hl) as (new & Hnew & Hr); [intros; apply Hc; by right|].
    exists new. split; [|done]. eapply bind_ok; [reflexivity|]. exact Hnew.
Qed.

Lemma sweep_young lg :
Forall (fun c => no_slash c ∧ young m txroot t c) (children m txroot) →
∃ new,
  execute_garbage_collection app_id app_path (W lg)
  = (Ok tt, W (new ++ lg)) ∧ Forall is_read new.
Proof.
intros Hy. unfold execute_garbage_collection.
destruct (m !! txroot) as [v|] eqn:E.
- edestruct (sweep_loop _ Hy) as (new & Hnew & Hr).
  { intros c. by rewrite elem_of_children. }
  exists (new ++ [Req GetChildren
                    [PStr (join PATH_SEPARATOR [app_path; APP_TX_PATH])]]).
  split.
  + eapply bind_ok; [reflexivity|]. cbn beta.
    eapply bind_ok.
    { eapply try_ok, bind_ok;
        [eapply call_children; [apply parse_txroot|exact E]|reflexivity]. }
    cbn beta iota. eapply bind_ok; [|reflexivity].
    rewrite <- (assoc_L (++)). exact Hnew.
  + apply Forall_app. split; [done|]. by apply Forall_singleton.
- exists [Req GetChildren [PStr (join PATH_SEPARATOR [app_path; APP_TX_PATH])]].
  split; [|by apply Forall_singleton].
  eapply bind_ok; [reflexivity|]. cbn beta.
  eapply bind_ok.
  + eapply try_raise.
    * eapply bind_raise, call_children_none; [apply parse_txroot|exact E].
    * reflexivity.
  + reflexivity.
Qed.

Local Abbreviation time_node := (p ++ [GC_TIME_PATH]).
Local Abbreviation lock_node := (p ++ [GC_LOCK_PATH]).

Lemma parse_time_node :
parse_path (join PATH_SEPARATOR [app_path; GC_TIME_PATH]) = Some time_node.
Proof. by apply parse_join2. Qed.

Lemma parse_lock_node :
parse_path (join PATH_SEPARATOR [app_path; GC_LOCK_PATH]) = Some lock_node.
Proof. by apply parse_join2. Qed.

Lemma read_last_time lg last :
last_collection m p = Some last →
try_except
  (v <- call Get [PStr (join PATH_SEPARATOR [app_path; GC_TIME_PATH])] ;;
   val <- get_str v ;;
   match py_float val with
   | Some t => ret (Some t)
   | None => raise ValueError
   end)
  (fun e =>
     match e with
     | NoNodeError => ret (Some 0)
     | _ => if is_zookeeper_error e
            then reestablish_connection ;; ret None
            else raise e
     end) (W lg)
= (Ok (Some last),
   W (Req Get [PStr (join PATH_SEPARATOR [app_path; GC_TIME_PATH])] :: lg)).
Proof.
unfold last_collection. destruct (m !! time_node) as [v|] eqn:E; intros Hl.
- eapply try_ok, bind_ok; [eapply call_get; [apply parse_time_node|exact E]|].
  cbn. unfold bind, ret. cbn. by rewrite Hl.
- injection Hl as <-. eapply try_raise.
  + eapply bind_raise, call_get_none; [apply parse_time_node|exact E].
  + reflexivity.
Qed.

Lemma collection_not_due lg last :
last_collection m p = Some last → t ≤ last + GC_INTERVAL →
try_garbage_collection app_id app_path (W lg)
= (Ok (PBool false),
   W (Req Get [PStr (join PATH_SEPARATOR [app_path; GC_TIME_PATH])] :: lg)).
Proof.
intros Hl Ht. unfold try_garbage_collection.
eapply bind_ok; [by apply read_last_time|]. cbn beta iota.
eapply bind_ok; [reflexivity|]. cbn beta. cbn [now].
by rewrite (proj2 (Z.ltb_ge _ _) Ht).
Qed.

Lemma lock_create_args s :
decode Create [PStr (join PATH_SEPARATOR [app_path; GC_LOCK_PATH]); PStr s;
               ZOO_ACL_OPEN; PBool true]
= Some (RCreate (join PATH_SEPARATOR [app_path; GC_LOCK_PATH]) s
          true false false false).
Proof. reflexivity. Qed.

Lemma has_parent_child (q : list string) (c : string) :
q ≠ [] → has_parent m (q ++ [c]) = bool_decide (is_Some (m !! q)).
Proof.
intros Hq. unfold has_parent. rewrite removelast_last. by destruct q.
Qed.

Lemma collection_locked_out lg last x :
last_collection m p = Some last → last + GC_INTERVAL < t →
is_Some (m !! p) → m !! lock_node = Some x →
try_garbage_collection app_id app_path (W lg)
= (Ok (PBool true),
   W (Req Create [PStr (join PATH_SEPARATOR [app_path; GC_LOCK_PATH]);
                  PStr (str_time t); ZOO_ACL_OPEN; PBool true]
      :: Req Get [PStr (join PATH_SEPARATOR [app_path; GC_TIME_PATH])] :: lg)).
Proof.
intros Hl Ht Ha Hk. unfold try_garbage_collection.
eapply bind_ok; [by apply read_last_time|]. cbn beta iota.
eapply bind_ok; [reflexivity|]. cbn beta. cbn [now].
rewrite (proj2 (Z.ltb_lt _ _) Ht).
eapply bind_ok.
- eapply try_raise.
  + eapply bind_ok; [reflexivity|]. cbn [now]. eapply bind_raise.
    rewrite (call_create_flat _ _ _ _ _ _ _ lock_node)
      by (apply parse_lock_node
          || (rewrite has_parent_child by done; by apply bool_decide_eq_true_2)).
    by rewrite Hk.
  + reflexivity.
- reflexivity.
Qed.

End sweep.

Lemma update_node_clean (m : gmap (list string) string) sq se lg t
    (path value : string) (p : list string) :
  parse_path path = Some p → p ≠ [] →
  ∃ m' lg',
    update_node path value (World m sq se [] lg t)
    = (Ok tt, World m' sq se [] (lg' ++ lg) t)
    ∧ m' !! p = Some value
    ∧ (∀ q v, q ≠ p → m !! q = Some v → m' !! q = Some v).
Proof.
  intros Hp Hne. unfold update_node. destruct (m !! p) as [old|] eqn:E.
  - exists (<[p := value]> m), [Req SetData [PStr path; PStr value]]. split.
    { eapply try_ok, bind_ok; [by eapply call_set_there|reflexivity]. }
    split; [by rewrite lookup_insert_eq|].
    intros q v Hq Hv. by rewrite lookup_insert_ne.
  - exists (<[p := value]> (ensure_path [] (removelast p) m)),
           [Req Create (mk_args path value);
            Req SetData [PStr path; PStr value]].
    split.
    { eapply try_raise.
      - eapply bind_raise. by eapply call_set_missing.
      - cbn beta iota. eapply bind_ok; [|reflexivity].
        apply (call_create_new sq se t m _ path p value Hp).
        by rewrite ensure_parents_self. }
    split; [by rewrite lookup_insert_eq|].
    intros q v Hq Hv. rewrite lookup_insert_ne by done.
    by apply ensure_path_keeps.
Qed.

Lemma time_not_lock (p : list string) : p ++ [GC_LOCK_PATH] ≠ p ++ [GC_TIME_PATH].
Proof. by intros [= ?]%app_inv_head. Qed.

Lemma collection_runs (app_id app_path : string) (p : list string)
    (m : gmap (list string) string) sq se lg t last :
  parse_path app_path = Some p → p ≠ [] →
  last_collection m p = Some last → last + GC_INTERVAL < t →
  is_Some (m !! p) → m !! (p ++ [GC_LOCK_PATH]) = None →
  Forall (fun c => no_slash c ∧ young m (p ++ [APP_TX_PATH]) t c)
         (children m (p ++ [APP_TX_PATH])) →
  ∃ m' lg',
    try_garbage_collection app_id app_path (World m sq se [] lg t)
    = (Ok (PBool true), World m' sq se [] lg' t)
    ∧ m' !! (p ++ [GC_TIME_PATH]) = Some (str_time t)
    ∧ m' !! (p ++ [GC_LOCK_PATH]) = Some (str_time t)
    ∧ (∀ q v, q ≠ p ++ [GC_TIME_PATH] → m !! q = Some v → m' !! q = Some v).
Proof.
  intros Hp Hne Hl Ht Ha Hk Hy.
  set (m1 := <[p ++ [GC_LOCK_PATH] := str_time t]> m).
  assert (Forall (fun c => no_slash c ∧ young m1 (p ++ [APP_TX_PATH]) t c)
                 (children m1 (p ++ [APP_TX_PATH]))) as Hy1.
  { unfold m1. rewrite children_insert_other; [|done|].
    - eapply Forall_impl; [exact Hy|]. intros c [Hs Hc]. split; [done|].
      intros Hd. destruct (Hc Hd) as (s & ts & H1 & H2 & H3).
      exists s, ts. split; [|done]. rewrite lookup_insert_ne; [done|].
      rewrite <- (assoc_L (++)). by intros [= ?]%app_inv_head.
    - intros c. rewrite <- (assoc_L (++)). by intros [= ?]%app_inv_head. }
  edestruct (sweep_young app_id app_path p Hp Hne m1 sq se t) as (new & Hn & _);
    [exact Hy1|].
  destruct (update_node_clean m1 sq se
              (new ++ Req Create [PStr (join PATH_SEPARATOR
                                          [app_path; GC_LOCK_PATH]);
                                  PStr (str_time t); ZOO_ACL_OPEN; PBool true]
                   :: Req Get [PStr (join PATH_SEPARATOR
                                       [app_path; GC_TIME_PATH])] :: lg)
              t (join PATH_SEPARATOR [app_path; GC_TIME_PATH]) (str_time t)
              (p ++ [GC_TIME_PATH]))
    as (m' & lg' & Hu & Hm1 & Hm2);
    [by apply (parse_time_node app_path p)|by destruct p|].
  exists m'. eexists. split; [|split; [done|split]].
  - unfold try_garbage_collection.
    eapply bind_ok; [by eapply (read_last_time app_path p)|]. cbn beta iota.
    eapply bind_ok; [reflexivity|]. cbn beta. cbn [now].
    rewrite (proj2 (Z.ltb_lt _ _) Ht).
    eapply bind_ok.
    + eapply try_ok. eapply bind_ok; [reflexivity|]. cbn [now].
      eapply bind_ok.
      { rewrite (call_create_flat _ _ _ _ _ _ _ (p ++ [GC_LOCK_PATH]))
          by (by apply (parse_lock_node app_path p)
              || (rewrite has_parent_child by done;
                  by apply bool_decide_eq_true_2)).
        rewrite Hk. reflexivity. }
      eapply bind_ok; [|reflexivity].
      eapply try_ok. eapply bind_ok; [exact Hn|].
      eapply bind_ok; [reflexivity|]. cbn [now]. exact Hu.
    + reflexivity.
  - apply Hm2; [apply time_not_lock|]. unfold m1. by rewrite lookup_insert_eq.
  - intros q v Hq Hv. apply Hm2; [done|]. unfold m1.
    rewrite lookup_insert_ne; [done|]. intros <-. congruence.
Qed.







End Collector.

(** ** The retry budget of the executor *)

Module Retries.
Import Steps Executor.

Lemma retry_step (e : exn) n t (f : zk_op) (args : list pyval) r w fs :
  transient e → decode f args = Some r → faults w = Some e :: fs →
  run_with_timeout_from (S n) t f args w
  = run_with_timeout_from n t f args (after_retries 1 f args w).
Proof.
  intros He Hd Hf. rewrite (retry_same_args e n t f args r w fs He Hd Hf).
  unfold bind, reestablish_connection. cbn. by rewrite Hf.
Qed.

Lemma after_retries_S k f args w :
  after_retries (S k) f args w
  = after_retries k f args (after_retries 1 f args w).
Proof. reflexivity. Qed.

Lemma after_retries_frame k f args w :
  nodes (after_retries k f args w) = nodes w
  ∧ seqs (after_retries k f args w) = seqs w
  ∧ session (after_retries k f args w) = (session w + k)%nat
  ∧ faults (after_retries k f args w) = drop k (faults w)
  ∧ now (after_retries k f args w) = now w.
Proof.
  revert w. induction k as [|k IH]; intros w.
  - cbn. rewrite Nat.add_0_r. by destruct (faults w).
  - cbn [after_retries]. destruct (IH
      (World (nodes w) (seqs w) (S (session w)) (tl (faults w))
             (Reconnect :: Req f args :: log w) (now w)))
      as (H1 & H2 & H3 & H4 & H5).
    rewrite H1, H2, H3, H4, H5. cbn.
    repeat split; [lia|].
    destruct (faults w); cbn; [by rewrite drop_nil|done].
Qed.

Lemma after_retries_history k f args w :
  history (after_retries k f args w)
  = history w ++ mjoin (replicate k [Req f args; Reconnect]).
Proof.
  revert w. induction k as [|k IH]; intros w.
  - cbn. by rewrite app_nil_r.
  - cbn [after_retries]. rewrite IH. unfold history. cbn.
    by rewrite <- !(assoc_L (++)).
Qed.

Lemma transient_run (es : list exn) fs n t (f : zk_op) (args : list pyval) r w :
  Forall transient es → decode f args = Some r →
  faults w = map Some es ++ fs →
  run_with_timeout_from (length es + n) t f args w
  = run_with_timeout_from n t f args (after_retries (length es) f args w).
Proof.
  revert w. induction es as [|e es IH]; intros w Hes Hd Hf; [done|].
  apply Forall_cons in Hes as [He Hes]. cbn [length Nat.add].
  rewrite (retry_step e _ t f args r w (map Some es ++ fs)) by done.
  rewrite after_retries_S. apply IH; [done|done|]. cbn. by rewrite Hf.
Qed.



End Retries.

(** ** Transaction identifiers *)

Module Ids.
Import PyStrFacts PathFacts Steps Paths Tree Calls Numbers Updates.

Lemma parse_digits_zero (s : string) :
  s ≠ "" → parse_digits (String "0" s) = parse_digits s.
Proof.
  intros Hs. unfold parse_digits. destruct s as [|c s]; [done|].
  cbn [NilZero.uint_of_string NilEmpty.uint_of_string].
  by destruct (uint_of_char c (NilEmpty.uint_of_string s)).
Qed.

Lemma digits_not_empty n : digits n ≠ "".
Proof. destruct (digits_head n) as (c & r & -> & _). done. Qed.

Lemma parse_digits_zeros k n : parse_digits (zeros k +:+ digits n) = Some n.
Proof.
  induction k as [|k IH]; [apply parse_digits_digits|].
  cbn [zeros]. rewrite sapp_cons, parse_digits_zero; [done|].
  destruct k; [apply digits_not_empty|done].
Qed.

Lemma padded_head k n :
  ∃ c r, zeros k +:+ digits n = String c r ∧ is_digit c = true.
Proof.
  destruct k as [|k]; [apply digits_head|]. cbn [zeros]. rewrite sapp_cons.
  by eexists _, _.
Qed.

(** [long("%010d" % n) == n] *)
Lemma py_long_fmt_010d n : py_long (fmt_010d (Z.of_N n)) = Some (Z.of_N n).
Proof.
  unfold fmt_010d. rewrite (proj2 (Z.ltb_ge _ _)) by lia.
  unfold pad0. rewrite N2Z.id || replace (Z.abs_N (Z.of_N n)) with n by lia.
  destruct (padded_head (10 - String.length (digits n)) n) as (c & r & E & Hc).
  rewrite E, py_long_digit_head by done.
  by rewrite <- E, parse_digits_zeros.
Qed.

Lemma lstrip_tx_name n :
  lstrip APP_TX_PREFIX (Key.tx_name (Z.of_N n)) = fmt_010d (Z.of_N n).
Proof.
  unfold Key.tx_name, APP_TX_PREFIX. rewrite !sapp_cons, sapp_nil_l.
  cbn [lstrip has_char Ascii.eqb Bool.eqb]. cbn.
  unfold fmt_010d. rewrite (proj2 (Z.ltb_ge _ _)) by lia. unfold pad0.
  destruct (padded_head (10 - String.length (digits (Z.abs_N (Z.of_N n))))
              (Z.abs_N (Z.of_N n))) as (c & r & E & Hc).
  rewrite E. cbn [lstrip].
  destruct c as [[] [] [] [] [] [] [] []]; try done.
Qed.

Lemma parse_tx_prefix app :
  parse_path (get_txn_path_before_getting_id app)
  = Some (Key.tx_root app ++ [APP_TX_PREFIX]).
Proof.
  unfold get_txn_path_before_getting_id, PATH_SEPARATOR.
  by rewrite (parse_join2 _ _ _ (parse_tx_root app)).
Qed.

Lemma call_create_numbered (m : gmap (list string) string) sq se lg t
    (s c v : string) (q : list string) :
  parse_path s = Some (q ++ [c]) →
  m !! (q ++ [c +:+ fmt_010d (Z.of_N (default 0%N (sq !! q)))]) = None →
  call Create [PStr s; PStr v; ZOO_ACL_OPEN; PBool false; PBool true; PBool true]
    (World m sq se [] lg t)
  = (Ok (PStr (s +:+ fmt_010d (Z.of_N (default 0%N (sq !! q))))),
     World (<[q ++ [c +:+ fmt_010d (Z.of_N (default 0%N (sq !! q)))] := v]>
              (ensure_path [] q m))
           (<[q := N.succ (default 0%N (sq !! q))]> sq) se []
           (Req Create [PStr s; PStr v; ZOO_ACL_OPEN; PBool false; PBool true;
                        PBool true] :: lg) t).
Proof.
  intros Hp Hn.
  rewrite (call_clean _ _ (RCreate s v false true true false)) by done.
  cbn [perform]. unfold do_create, add_log. rewrite Hp.
  cbn [nodes seqs session faults log now].
  rewrite removelast_last, last_last, andb_false_r. unfold next_seq.
  cbn [nodes seqs session faults log now].
  rewrite ensure_path_longer, Hn; [done|].
  rewrite length_app. cbn. lia.
Qed.

Lemma last_piece (a c : string) :
  no_slash c → last_item (split "/" (a +:+ "/" +:+ c)) = c.
Proof.
  intros Hc. rewrite split_char_app, (split_last "/" "" c Hc).
  unfold last_item. by rewrite last_last.
Qed.

Lemma numbered_name app n :
  get_txn_path_before_getting_id app +:+ fmt_010d (Z.of_N n)
  = get_transaction_prefix_path app +:+ "/" +:+ Key.tx_name (Z.of_N n).
Proof.
  unfold get_txn_path_before_getting_id, PATH_SEPARATOR. rewrite join2.
  by rewrite !sapp_assoc.
Qed.

(** The sequence node that the service names is the node that
    [get_transaction_path] names for its number. *)
Lemma numbered_is_transaction_path app z :
  get_txn_path_before_getting_id app +:+ fmt_010d z
  = get_transaction_path app z.
Proof.
  unfold get_txn_path_before_getting_id, get_transaction_path,
    get_transaction_prefix_path, PATH_SEPARATOR.
  cbn [join]. by rewrite !sapp_assoc.
Qed.

Lemma parse_numbered app n :
  parse_path (get_txn_path_before_getting_id app +:+ fmt_010d (Z.of_N n))
  = Some (Key.tx app (Z.of_N n)).
Proof.
  rewrite numbered_name.
  by rewrite (parse_path_child _ _ _ (parse_tx_root app))
    by (done || apply no_slash_tx_name).
Qed.

Lemma id_of_numbered app n :
  py_long (lstrip APP_TX_PREFIX
             (last_item (split PATH_SEPARATOR
                (get_txn_path_before_getting_id app +:+ fmt_010d (Z.of_N n)))))
  = Some (Z.of_N n).
Proof.
  rewrite numbered_name. unfold PATH_SEPARATOR.
  rewrite last_piece by apply no_slash_tx_name.
  by rewrite lstrip_tx_name, py_long_fmt_010d.
Qed.

Lemma numbered_truthy app n :
  truthy (PStr (get_txn_path_before_getting_id app +:+ fmt_010d (Z.of_N n)))
  = true.
Proof. rewrite numbered_name. reflexivity. Qed.

Section clean.
Context (se : nat) (t : Z).
Implicit Types (m : gmap (list string) string) (sq : gmap (list string) N).
Implicit Types (lg : list event) (app value : string).

Local Abbreviation seq_args app value :=
  [PStr (get_txn_path_before_getting_id app); PStr value; ZOO_ACL_OPEN;
   PBool false; PBool true; PBool true].

Local Abbreviation attempt path value :=
  (try_except
     (v <- zk Create [PStr path; PStr value; ZOO_ACL_OPEN;
                      PBool false; PBool true; PBool true] ;;
      if truthy v then
        let txn_id_path := py_str v in
        match py_long (lstrip APP_TX_PREFIX
                         (last_item (split PATH_SEPARATOR txn_id_path))) with
        | None => raise ValueError
        | Some txn_id =>
          if txn_id =? 0 then
            call DeleteAsync [PStr txn_id_path] ;; ret Next
          else ret (Return txn_id)
        end
      else ret Next)
     (fun e => if is_zookeeper_error e then ret Next else raise e)).

Lemma attempt_number app value m sq lg :
let n := default 0%N (sq !! Key.tx_root app) in
n ≠ 0%N → m !! Key.tx app (Z.of_N n) = None →
attempt (get_txn_path_before_getting_id app) value (World m sq se [] lg t)
= (Ok (Return (Z.of_N n)),
   World (<[Key.tx app (Z.of_N n) := value]>
            (ensure_path [] (Key.tx_root app) m))
         (<[Key.tx_root app := N.succ n]> sq) se []
         (Req Create (seq_args app value) :: lg) t).
Proof.
intros n Hn Hm. eapply try_ok, bind_ok.
- apply zk_ok.
  apply (call_create_numbered m sq se lg t _ APP_TX_PREFIX value
           (Key.tx_root app) (parse_tx_prefix app)).
  exact Hm.
- cbn beta. fold n. rewrite numbered_truthy. unfold py_str.
  rewrite id_of_numbered. by rewrite (proj2 (Z.eqb_neq _ _)) by lia.
Qed.

Lemma attempt_zero app value m sq lg :
default 0%N (sq !! Key.tx_root app) = 0%N →
m !! Key.tx app 0 = None →
attempt (get_txn_path_before_getting_id app) value (World m sq se [] lg t)
= (Ok Next,
   World (after_delete (<[Key.tx app 0 := value]>
                          (ensure_path [] (Key.tx_root app) m))
                       (Key.tx app 0))
         (<[Key.tx_root app := 1%N]> sq) se []
         (Req DeleteAsync [PStr (get_txn_path_before_getting_id app
                                 +:+ fmt_010d 0)]
          :: Req Create (seq_args app value) :: lg) t).
Proof.
intros Hn Hm. eapply try_ok, bind_ok.
- apply zk_ok.
  apply (call_create_numbered m sq se lg t _ APP_TX_PREFIX value
           (Key.tx_root app) (parse_tx_prefix app)).
  rewrite Hn. exact Hm.
- cbn beta. rewrite Hn.
  rewrite (numbered_truthy app 0). unfold py_str.
  rewrite (id_of_numbered app 0). cbn [Z.of_N Z.eqb].
  eapply bind_ok; [|reflexivity].
  apply call_delete_async, (parse_numbered app 0).
Qed.

Lemma allocate_number_from k app value m sq lg :
let n := default 0%N (sq !! Key.tx_root app) in
n ≠ 0%N → m !! Key.tx app (Z.of_N n) = None →
retry_loop (S k) (attempt (get_txn_path_before_getting_id app) value)
  (raise (unable_to_create (get_txn_path_before_getting_id app) value))
  (World m sq se [] lg t)
= (Ok (Z.of_N n),
   World (<[Key.tx app (Z.of_N n) := value]>
            (ensure_path [] (Key.tx_root app) m))
         (<[Key.tx_root app := N.succ n]> sq) se []
         (Req Create (seq_args app value) :: lg) t).
Proof.
intros n Hn Hm. rewrite retry_loop_S. eapply bind_ok.
- by apply attempt_number.
- reflexivity.
Qed.

Lemma allocate_number app value m sq lg :
let n := default 0%N (sq !! Key.tx_root app) in
n ≠ 0%N → m !! Key.tx app (Z.of_N n) = None →
create_sequence_node (get_txn_path_before_getting_id app) value
  (World m sq se [] lg t)
= (Ok (Z.of_N n),
   World (<[Key.tx app (Z.of_N n) := value]>
            (ensure_path [] (Key.tx_root app) m))
         (<[Key.tx_root app := N.succ n]> sq) se []
         (Req Create (seq_args app value) :: lg) t).
Proof. apply (allocate_number_from 4). Qed.

Lemma create_node_clean path value p m sq lg :
parse_path path = Some p → p ≠ [] → m !! p = None →
create_node path value (World m sq se [] lg t)
= (Ok tt,
   World (<[p := value]> (ensure_path [] (removelast p) m)) sq se []
         (Req Create (mk_args path value) :: lg) t).
Proof.
intros Hp Hne Hm. unfold create_node.
change (Z.to_nat DEFAULT_NUM_RETRIES) with 5%nat. rewrite retry_loop_S.
eapply bind_ok.
- eapply bind_ok; [|reflexivity].
  apply zk_ok. apply call_create_new; [done|].
  by rewrite ensure_parents_self.
- reflexivity.
Qed.

Lemma tx_not_xg app (a b : Z) : Key.tx app a ≠ Key.xg app b.
Proof. by intros [= ?]. Qed.

(** The nodes of a world after a transaction [n] has been added to them. *)
Lemma get_id_fresh app (xg : bool) m sq lg :
let n := default 0%N (sq !! Key.tx_root app) in
n ≠ 0%N → m !! Key.tx app (Z.of_N n) = None →
m !! Key.xg app (Z.of_N n) = None →
∃ m' lg',
  get_transaction_id app xg (World m sq se [] lg t)
  = (Ok (Z.of_N n),
     World m' (<[Key.tx_root app := N.succ n]> sq) se [] (lg' ++ lg) t)
  ∧ m' !! Key.tx app (Z.of_N n) = Some (str_time t)
  ∧ m' !! Key.xg app (Z.of_N n) = (if xg then Some (str_time t) else None)
  ∧ (∀ p v, m !! p = Some v → m' !! p = Some v)
  ∧ (∀ p, (4 < length p)%nat → p ≠ Key.tx app (Z.of_N n) →
          p ≠ Key.xg app (Z.of_N n) → m' !! p = m !! p)
  ∧ deletions lg' = [].
Proof.
intros n Hn Hm Hx.
set (m1 := <[Key.tx app (Z.of_N n) := str_time t]>
             (ensure_path [] (Key.tx_root app) m)).
assert (∀ p v, m !! p = Some v → m1 !! p = Some v) as Hkeep.
{ intros p v Hp. unfold m1. rewrite lookup_insert_ne by congruence.
  by apply ensure_path_keeps. }
assert (∀ p, (4 < length p)%nat → p ≠ Key.tx app (Z.of_N n) →
             m1 !! p = m !! p) as Hdeep.
{ intros p Hl Hp. unfold m1. rewrite lookup_insert_ne by done.
  apply ensure_path_longer. cbn. lia. }
destruct xg.
- exists (<[Key.xg app (Z.of_N n) := str_time t]>
            (ensure_path [] (removelast (Key.xg app (Z.of_N n))) m1)),
         [Req Create (mk_args (get_xg_path app (Z.of_N n)) (str_time t));
          Req Create (seq_args app (str_time t))].
  split; [|split; [|split; [|split; [|split]]]].
  + unfold get_transaction_id. eapply bind_ok; [reflexivity|]. cbn [now].
    eapply bind_ok; [by apply allocate_number|]. fold n. cbn beta.
    eapply bind_ok; [|reflexivity].
    apply create_node_clean; [apply parse_xg|done|].
    fold m1. rewrite Hdeep; [done|cbn; lia|]. apply not_eq_sym, tx_not_xg.
  + rewrite lookup_insert_ne by apply not_eq_sym, tx_not_xg.
    apply ensure_path_keeps. unfold m1. by rewrite lookup_insert_eq.
  + by rewrite lookup_insert_eq.
  + intros p v Hp. rewrite lookup_insert_ne by congruence.
    by apply ensure_path_keeps, Hkeep.
  + intros p Hl Hp Hq. rewrite lookup_insert_ne by done.
    destruct (decide (5 < length p)%nat) as [Hl'|Hl'].
    * rewrite ensure_path_longer by (cbn; lia). by apply Hdeep.
    * rewrite ensure_path_other; [by apply Hdeep|].
      intros Hpre. cbn in Hpre.
      assert (length p = 5%nat) as Hl5 by lia.
      destruct Hpre as [k Hk]. apply Hp.
      assert (length (p ++ k) = 5%nat) as Hlen by (by rewrite <- Hk).
      rewrite length_app in Hlen.
      destruct k; [|cbn in Hlen; lia]. by rewrite app_nil_r in Hk.
  + done.
- exists m1, [Req Create (seq_args app (str_time t))].
  split; [|split; [|split; [|split; [|split]]]].
  + unfold get_transaction_id. eapply bind_ok; [reflexivity|]. cbn [now].
    eapply bind_ok; [by apply allocate_number|]. reflexivity.
  + unfold m1. by rewrite lookup_insert_eq.
  + rewrite Hdeep; [done|cbn; lia|]. apply not_eq_sym, tx_not_xg.
  + exact Hkeep.
  + intros p Hl Hp _. by apply Hdeep.
  + done.
Qed.

Lemma first_names_differ app : Key.tx app 0 ≠ Key.tx app 1.
Proof. by intros [= ?]. Qed.

Lemma get_id_first app m sq lg :
default 0%N (sq !! Key.tx_root app) = 0%N →
m !! Key.tx app 0 = None → (∀ c, m !! (Key.tx app 0 ++ [c]) = None) →
m !! Key.tx app 1 = None →
∃ m' sq' lg',
  get_transaction_id app false (World m sq se [] lg t)
  = (Ok 1, World m' sq' se [] (lg' ++ lg) t)
  ∧ m' !! Key.tx app 0 = None
  ∧ m' !! Key.tx app 1 = Some (str_time t)
  ∧ (∀ p v, m !! p = Some v → m' !! p = Some v)
  ∧ deletions lg'
    = [get_txn_path_before_getting_id app +:+ fmt_010d 0].
Proof.
intros Hn H0 Hc H1.
set (m1 := <[Key.tx app 0 := str_time t]> (ensure_path [] (Key.tx_root app) m)).
assert (after_delete m1 (Key.tx app 0) = delete (Key.tx app 0) m1) as Hd.
{ unfold after_delete, m1. rewrite lookup_insert_eq.
  replace (children _ _) with (@nil string); [done|].
  symmetry. apply children_nil. intros c.
  rewrite lookup_insert_ne.
  - rewrite ensure_path_longer; [apply Hc|]. rewrite length_app. cbn. lia.
  - intros E%(f_equal length). rewrite length_app in E. cbn in E. lia. }
set (m2 := delete (Key.tx app 0) m1).
set (sq1 := <[Key.tx_root app := 1%N]> sq).
assert (default 0%N (sq1 !! Key.tx_root app) = 1%N) as Hn1
  by (unfold sq1; by rewrite lookup_insert_eq).
assert (m2 !! Key.tx app 1 = None) as H1'.
{ unfold m2, m1. rewrite lookup_delete_ne by apply first_names_differ.
  rewrite lookup_insert_ne by apply first_names_differ.
  rewrite ensure_path_longer; [done|cbn; lia]. }
exists (<[Key.tx app 1 := str_time t]> (ensure_path [] (Key.tx_root app) m2)),
       (<[Key.tx_root app := 2%N]> sq1),
       [Req Create (seq_args app (str_time t));
        Req DeleteAsync [PStr (get_txn_path_before_getting_id app
                               +:+ fmt_010d 0)];
        Req Create (seq_args app (str_time t))].
split; [|split; [|split; [|split]]].
- unfold get_transaction_id. eapply bind_ok; [reflexivity|]. cbn [now].
  eapply bind_ok; [|reflexivity].
  unfold create_sequence_node.
  change (Z.to_nat DEFAULT_NUM_RETRIES) with 5%nat. rewrite retry_loop_S.
  eapply bind_ok; [by apply attempt_zero|]. cbn beta iota.
  fold m1. rewrite Hd. fold m2 sq1.
  pose proof (allocate_number_from 3 app (str_time t) m2 sq1) as Ha.
  cbn zeta in Ha. rewrite Hn1 in Ha. by apply Ha.
- rewrite lookup_insert_ne by apply not_eq_sym, first_names_differ.
  rewrite ensure_path_longer by (cbn; lia). unfold m2.
  by rewrite lookup_delete_eq.
- by rewrite lookup_insert_eq.
- intros p v Hp. rewrite lookup_insert_ne by congruence.
  apply ensure_path_keeps. unfold m2, m1.
  rewrite lookup_delete_ne by congruence.
  rewrite lookup_insert_ne by congruence. by apply ensure_path_keeps.
- reflexivity.
Qed.

End clean.

(** X22.  A new transaction on a service without faults.  The sequence
    counter of the application's [txids] node stands at [n >= 1], and
    neither the node of transaction [n] nor its [xg] child is there.  Then
    [get_transaction_id] returns [n]; the node that
    [get_transaction_path] gives for [n] is there afterwards, with the time
    of the call as its value; its [xg] child is there exactly for a
    cross-group transaction; the counter stands at [n + 1]; nothing is
    deleted, and no other node of depth five or more appears. *)
Theorem fresh_transaction_id (app : string) (xg : bool) (n : N) w :
  faults w = [] →
  next_seq w (Key.tx_root app) = n → n ≠ 0%N →
  nodes w !! Key.tx app (Z.of_N n) = None →
  nodes w !! Key.xg app (Z.of_N n) = None →
  ∃ w' new,
    get_transaction_id app xg w = (Ok (Z.of_N n), w')
    ∧ parse_path (get_transaction_path app (Z.of_N n))
      = Some (Key.tx app (Z.of_N n))
    ∧ nodes w' !! Key.tx app (Z.of_N n) = Some (str_time (now w))
    ∧ nodes w' !! Key.xg app (Z.of_N n)
      = (if xg then Some (str_time (now w)) else None)
    ∧ next_seq w' (Key.tx_root app) = N.succ n
    ∧ faults w' = []
    ∧ (∀ p v, nodes w !! p = Some v → nodes w' !! p = Some v)
    ∧ (∀ p, (4 < length p)%nat → p ≠ Key.tx app (Z.of_N n) →
            p ≠ Key.xg app (Z.of_N n) → nodes w' !! p = nodes w !! p)
    ∧ log w' = new ++ log w ∧ deletions new = [].
Proof.
  destruct w as [m sq se fl lg t]. unfold next_seq. cbn.
  intros -> <- Hn Hm Hx.
  destruct (get_id_fresh se t app xg m sq lg Hn Hm Hx)
    as (m' & lg' & H1 & H2 & H3 & H4 & H5 & H6).
  eexists _, lg'. split; [exact H1|]. split; [apply parse_tx|].
  cbn. by rewrite lookup_insert_eq.
Qed.

Lemma fresh_transaction_id_witness :
  ∃ w' new,
    get_transaction_id "app" true tx_without_locks = (Ok (Z.of_N 2), w')
    ∧ parse_path (get_transaction_path "app" (Z.of_N 2))
      = Some (Key.tx "app" (Z.of_N 2))
    ∧ nodes w' !! Key.tx "app" (Z.of_N 2)
      = Some (str_time (now tx_without_locks))
    ∧ nodes w' !! Key.xg "app" (Z.of_N 2)
      = Some (str_time (now tx_without_locks))
    ∧ next_seq w' (Key.tx_root "app") = N.succ 2
    ∧ faults w' = []
    ∧ (∀ p v, nodes tx_without_locks !! p = Some v → nodes w' !! p = Some v)
    ∧ (∀ p, (4 < length p)%nat → p ≠ Key.tx "app" (Z.of_N 2) →
            p ≠ Key.xg "app" (Z.of_N 2) →
            nodes w' !! p = nodes tx_without_locks !! p)
    ∧ log w' = new ++ log tx_without_locks ∧ deletions new = [].
Proof.
  apply (fresh_transaction_id "app" true 2 tx_without_locks);
    [reflexivity | reflexivity | discriminate | reflexivity | reflexivity].
Defined.

(** X23.  Identifiers grow.  With the counter at [n >= 1] and the nodes of
    the transactions [n] and [n + 1] not there, two successive calls of
    [get_transaction_id] on a service without faults return [n] and
    [n + 1]. *)
Theorem transaction_ids_increase (app : string) (x1 x2 : bool) (n : N) w :
  faults w = [] →
  next_seq w (Key.tx_root app) = n → n ≠ 0%N →
  nodes w !! Key.tx app (Z.of_N n) = None →
  nodes w !! Key.xg app (Z.of_N n) = None →
  nodes w !! Key.tx app (Z.of_N n + 1) = None →
  nodes w !! Key.xg app (Z.of_N n + 1) = None →
  ∃ w',
    (a <- get_transaction_id app x1 ;;
     b <- get_transaction_id app x2 ;;
     ret (a, b)) w = (Ok (Z.of_N n, Z.of_N n + 1), w')
    ∧ 1 ≤ Z.of_N n.
Proof.
  destruct w as [m sq se fl lg t]. unfold next_seq. cbn.
  intros -> <- Hn Hm Hx Hm' Hx'.
  set (n := default 0%N (sq !! Key.tx_root app)) in *.
  destruct (get_id_fresh se t app x1 m sq lg Hn Hm Hx)
    as (m1 & lg1 & H1 & _ & _ & _ & Hdeep & _).
  fold n in H1, Hdeep.
  set (sq1 := <[Key.tx_root app := N.succ n]> sq) in *.
  assert (default 0%N (sq1 !! Key.tx_root app) = N.succ n) as Hn1
    by (unfold sq1; by rewrite lookup_insert_eq).
  assert (Z.of_N (N.succ n) = Z.of_N n + 1) as Hz by lia.
  assert (fmt_010d (Z.of_N n + 1) ≠ fmt_010d (Z.of_N n)) as Hne.
  { intros E. apply (f_equal py_long) in E.
    rewrite <- Hz, !py_long_fmt_010d in E. injection E. lia. }
  destruct (get_id_fresh se t app x2 m1 sq1 (lg1 ++ lg)) as (m2 & lg2 & H2 & _).
  { rewrite Hn1. lia. }
  { rewrite Hn1, Hz, Hdeep;
      [done|cbn; lia|intros [= ?]; by apply Hne|by intros [= ?]]. }
  { rewrite Hn1, Hz, Hdeep;
      [done|cbn; lia|by intros [= ?]|intros [= ?]; by apply Hne]. }
  rewrite Hn1, Hz in H2.
  eexists. split; [|lia].
  eapply bind_ok; [exact H1|]. eapply bind_ok; [exact H2|]. reflexivity.
Qed.

Lemma transaction_ids_increase_witness :
  ∃ w',
    (a <- get_transaction_id "app" false ;;
     b <- get_transaction_id "app" true ;;
     ret (a, b)) tx_without_locks = (Ok (Z.of_N 2, Z.of_N 2 + 1), w')
    ∧ 1 ≤ Z.of_N 2.
Proof.
  apply (transaction_ids_increase "app" false true 2 tx_without_locks);
    [reflexivity | reflexivity | discriminate
    | reflexivity | reflexivity | reflexivity | reflexivity].
Defined.

(** X24.  Identifier 0 is not handed out.  With the counter of the [txids]
    node at 0 and the nodes of the transactions 0 and 1 not there,
    [get_transaction_id] on a service without faults returns 1: the node
    with number 0 is created, removed again, and is not there afterwards;
    the one delete request is the one for that node. *)
Theorem identifier_zero_is_skipped (app : string) w :
  faults w = [] →
  next_seq w (Key.tx_root app) = 0%N →
  nodes w !! Key.tx app 0 = None →
  (∀ c, nodes w !! (Key.tx app 0 ++ [c]) = None) →
  nodes w !! Key.tx app 1 = None →
  ∃ w' new,
    get_transaction_id app false w = (Ok 1, w')
    ∧ nodes w' !! Key.tx app 0 = None
    ∧ nodes w' !! Key.tx app 1 = Some (str_time (now w))
    ∧ (∀ p v, nodes w !! p = Some v → nodes w' !! p = Some v)
    ∧ log w' = new ++ log w
    ∧ deletions new = [get_transaction_path app 0].
Proof.
  destruct w as [m sq se fl lg t]. unfold next_seq. cbn [nodes seqs faults log now].
  intros -> Hn H0 Hc H1.
  destruct (get_id_first se t app m sq lg Hn H0 Hc H1)
    as (m' & sq' & lg' & G1 & G2 & G3 & G4 & G5).
  eexists _, lg'. split; [exact G1|]. cbn [nodes log].
  repeat (split; [done|]). rewrite G5. f_equal.
  apply numbered_is_transaction_path.
Qed.

Lemma identifier_zero_is_skipped_witness :
  ∃ w' new,
    get_transaction_id "app" false empty_service = (Ok 1, w')
    ∧ nodes w' !! Key.tx "app" 0 = None
    ∧ nodes w' !! Key.tx "app" 1 = Some (str_time (now empty_service))
    ∧ (∀ p v, nodes empty_service !! p = Some v → nodes w' !! p = Some v)
    ∧ log w' = new ++ log empty_service
    ∧ deletions new = [get_transaction_path "app" 0].
Proof.
  apply (identifier_zero_is_skipped "app" empty_service);
    [reflexivity | reflexivity | reflexivity
    | intros c; apply lookup_empty | reflexivity].
Defined.

End Ids.

(** ** A transaction from its first lock to its release *)

Module Lifecycle.
Import PyStrFacts PathFacts Steps Paths Tree Calls Status Release Locks.

Lemma after_delete_leaf (m : gmap (list string) string) (p : list string) :
  (∀ c, m !! (p ++ [c]) = None) → after_delete m p = delete p m.
Proof.
  intros Hc. unfold after_delete.
  destruct (m !! p) eqn:E; [|by rewrite delete_id].
  by rewrite (proj2 (children_nil m p) Hc).
Qed.

Lemma call_delete_leaf (m : gmap (list string) string) sq se lg t
    (s : string) (p : list string) (v : string) :
  parse_path s = Some p → m !! p = Some v → (∀ c, m !! (p ++ [c]) = None) →
  call Delete [PStr s] (World m sq se [] lg t)
  = (Ok (PBool true),
     World (delete p m) sq se [] (Req Delete [PStr s] :: lg) t).
Proof.
  intros Hp Hv Hc. rewrite (call_clean _ _ (RDelete s false)) by done.
  cbn [perform]. unfold do_delete, add_log. rewrite Hp.
  cbn [nodes seqs session faults log now]. rewrite Hv.
  by rewrite (proj2 (children_nil m p) Hc).
Qed.

Section clean.
Context (sq : gmap (list string) N) (se : nat) (t : Z).
Context (app : string) (txid : Z) (key : string).
Context (m : gmap (list string) string).
Context (Hb : m !! Key.blacklisted app txid = None).
Context (Ht : is_Some (m !! Key.tx app txid)).
Context (Hl : m !! Key.lock_list app txid = Some (get_lock_root_path app key)).
Context (Hrc : ∀ c, m !! (Key.lock_root app key ++ [c]) = None).
Context (Hlc : ∀ c, m !! (Key.lock_list app txid ++ [c]) = None).
Context (Hxc : ∀ c, m !! (Key.xg app txid ++ [c]) = None).
Context (Htc : ∀ c, c ≠ TX_LOCK_PATH → c ≠ XG_PREFIX →
                    m !! (Key.tx app txid ++ [c]) = None).

Local Abbreviation W m lg := (World m sq se [] lg t).
Local Abbreviation m1 := (with_blacklist_root app m).
Local Abbreviation m2 := (delete (Key.lock_root app key) m1).
Local Abbreviation m3 := (delete (Key.lock_list app txid) m2).
Local Abbreviation m4 := (delete (Key.xg app txid) m3).

Lemma release_step_lock lg :
zk DeleteAsync [PStr (get_lock_root_path app key)] (W m1 lg)
= (Ok PAsync, W m2 (Req DeleteAsync [PStr (get_lock_root_path app key)] :: lg)).
Proof.
apply zk_ok. rewrite (call_delete_async _ _ _ _ _ _ (Key.lock_root app key))
  by apply parse_lock_root.
rewrite after_delete_leaf; [done|]. intros c.
rewrite with_blacklist_root_deep by (cbn; lia). apply Hrc.
Qed.

Lemma release_step_list lg :
zk Delete [PStr (get_transaction_lock_list_path app txid)] (W m2 lg)
= (Ok (PBool true),
   W m3 (Req Delete [PStr (get_transaction_lock_list_path app txid)] :: lg)).
Proof.
apply zk_ok. eapply call_delete_leaf; [apply parse_lock_list| |].
- rewrite lookup_delete_ne by apply lock_root_not_lock_list.
  rewrite with_blacklist_root_deep by (cbn; lia). exact Hl.
- intros c. rewrite lookup_delete_ne by (by intros [= ?]).
  rewrite with_blacklist_root_deep by (cbn; lia). apply Hlc.
Qed.

Lemma m3_xg : m3 !! Key.xg app txid = m !! Key.xg app txid.
Proof.
rewrite lookup_delete_ne by (by intros [= ?]).
rewrite lookup_delete_ne by apply lock_root_not_xg.
apply with_blacklist_root_deep. cbn. lia.
Qed.

Lemma m4_children c : m4 !! (Key.tx app txid ++ [c]) = None.
Proof.
destruct (decide (c = XG_PREFIX)) as [->|Hx]; [apply lookup_delete_eq|].
rewrite lookup_delete_ne by (intros [= ?]; by apply Hx).
destruct (decide (c = TX_LOCK_PATH)) as [->|Hk]; [apply lookup_delete_eq|].
rewrite lookup_delete_ne by (intros [= ?]; by apply Hk).
apply lookup_delete_None. right.
rewrite with_blacklist_root_deep by (cbn; lia). by apply Htc.
Qed.

Lemma m4_tx : is_Some (m4 !! Key.tx app txid).
Proof.
destruct Ht as [v Hv]. exists v.
rewrite lookup_delete_ne by apply not_eq_sym, Ids.tx_not_xg.
rewrite lookup_delete_ne by (by intros [= ?]).
rewrite lookup_delete_ne by (by intros [= ?]).
by apply with_blacklist_root_keeps.
Qed.

Lemma release_step_xg {B} (k : M B) lg :
∃ lg',
  (x <- is_xg app txid ;;
   (if x then zk DeleteAsync [PStr (get_xg_path app txid)] ;; ret tt
    else ret tt) ;;
   k) (W m3 lg)
  = k (W m4 (lg' ++ lg)).
Proof.
destruct (m !! Key.xg app txid) as [x|] eqn:E.
- exists [Req DeleteAsync [PStr (get_xg_path app txid)];
          Req Exists [PStr (get_xg_path app txid)]].
  eapply bind_ok; [apply is_xg_clean|].
  rewrite bool_decide_eq_true_2 by (rewrite m3_xg, E; eauto).
  eapply bind_ok; [|reflexivity].
  eapply bind_ok; [|reflexivity]. apply zk_ok.
  rewrite (call_delete_async _ _ _ _ _ _ (Key.xg app txid)) by apply parse_xg.
  rewrite after_delete_leaf; [done|]. intros c.
  rewrite lookup_delete_ne by (by intros [= ?]).
  rewrite lookup_delete_ne by (by intros [= ?]).
  rewrite with_blacklist_root_deep by (cbn; lia). apply Hxc.
- exists [Req Exists [PStr (get_xg_path app txid)]].
  eapply bind_ok; [apply is_xg_clean|].
  rewrite bool_decide_eq_false_2 by (rewrite m3_xg, E; by intros [? ?]).
  rewrite (delete_id m3 (Key.xg app txid)) by (by rewrite m3_xg).
  reflexivity.
Qed.

Lemma release_single lg :
∃ lg', release_lock app txid (W m lg)
       = (Ok true, W (released app txid key m) lg').
Proof.
edestruct (release_step_xg
   (v <- zk GetChildren [PStr (get_transaction_path app txid)] ;;
    cs <- get_list v ;;
    for_each cs (fun child =>
      zk DeleteAsync [PStr (join PATH_SEPARATOR
                              [get_transaction_path app txid; child])] ;;
      ret tt) ;;
    zk DeleteAsync [PStr (get_transaction_path app txid)] ;;
    ret true)
   (Req Delete [PStr (get_transaction_lock_list_path app txid)]
    :: Req DeleteAsync [PStr (get_lock_root_path app key)]
    :: Req Get [PStr (get_transaction_lock_list_path app txid)]
    :: Req Exists [PStr (get_transaction_path app txid)]
    :: blacklist_lookup app m ++ lg)) as [lgx Hx].
eexists. unfold release_lock.
eapply bind_ok; [by apply check_transaction_live|].
eapply bind_ok.
{ eapply try_ok. eapply bind_ok.
  { apply zk_ok. eapply call_get; [apply parse_lock_list|].
    rewrite with_blacklist_root_deep by (cbn; lia). exact Hl. }
  eapply bind_ok; [reflexivity|]. cbn beta zeta.
  rewrite split_one_entry by apply lock_root_path_plain.
  eapply bind_ok.
  { cbn [for_each]. eapply bind_ok.
    - eapply bind_ok; [apply release_step_lock|reflexivity].
    - reflexivity. }
  eapply bind_ok; [apply release_step_list|]. reflexivity. }
cbn beta iota. rewrite Hx.
destruct m4_tx as [tv Htv].
eapply bind_ok.
{ apply zk_ok. eapply call_children; [apply parse_tx|exact Htv]. }
eapply bind_ok; [reflexivity|].
rewrite (proj2 (children_nil _ _) m4_children).
eapply bind_ok; [reflexivity|].
eapply bind_ok; [|reflexivity]. apply zk_ok.
rewrite (call_delete_async _ _ _ _ _ _ (Key.tx app txid)) by apply parse_tx.
rewrite after_delete_leaf by apply m4_children. reflexivity.
Qed.

End clean.

Lemma released_frame (app : string) (txid : Z) (key : string)
    (m : gmap (list string) string) :
  released app txid key m !! Key.lock_root app key = None
  ∧ released app txid key m !! Key.lock_list app txid = None
  ∧ released app txid key m !! Key.xg app txid = None
  ∧ released app txid key m !! Key.tx app txid = None
  ∧ (∀ p v, m !! p = Some v →
       p ≠ Key.lock_root app key → p ≠ Key.lock_list app txid →
       p ≠ Key.xg app txid → p ≠ Key.tx app txid →
       released app txid key m !! p = Some v).
Proof.
  unfold released. repeat split.
  - apply lookup_delete_None. right. apply lookup_delete_None. right.
    apply lookup_delete_None. right. apply lookup_delete_eq.
  - apply lookup_delete_None. right. apply lookup_delete_None. right.
    apply lookup_delete_eq.
  - apply lookup_delete_None. right. apply lookup_delete_eq.
  - apply lookup_delete_eq.
  - intros p v Hp H1 H2 H3 H4. rewrite !lookup_delete_ne by done.
    by apply with_blacklist_root_keeps.
Qed.

(** X25.  [release_lock] cleans up.  The transaction is not blacklisted,
    its lock list names the lock root of [key], its only children are the
    lock list and the [xg] marker, and nothing lies below these or below the
    lock root.  On a service without faults [release_lock] answers [True];
    afterwards the lock root, the lock list, the marker and the transaction
    node are gone, and every other node is kept. *)
Theorem release_lock_cleans_up (app : string) (txid : Z) (key : string) w :
  faults w = [] → holds_one_lock app txid key (nodes w) →
  ∃ w',
    release_lock app txid w = (Ok true, w')
    ∧ nodes w' !! Key.lock_root app key = None
    ∧ nodes w' !! Key.lock_list app txid = None
    ∧ nodes w' !! Key.xg app txid = None
    ∧ nodes w' !! Key.tx app txid = None
    ∧ (∀ p v, nodes w !! p = Some v →
         p ≠ Key.lock_root app key → p ≠ Key.lock_list app txid →
         p ≠ Key.xg app txid → p ≠ Key.tx app txid →
         nodes w' !! p = Some v).
Proof.
  destruct w as [m sq se fl lg t]. cbn. intros -> [H1 H2 H3 H4 H5 H6 H7].
  destruct (release_single sq se t app txid key m H1 H2 H3 H4 H5 H6 H7 lg)
    as [lg' Hr].
  eexists. split; [exact Hr|]. apply released_frame.
Qed.

Lemma one_lock_held_state : holds_one_lock "app" 1 "k1" (nodes one_lock_held).
Proof.
  split; try reflexivity.
  - vm_compute. eauto.
  - intros c. apply eq_None_not_Some. rewrite <- elem_of_children.
    replace (children _ _) with (@nil string) by (vm_compute; reflexivity).
    apply not_elem_of_nil.
  - intros c. apply eq_None_not_Some. rewrite <- elem_of_children.
    replace (children _ _) with (@nil string) by (vm_compute; reflexivity).
    apply not_elem_of_nil.
  - intros c. apply eq_None_not_Some. rewrite <- elem_of_children.
    replace (children _ _) with (@nil string) by (vm_compute; reflexivity).
    apply not_elem_of_nil.
  - intros c Hc Hx. apply eq_None_not_Some. rewrite <- elem_of_children.
    replace (children (nodes one_lock_held) (Key.tx "app" 1))
      with ["lockpath"] by (vm_compute; reflexivity).
    by intros ->%list_elem_of_singleton.
Defined.

Lemma release_lock_cleans_up_witness :
  ∃ w',
    release_lock "app" 1 one_lock_held = (Ok true, w')
    ∧ nodes w' !! Key.lock_root "app" "k1" = None
    ∧ nodes w' !! Key.lock_list "app" 1 = None
    ∧ nodes w' !! Key.xg "app" 1 = None
    ∧ nodes w' !! Key.tx "app" 1 = None
    ∧ (∀ p v, nodes one_lock_held !! p = Some v →
         p ≠ Key.lock_root "app" "k1" → p ≠ Key.lock_list "app" 1 →
         p ≠ Key.xg "app" 1 → p ≠ Key.tx "app" 1 →
         nodes w' !! p = Some v).
Proof.
  apply release_lock_cleans_up; [reflexivity|apply one_lock_held_state].
Defined.

(** The name-space after the first [acquire_lock] of a transaction. *)
Lemma first_lock_state (app : string) (txid : Z) (key : string)
    (m : gmap (list string) string) :
  m !! Key.blacklisted app txid = None →
  is_Some (m !! Key.tx app txid) →
  m !! Key.lock_list app txid = None →
  (∀ c, m !! (Key.lock_root app key ++ [c]) = None) →
  (∀ c, m !! (Key.lock_list app txid ++ [c]) = None) →
  (∀ c, m !! (Key.xg app txid ++ [c]) = None) →
  (∀ c, c ≠ XG_PREFIX → m !! (Key.tx app txid ++ [c]) = None) →
  let ma := <[Key.lock_list app txid := get_lock_root_path app key]>
              (<[Key.lock_root app key := get_transaction_path app txid]>
                 (with_locks_dir app (with_blacklist_root app m))) in
  after_create
    (<[Key.lock_root app key := get_transaction_path app txid]>
       (with_locks_dir app (with_blacklist_root app m)))
    (Key.lock_list app txid) (get_lock_root_path app key) = ma
  ∧ holds_one_lock app txid key ma.
Proof.
  intros Hb [tv Ht] Hl Hrc Hlc Hxc Htc ma.
  assert (∀ p, (5 < length p)%nat → p ≠ Key.lock_list app txid →
               ma !! p = m !! p) as Hdeep.
  { intros p Hp Hne. unfold ma. rewrite lookup_insert_ne by done.
    rewrite lookup_insert_ne by (intros <-; cbn in Hp; lia).
    rewrite with_locks_dir_deep by lia.
    by rewrite with_blacklist_root_deep. }
  split.
  - unfold after_create.
    rewrite LockFacts.has_parent_lock_list, bool_decide_eq_true_2.
    + rewrite lookup_insert_ne by apply lock_root_not_lock_list.
      rewrite with_locks_dir_deep by (cbn; lia).
      by rewrite with_blacklist_root_deep, Hl by (cbn; lia).
    + exists tv. rewrite lookup_insert_ne by (by intros [= ?]).
      by apply with_locks_dir_keeps, with_blacklist_root_keeps.
  - split.
    + rewrite Hdeep; [done|cbn; lia|by intros [= ?]].
    + exists tv. unfold ma. rewrite !lookup_insert_ne by (by intros [= ?]).
      by apply with_locks_dir_keeps, with_blacklist_root_keeps.
    + unfold ma. by rewrite lookup_insert_eq.
    + intros c. rewrite Hdeep; [done|cbn; lia|by intros [= ?]].
    + intros c. rewrite Hdeep; [done|cbn; lia|by intros [= ?]].
    + intros c. rewrite Hdeep; [done|cbn; lia|by intros [= ?]].
    + intros c Hc Hx. rewrite Hdeep; [by apply Htc|cbn; lia|].
      intros [= ?]. by apply Hc.
Qed.

Lemma holds_one_lock_mono (app : string) (txid : Z) (key : string)
    (m m' : gmap (list string) string) :
  holds_one_lock app txid key m →
  (∀ p v, m !! p = Some v → m' !! p = Some v) →
  (∀ p, (5 < length p)%nat → m' !! p = m !! p) →
  holds_one_lock app txid key m'.
Proof.
  intros [H1 H2 H3 H4 H5 H6 H7] Hk Hd. split.
  - by rewrite Hd by (cbn; lia).
  - destruct H2 as [v Hv]. exists v. by apply Hk.
  - by apply Hk.
  - intros c. by rewrite Hd by (cbn; lia).
  - intros c. by rewrite Hd by (cbn; lia).
  - intros c. by rewrite Hd by (cbn; lia).
  - intros c Hc Hx. rewrite Hd by (cbn; lia). by apply H7.
Qed.

(** [long("%010d" % z) == z] for every integer. *)
Lemma py_long_fmt_010d_Z z : py_long (fmt_010d z) = Some z.
Proof.
  destruct (Z.ltb_spec z 0) as [Hz|Hz].
  - unfold fmt_010d. rewrite (proj2 (Z.ltb_lt _ _) Hz). unfold pad0.
    cbn [py_long]. rewrite Ids.parse_digits_zeros. cbn. f_equal. lia.
  - rewrite <- (Z2N.id z) by done. apply Ids.py_long_fmt_010d.
Qed.

Lemma fmt_010d_inj (a b : Z) : fmt_010d a = fmt_010d b → a = b.
Proof.
  intros E. apply (f_equal py_long) in E.
  rewrite !py_long_fmt_010d_Z in E. by injection E.
Qed.

Lemma lookup_after_create (m : gmap (list string) string)
    (p q : list string) (v : string) :
  p ≠ q → after_create m q v !! p = m !! p.
Proof.
  intros Hne. unfold after_create.
  destruct (has_parent m q); [|done].
  destruct (m !! q); [done|]. by rewrite lookup_insert_ne.
Qed.

(** X26.  A lock from its acquisition to its release.  Transaction [t1]
    is live and holds no lock, the lock root of [key] is free, and another
    transaction [t2] is live and holds no lock either.  On a service
    without faults: [t1] acquires the lock of [key], and [t2] is refused
    it; after [release_lock] for [t1], which removes the lock root and the
    node of [t1], [t2] acquires the lock of [key]. *)
Theorem lock_is_free_after_release (app : string) (t1 t2 : Z)
    (key : string) w :
  faults w = [] → t1 ≠ t2 →
  nodes w !! Key.blacklisted app t1 = None →
  nodes w !! Key.blacklisted app t2 = None →
  is_Some (nodes w !! Key.tx app t1) →
  nodes w !! Key.lock_list app t1 = None →
  nodes w !! Key.lock_list app t2 = None →
  nodes w !! Key.lock_root app key = None →
  (∀ c, nodes w !! (Key.lock_root app key ++ [c]) = None) →
  (∀ c, nodes w !! (Key.lock_list app t1 ++ [c]) = None) →
  (∀ c, nodes w !! (Key.xg app t1 ++ [c]) = None) →
  (∀ c, c ≠ XG_PREFIX → nodes w !! (Key.tx app t1 ++ [c]) = None) →
  ∃ w1 w2 w3 w4,
    acquire_lock app t1 key w = (Ok true, w1)
    ∧ acquire_lock app t2 key w1
      = (Raise (already_held (get_lock_root_path app key)), w2)
    ∧ release_lock app t1 w2 = (Ok true, w3)
    ∧ nodes w3 !! Key.lock_root app key = None
    ∧ nodes w3 !! Key.tx app t1 = None
    ∧ acquire_lock app t2 key w3 = (Ok true, w4)
    ∧ nodes w4 !! Key.lock_root app key = Some (get_transaction_path app t2).
Proof.
  destruct w as [m sq se fl lg t]. cbn [nodes faults].
  intros -> Hne Hb1 Hb2 Ht1 Hl1 Hl2 Hr Hrc Hlc Hxc Htc.
  destruct (first_lock_state app t1 key m Hb1 Ht1 Hl1 Hrc Hlc Hxc Htc)
    as [Hma Hs].
  set (ma := <[Key.lock_list app t1 := get_lock_root_path app key]>
               (<[Key.lock_root app key := get_transaction_path app t1]>
                  (with_locks_dir app (with_blacklist_root app m)))) in *.
  assert (∀ p, (5 < length p)%nat → p ≠ Key.lock_list app t1 →
               ma !! p = m !! p) as Hdeep.
  { intros p Hp Hq. unfold ma. rewrite lookup_insert_ne by done.
    rewrite lookup_insert_ne by (intros <-; cbn in Hp; lia).
    rewrite with_locks_dir_deep by lia.
    by rewrite with_blacklist_root_deep. }
  assert (Key.lock_list app t2 ≠ Key.lock_list app t1) as Hll.
  { intros [= E]. apply Hne. symmetry. by apply fmt_010d_inj. }
  set (m2 := with_locks_dir app (with_blacklist_root app ma)).
  assert (holds_one_lock app t1 key m2) as Hs2.
  { apply (holds_one_lock_mono app t1 key ma); [done| |].
    - intros p v Hp. by apply with_locks_dir_keeps, with_blacklist_root_keeps.
    - intros p Hp. unfold m2. rewrite with_locks_dir_deep by lia.
      by apply with_blacklist_root_deep. }
  destruct Hs2 as [G1 G2 G3 G4 G5 G6 G7].
  destruct (release_single sq se t app t1 key m2 G1 G2 G3 G4 G5 G6 G7
              (Req Get [PStr (get_lock_root_path app key)]
               :: Req Create (mk_args (get_lock_root_path app key)
                                      (get_transaction_path app t2))
               :: not_in_transaction_log app t2 ma
                    (Req CreateAsync
                       [PStr (get_transaction_lock_list_path app t1);
                        PStr (get_lock_root_path app key); ZOO_ACL_OPEN;
                        PBool false; PBool false]
                     :: Req Create (mk_args (get_lock_root_path app key)
                                            (get_transaction_path app t1))
                     :: not_in_transaction_log app t1 m lg)))
    as [lg3 H3].
  set (m3 := released app t1 key m2) in *.
  destruct (released_frame app t1 key m2) as (F1 & F2 & F3 & F4 & F5).
  fold m3 in F1, F2, F3, F4, F5.
  assert (∀ p, (5 < length p)%nat → m2 !! p = None → m3 !! p = None) as Hnone.
  { intros p Hp Hn. unfold m3, released.
    do 4 (apply lookup_delete_None; right).
    by rewrite with_blacklist_root_deep. }
  assert (∀ p, (5 < length p)%nat → p ≠ Key.lock_list app t1 →
               m !! p = None → m3 !! p = None) as Hnone'.
  { intros p Hp Hq Hn. apply Hnone; [done|]. unfold m2.
    rewrite with_locks_dir_deep by lia.
    rewrite with_blacklist_root_deep by done. by rewrite Hdeep. }
  eexists _, _, _, _.
  split; [|split; [|split; [|split; [|split; [|split]]]]].
  - rewrite acquire_lock_fresh by done.
    rewrite acquire_additional_lock_first
      by (by rewrite with_blacklist_root_lock_root).
    rewrite Hma. reflexivity.
  - rewrite acquire_lock_fresh;
      [|by rewrite Hdeep by (cbn; lia || by intros [= ?])
       |by rewrite Hdeep by (cbn; lia || done)].
    eapply acquire_additional_lock_held.
    rewrite with_blacklist_root_lock_root. unfold ma.
    rewrite lookup_insert_ne by (by intros [= ?]).
    by rewrite lookup_insert_eq.
  - fold m2. exact H3.
  - exact F1.
  - exact F4.
  - rewrite acquire_lock_fresh;
      [|apply Hnone'; [cbn; lia|by intros [= ?]|done]
       |apply Hnone'; [cbn; lia|done|done]].
    rewrite acquire_additional_lock_first
      by (by rewrite with_blacklist_root_lock_root).
    reflexivity.
  - cbn [nodes]. rewrite lookup_after_create by apply lock_root_not_lock_list.
    by rewrite lookup_insert_eq.
Qed.

Lemma lock_is_free_after_release_witness :
  ∃ w1 w2 w3 w4,
    acquire_lock "app" 1 "k" tx_without_locks = (Ok true, w1)
    ∧ acquire_lock "app" 5 "k" w1
      = (Raise (already_held (get_lock_root_path "app" "k")), w2)
    ∧ release_lock "app" 1 w2 = (Ok true, w3)
    ∧ nodes w3 !! Key.lock_root "app" "k" = None
    ∧ nodes w3 !! Key.tx "app" 1 = None
    ∧ acquire_lock "app" 5 "k" w3 = (Ok true, w4)
    ∧ nodes w4 !! Key.lock_root "app" "k"
      = Some (get_transaction_path "app" 5).
Proof.
  apply lock_is_free_after_release;
    [reflexivity | discriminate | reflexivity | reflexivity
    | vm_compute; eauto | reflexivity | reflexivity | reflexivity
    | | | | ].
  - intros c. apply eq_None_not_Some. rewrite <- elem_of_children.
    replace (children _ _) with (@nil string) by (vm_compute; reflexivity).
    apply not_elem_of_nil.
  - intros c. apply eq_None_not_Some. rewrite <- elem_of_children.
    replace (children _ _) with (@nil string) by (vm_compute; reflexivity).
    apply not_elem_of_nil.
  - intros c. apply eq_None_not_Some. rewrite <- elem_of_children.
    replace (children _ _) with (@nil string) by (vm_compute; reflexivity).
    apply not_elem_of_nil.
  - intros c Hx. apply eq_None_not_Some. rewrite <- elem_of_children.
    replace (children (nodes tx_without_locks) (Key.tx "app" 1))
      with ["xg"] by (vm_compute; reflexivity).
    by intros ->%list_elem_of_singleton.
Defined.

End Lifecycle.

(** ** Failure of a transaction *)

Module Failure.
Import PyStrFacts PathFacts Steps Paths Tree Calls Status Release Locks.
Import Journal Lifecycle.

Lemma NoDup_children (m : gmap (list string) string) (p : list string) :
  NoDup (children m p).
Proof.
  unfold children.
  pose proof (NoDup_fst_map_to_list m) as Hn.
  induction (map_to_list m) as [|[k v] l IH]; [constructor|].
  cbn in Hn. apply NoDup_cons in Hn as [Hk Hl]. cbn.
  destruct (child_name p k) as [c|] eqn:E; [|by apply IH].
  apply NoDup_cons. split; [|by apply IH].
  intros Hc. apply list_elem_of_omap in Hc as [[k' v'] [Hin Hc]].
  cbn in Hc. apply child_name_spec in E, Hc. subst. apply Hk.
  apply list_elem_of_fmap. by exists (p ++ [c], v').
Qed.

Lemma children_only (m : gmap (list string) string) (p : list string)
    (a : string) :
  (∀ c, is_Some (m !! (p ++ [c])) ↔ c = a) → children m p = [a].
Proof.
  intros H. apply Permutation_singleton_r.
  apply NoDup_Permutation; [apply NoDup_children|apply NoDup_singleton|].
  intros c. by rewrite elem_of_children, H, list_elem_of_singleton.
Qed.

Lemma skip_loop (app : string) (txid : Z) (l : list string) w :
  Forall (fun c => match_prefix TX_UPDATEDKEY_PREFIX c = false) l →
  for_each l (fun child =>
    if match_prefix TX_UPDATEDKEY_PREFIX child then
      v <- call Get [PStr (join PATH_SEPARATOR
                             [get_transaction_path app txid; child])] ;;
      value <- get_str v ;;
      let valuelist := split PATH_SEPARATOR value in
      let key := unquote_plus (nth 0 valuelist "") in
      vid <- match nth_error valuelist 1 with
             | Some x => ret x
             | None => raise IndexError
             end ;;
      ensure_root (get_valid_transaction_root_path app) ;;
      let vtxpath := get_valid_transaction_path app key in
      call CreateAsync [PStr vtxpath; PStr vid; ZOO_ACL_OPEN] ;;
      ret tt
    else ret tt) w
  = (Ok tt, w).
Proof.
  induction l as [|c l IH]; intros Hl; [done|].
  apply Forall_cons in Hl as [Hc Hl]. cbn [for_each]. rewrite Hc.
  eapply bind_ok; [reflexivity|]. by apply IH.
Qed.

Lemma ensure_blacklist_root (app : string) (m : gmap (list string) string)
    sq se lg t :
  ∃ lg',
    ensure_root (get_blacklist_root_path app) (World m sq se [] lg t)
    = (Ok tt, World (with_blacklist_root app m) sq se [] (lg' ++ lg) t).
Proof.
  unfold ensure_root, with_blacklist_root.
  destruct (m !! Key.blacklist app) as [d|] eqn:E.
  - exists [Req Exists [PStr (get_blacklist_root_path app)]].
    eapply bind_ok; [apply call_exists, parse_blacklist|].
    by rewrite bool_decide_eq_true_2 by (rewrite E; eauto).
  - exists [Req Create (mk_args (get_blacklist_root_path app) DEFAULT_VAL);
            Req Exists [PStr (get_blacklist_root_path app)]].
    eapply bind_ok; [apply call_exists, parse_blacklist|].
    rewrite bool_decide_eq_false_2 by (rewrite E; by intros [? ?]).
    cbn [truthy negb]. eapply bind_ok; [|reflexivity].
    eapply call_create_new; [apply parse_blacklist|].
    rewrite ensure_path_longer by (cbn; lia). exact E.
Qed.

Section clean.
Context (sq : gmap (list string) N) (se : nat) (t : Z).
Context (app : string) (txid : Z) (key : string).
Context (m : gmap (list string) string).
Context (Hs : holds_one_lock app txid key m).

Local Abbreviation W m lg := (World m sq se [] lg t).
Local Abbreviation m1 := (with_blacklist_root app m).
Local Abbreviation m2 := (<[Key.blacklisted app txid := str_time t]> m1).
Local Abbreviation m3 := (delete (Key.lock_root app key) m2).
Local Abbreviation m4 := (delete (Key.xg app txid) m3).
Local Abbreviation m5 := (delete (Key.lock_list app txid) m4).

Lemma m2_deep p :
(5 < length p)%nat → p ≠ Key.blacklisted app txid → m2 !! p = m !! p.
Proof.
intros Hp Hne. rewrite lookup_insert_ne by done.
by apply with_blacklist_root_deep.
Qed.

Lemma m2_tx : is_Some (m2 !! Key.tx app txid).
Proof.
destruct (hol_tx _ _ _ _ Hs) as [v Hv]. exists v.
rewrite lookup_insert_ne by (by intros [= ?]).
by apply with_blacklist_root_keeps.
Qed.

Lemma m2_children_skipped :
Forall (fun c => match_prefix TX_UPDATEDKEY_PREFIX c = false)
       (children m2 (Key.tx app txid)).
Proof.
apply Forall_forall. intros c [v Hc]%elem_of_children.
destruct (decide (c = TX_LOCK_PATH)) as [->|H1]; [done|].
destruct (decide (c = XG_PREFIX)) as [->|H2]; [done|].
rewrite m2_deep in Hc by (cbn; lia || by intros [= ?]).
by rewrite (hol_children _ _ _ _ Hs) in Hc.
Qed.

Lemma m4_only_lock_list :
children m4 (Key.tx app txid) = [TX_LOCK_PATH].
Proof.
apply children_only. intros c. split.
- intros [v Hc].
  destruct (decide (c = TX_LOCK_PATH)) as [->|H1]; [done|].
  destruct (decide (c = XG_PREFIX)) as [->|H2].
  { by rewrite lookup_delete_eq in Hc. }
  rewrite lookup_delete_ne in Hc by (intros [= ?]; by apply H2).
  rewrite lookup_delete_ne in Hc by (by intros [= ?]).
  rewrite m2_deep in Hc by (cbn; lia || by intros [= ?]).
  by rewrite (hol_children _ _ _ _ Hs) in Hc.
- intros ->. exists (get_lock_root_path app key).
  rewrite lookup_delete_ne by (by intros [= ?]).
  rewrite lookup_delete_ne by (by intros [= ?]).
  rewrite m2_deep by (cbn; lia || by intros [= ?]).
  apply (hol_list _ _ _ _ Hs).
Qed.

Lemma m5_no_children c : m5 !! (Key.tx app txid ++ [c]) = None.
Proof.
destruct (decide (c = TX_LOCK_PATH)) as [->|H1]; [apply lookup_delete_eq|].
rewrite lookup_delete_ne by (intros [= ?]; by apply H1).
apply eq_None_not_Some. rewrite <- elem_of_children, m4_only_lock_list.
by intros ?%list_elem_of_singleton.
Qed.

Lemma blacklist_entry_created :
after_create m1 (Key.blacklisted app txid) (str_time t) = m2.
Proof.
unfold after_create.
change (has_parent m1 (Key.blacklisted app txid))
  with (bool_decide (is_Some (m1 !! Key.blacklist app))).
rewrite bool_decide_eq_true_2 by apply with_blacklist_root_has.
rewrite with_blacklist_root_deep by (cbn; lia).
by rewrite (hol_live _ _ _ _ Hs).
Qed.

Lemma notify_step_lock lg :
call DeleteAsync [PStr (get_lock_root_path app key)] (W m2 lg)
= (Ok PAsync, W m3 (Req DeleteAsync [PStr (get_lock_root_path app key)] :: lg)).
Proof.
rewrite (call_delete_async _ _ _ _ _ _ (Key.lock_root app key))
  by apply parse_lock_root.
rewrite after_delete_leaf; [done|]. intros c.
rewrite m2_deep by (cbn; lia || by intros [= ?]).
apply (hol_root_leaf _ _ _ _ Hs).
Qed.

Lemma notify_step_xg {B} (k : M B) lg :
∃ lg',
  (x <- is_xg app txid ;;
   (if x then call DeleteAsync [PStr (get_xg_path app txid)] ;; ret tt
    else ret tt) ;;
   k) (W m3 lg)
  = k (W m4 lg').
Proof.
assert (m3 !! Key.xg app txid = m !! Key.xg app txid) as Hx.
{ rewrite lookup_delete_ne by (by intros [= ?]).
  apply m2_deep; [cbn; lia|by intros [= ?]]. }
destruct (m !! Key.xg app txid) as [x|] eqn:E.
- eexists. eapply bind_ok; [apply is_xg_clean|].
  rewrite bool_decide_eq_true_2 by (rewrite Hx; eauto).
  eapply bind_ok; [|reflexivity].
  eapply bind_ok; [|reflexivity].
  rewrite (call_delete_async _ _ _ _ _ _ (Key.xg app txid)) by apply parse_xg.
  rewrite after_delete_leaf; [done|]. intros c.
  rewrite lookup_delete_ne by (by intros [= ?]).
  rewrite m2_deep by (cbn; lia || by intros [= ?]).
  apply (hol_xg_leaf _ _ _ _ Hs).
- eexists. eapply bind_ok; [apply is_xg_clean|].
  rewrite bool_decide_eq_false_2 by (rewrite Hx; by intros [? ?]).
  rewrite (delete_id m3 (Key.xg app txid)) by done.
  reflexivity.
Qed.

Lemma notify_step_remove lg :
(v <- call GetChildren [PStr (get_transaction_path app txid)] ;;
 items <- get_list v ;;
 for_each items (fun item =>
   call DeleteAsync [PStr (join PATH_SEPARATOR
                             [get_transaction_path app txid; item])] ;;
   call DeleteAsync [PStr (get_transaction_path app txid)] ;;
   ret tt)) (W m4 lg)
= (Ok tt,
   W (failed app txid key t m)
     (Req DeleteAsync [PStr (get_transaction_path app txid)]
      :: Req DeleteAsync [PStr (get_transaction_lock_list_path app txid)]
      :: Req GetChildren [PStr (get_transaction_path app txid)] :: lg)).
Proof.
assert (is_Some (m4 !! Key.tx app txid)) as [tv Htv].
{ destruct m2_tx as [v Hv]. exists v.
  rewrite lookup_delete_ne by (by intros [= ?]).
  by rewrite lookup_delete_ne by (by intros [= ?]). }
eapply bind_ok; [eapply call_children; [apply parse_tx|exact Htv]|].
eapply bind_ok; [reflexivity|]. rewrite m4_only_lock_list.
cbn [for_each]. eapply bind_ok; [|reflexivity].
eapply bind_ok.
{ apply (call_delete_async _ _ _ _ _ _ (Key.lock_list app txid)).
  apply parse_lock_list. }
rewrite after_delete_leaf.
2:{ intros c. rewrite lookup_delete_ne by (by intros [= ?]).
    rewrite lookup_delete_ne by (by intros [= ?]).
    rewrite m2_deep by (cbn; lia || by intros [= ?]).
    apply (hol_list_leaf _ _ _ _ Hs). }
eapply bind_ok; [|reflexivity].
rewrite (call_delete_async _ _ _ _ _ _ (Key.tx app txid)) by apply parse_tx.
by rewrite after_delete_leaf by apply m5_no_children.
Qed.

Lemma notify_single lg :
∃ lg',
  notify_failed_transaction app txid (W m lg)
  = (Ok (PBool true), W (failed app txid key t m) lg').
Proof.
destruct (ensure_blacklist_root app m sq se
            (Req Get [PStr (get_transaction_lock_list_path app txid)]
             :: NotifyFailed app txid :: lg) t) as [lgb Hb].
set (lg2 := Req DeleteAsync [PStr (get_lock_root_path app key)]
            :: Req GetChildren [PStr (get_transaction_path app txid)]
            :: Req CreateAsync
                 [PStr (join PATH_SEPARATOR
                          [get_blacklist_root_path app; str_int txid]);
                  PStr (str_time t); ZOO_ACL_OPEN]
            :: lgb ++ Req Get [PStr (get_transaction_lock_list_path app txid)]
            :: NotifyFailed app txid :: lg).
edestruct (notify_step_xg
  (v <- call GetChildren [PStr (get_transaction_path app txid)] ;;
   items <- get_list v ;;
   for_each items (fun item =>
     call DeleteAsync [PStr (join PATH_SEPARATOR
                               [get_transaction_path app txid; item])] ;;
     call DeleteAsync [PStr (get_transaction_path app txid)] ;;
     ret tt)) lg2) as [lgx Hx].
eexists. unfold notify_failed_transaction.
eapply bind_ok; [reflexivity|].
eapply bind_ok.
{ eapply try_ok. eapply bind_ok.
  - eapply call_get; [apply parse_lock_list|apply (hol_list _ _ _ _ Hs)].
  - reflexivity. }
cbn beta iota.
rewrite split_one_entry by apply lock_root_path_plain.
eapply bind_ok; [|reflexivity].
eapply try_ok. unfold notify_failed_body.
eapply bind_ok.
{ eapply bind_ok; [reflexivity|]. cbn [now].
  eapply bind_ok; [exact Hb|].
  eapply bind_ok.
  { eapply call_create_async; [apply parse_blacklisted|by left]. }
  rewrite blacklist_entry_created. destruct m2_tx as [tv Htv].
  eapply bind_ok; [eapply call_children; [apply parse_tx|exact Htv]|].
  eapply bind_ok; [reflexivity|].
  apply skip_loop, m2_children_skipped. }
eapply bind_ok.
{ cbn [for_each]. eapply bind_ok.
  - eapply bind_ok; [apply notify_step_lock|reflexivity].
  - reflexivity. }
fold lg2. rewrite Hx. apply notify_step_remove.
Qed.

End clean.

Lemma failed_frame (app : string) (txid : Z) (key : string) (t : Z)
    (m : gmap (list string) string) :
  failed app txid key t m !! Key.blacklisted app txid = Some (str_time t)
  ∧ failed app txid key t m !! Key.lock_root app key = None
  ∧ failed app txid key t m !! Key.lock_list app txid = None
  ∧ failed app txid key t m !! Key.xg app txid = None
  ∧ failed app txid key t m !! Key.tx app txid = None
  ∧ (∀ p v, m !! p = Some v →
       p ≠ Key.blacklisted app txid → p ≠ Key.lock_root app key →
       p ≠ Key.lock_list app txid → p ≠ Key.xg app txid →
       p ≠ Key.tx app txid → failed app txid key t m !! p = Some v).
Proof.
  unfold failed. repeat split.
  - rewrite !lookup_delete_ne by (by intros [= ?]). apply lookup_insert_eq.
  - do 3 (apply lookup_delete_None; right). apply lookup_delete_eq.
  - apply lookup_delete_None; right. apply lookup_delete_eq.
  - do 2 (apply lookup_delete_None; right). apply lookup_delete_eq.
  - apply lookup_delete_eq.
  - intros p v Hp H0 H1 H2 H3 H4. rewrite !lookup_delete_ne by done.
    rewrite lookup_insert_ne by done. by apply with_blacklist_root_keeps.
Qed.

(** X27.  The failure of a transaction that holds one lock (its state as
    in X25), on a service without faults.  [notify_failed_transaction]
    answers [True]; afterwards the transaction is on the blacklist with the
    time of the call, the lock root, the lock list, the marker and the
    transaction node are gone, every other node is kept, and
    [check_transaction] raises the timed-out exception. *)
Theorem failed_transaction_is_blacklisted (app : string) (txid : Z)
    (key : string) w :
  faults w = [] → holds_one_lock app txid key (nodes w) →
  ∃ w' w'',
    notify_failed_transaction app txid w = (Ok (PBool true), w')
    ∧ nodes w' !! Key.blacklisted app txid = Some (str_time (now w))
    ∧ nodes w' !! Key.lock_root app key = None
    ∧ nodes w' !! Key.lock_list app txid = None
    ∧ nodes w' !! Key.xg app txid = None
    ∧ nodes w' !! Key.tx app txid = None
    ∧ (∀ p v, nodes w !! p = Some v →
         p ≠ Key.blacklisted app txid → p ≠ Key.lock_root app key →
         p ≠ Key.lock_list app txid → p ≠ Key.xg app txid →
         p ≠ Key.tx app txid → nodes w' !! p = Some v)
    ∧ check_transaction app txid w' = (Raise (timed_out txid), w'').
Proof.
  destruct w as [m sq se fl lg t]. cbn [nodes faults now]. intros -> Hs.
  destruct (notify_single sq se t app txid key m Hs lg) as [lg' Hn].
  destruct (failed_frame app txid key t m) as (F0 & F1 & F2 & F3 & F4 & F5).
  eexists _, _. split; [exact Hn|]. cbn [nodes].
  repeat (split; [done|]).
  apply check_transaction_blacklisted. rewrite F0. eauto.
Qed.

Lemma failed_transaction_is_blacklisted_witness :
  ∃ w' w'',
    notify_failed_transaction "app" 1 one_lock_held = (Ok (PBool true), w')
    ∧ nodes w' !! Key.blacklisted "app" 1
      = Some (str_time (now one_lock_held))
    ∧ nodes w' !! Key.lock_root "app" "k1" = None
    ∧ nodes w' !! Key.lock_list "app" 1 = None
    ∧ nodes w' !! Key.xg "app" 1 = None
    ∧ nodes w' !! Key.tx "app" 1 = None
    ∧ (∀ p v, nodes one_lock_held !! p = Some v →
         p ≠ Key.blacklisted "app" 1 → p ≠ Key.lock_root "app" "k1" →
         p ≠ Key.lock_list "app" 1 → p ≠ Key.xg "app" 1 →
         p ≠ Key.tx "app" 1 → nodes w' !! p = Some v)
    ∧ check_transaction "app" 1 w' = (Raise (timed_out 1), w'').
Proof.
  apply failed_transaction_is_blacklisted;
    [reflexivity|apply one_lock_held_state].
Defined.

Lemma notify_lockless (app : string) (txid : Z)
    (m : gmap (list string) string) sq se lg t :
  is_Some (m !! Key.tx app txid) →
  m !! Key.lock_list app txid = None →
  (∀ c, c ≠ XG_PREFIX → m !! (Key.tx app txid ++ [c]) = None) →
  (∀ c, m !! (Key.xg app txid ++ [c]) = None) →
  ∃ lg',
    notify_failed_transaction app txid (World m sq se [] lg t)
    = (Ok (PBool true),
       World (delete (Key.xg app txid) m) sq se [] (lg' ++ lg) t)
    ∧ deletions lg'
      = match m !! Key.xg app txid with
        | Some _ => [get_xg_path app txid]
        | None => []
        end.
Proof.
  intros [tv Ht] Hl Hc Hx.
  assert (∀ c, delete (Key.xg app txid) m !! (Key.tx app txid ++ [c]) = None)
    as Hnc.
  { intros c. destruct (decide (c = XG_PREFIX)) as [->|Hne].
    - apply lookup_delete_eq.
    - apply lookup_delete_None. right. by apply Hc. }
  assert (delete (Key.xg app txid) m !! Key.tx app txid = Some tv) as Ht'
    by (by rewrite lookup_delete_ne by (by intros [= ?])).
  destruct (m !! Key.xg app txid) as [x|] eqn:E.
  - exists [Req GetChildren [PStr (get_transaction_path app txid)];
            Req DeleteAsync [PStr (get_xg_path app txid)];
            Req Exists [PStr (get_xg_path app txid)];
            Req Get [PStr (get_transaction_lock_list_path app txid)];
            NotifyFailed app txid].
    split; [|done]. unfold notify_failed_transaction.
    eapply bind_ok; [reflexivity|].
    eapply bind_ok.
    { eapply try_raise.
      - eapply bind_raise, call_get_none; [apply parse_lock_list|exact Hl].
      - reflexivity. }
    cbn beta iota. eapply bind_ok; [|reflexivity].
    eapply try_ok. unfold notify_failed_body.
    eapply bind_ok; [reflexivity|].
    eapply bind_ok; [reflexivity|].
    eapply bind_ok; [apply is_xg_clean|].
    cbn [nodes seqs session faults log now].
    rewrite bool_decide_eq_true_2 by (rewrite E; eauto).
    eapply bind_ok.
    { eapply bind_ok; [|reflexivity].
      apply (call_delete_async _ _ _ _ _ _ (Key.xg app txid)), parse_xg. }
    rewrite after_delete_leaf by done.
    eapply bind_ok; [eapply call_children; [apply parse_tx|exact Ht']|].
    eapply bind_ok; [reflexivity|].
    by rewrite (proj2 (children_nil _ _) Hnc).
  - exists [Req GetChildren [PStr (get_transaction_path app txid)];
            Req Exists [PStr (get_xg_path app txid)];
            Req Get [PStr (get_transaction_lock_list_path app txid)];
            NotifyFailed app txid].
    split; [|done]. unfold notify_failed_transaction.
    eapply bind_ok; [reflexivity|].
    eapply bind_ok.
    { eapply try_raise.
      - eapply bind_raise, call_get_none; [apply parse_lock_list|exact Hl].
      - reflexivity. }
    cbn beta iota. eapply bind_ok; [|reflexivity].
    eapply try_ok. unfold notify_failed_body.
    eapply bind_ok; [reflexivity|].
    eapply bind_ok; [reflexivity|].
    eapply bind_ok; [apply is_xg_clean|].
    cbn [nodes seqs session faults log now].
    rewrite bool_decide_eq_false_2 by (rewrite E; by intros [? ?]).
    eapply bind_ok; [reflexivity|].
    rewrite delete_id in Ht', Hnc |- * by done.
    eapply bind_ok; [eapply call_children; [apply parse_tx|exact Ht']|].
    eapply bind_ok; [reflexivity|].
    by rewrite (proj2 (children_nil _ _) Hnc).
Qed.

(** X28.  The failure of a transaction that has taken no lock.  Its node
    is there, it has no lock list and no child but, possibly, the [xg]
    marker.  On a service without faults [notify_failed_transaction] answers
    [True] and removes the marker, and that is all: the transaction is not
    put on the blacklist, and its node stays where it is. *)
Theorem lockless_transaction_survives (app : string) (txid : Z) w :
  faults w = [] →
  is_Some (nodes w !! Key.tx app txid) →
  nodes w !! Key.lock_list app txid = None →
  (∀ c, c ≠ XG_PREFIX → nodes w !! (Key.tx app txid ++ [c]) = None) →
  (∀ c, nodes w !! (Key.xg app txid ++ [c]) = None) →
  ∃ w' new,
    notify_failed_transaction app txid w = (Ok (PBool true), w')
    ∧ nodes w' = delete (Key.xg app txid) (nodes w)
    ∧ nodes w' !! Key.tx app txid = nodes w !! Key.tx app txid
    ∧ nodes w' !! Key.blacklisted app txid
      = nodes w !! Key.blacklisted app txid
    ∧ log w' = new ++ log w
    ∧ deletions new
      = match nodes w !! Key.xg app txid with
        | Some _ => [get_xg_path app txid]
        | None => []
        end.
Proof.
  destruct w as [m sq se fl lg t]. cbn [nodes faults log]. intros -> Ht Hl Hc Hx.
  destruct (notify_lockless app txid m sq se lg t Ht Hl Hc Hx)
    as (lg' & Hn & Hd).
  eexists _, lg'. split; [exact Hn|]. cbn [nodes log].
  split; [done|]. split; [by rewrite lookup_delete_ne by (by intros [= ?])|].
  split; [by rewrite lookup_delete_ne by (by intros [= ?])|]. done.
Qed.

Lemma lockless_transaction_survives_witness :
  ∃ w' new,
    notify_failed_transaction "app" 1 tx_without_locks = (Ok (PBool true), w')
    ∧ nodes w' = delete (Key.xg "app" 1) (nodes tx_without_locks)
    ∧ nodes w' !! Key.tx "app" 1 = nodes tx_without_locks !! Key.tx "app" 1
    ∧ nodes w' !! Key.blacklisted "app" 1
      = nodes tx_without_locks !! Key.blacklisted "app" 1
    ∧ log w' = new ++ log tx_without_locks
    ∧ deletions new
      = match nodes tx_without_locks !! Key.xg "app" 1 with
        | Some _ => [get_xg_path "app" 1]
        | None => []
        end.
Proof.
  apply lockless_transaction_survives;
    [reflexivity | vm_compute; eauto | reflexivity | | ].
  - intros c Hx. apply eq_None_not_Some. rewrite <- elem_of_children.
    replace (children (nodes tx_without_locks) (Key.tx "app" 1))
      with ["xg"] by (vm_compute; reflexivity).
    by intros ->%list_elem_of_singleton.
  - intros c. apply eq_None_not_Some. rewrite <- elem_of_children.
    replace (children _ _) with (@nil string) by (vm_compute; reflexivity).
    apply not_elem_of_nil.
Defined.

End Failure.

(** ** The sweep and a transaction that has timed out *)

Module Expiry.
Import PyStrFacts PathFacts Steps Paths Tree Calls Status Release Locks.
Import Numbers Ids Lifecycle Failure.

Lemma match_tx_digit_tx_name n : match_tx_digit (Key.tx_name (Z.of_N n)) = true.
Proof.
  unfold Key.tx_name, APP_TX_PREFIX, fmt_010d.
  rewrite (proj2 (Z.ltb_ge _ _)) by lia. unfold pad0.
  destruct (padded_head (10 - String.length (digits (Z.abs_N (Z.of_N n))))
              (Z.abs_N (Z.of_N n))) as (c & r & E & Hc).
  rewrite E. exact Hc.
Qed.

Lemma id_of_tx_name n :
  py_long (lstrip APP_TX_PREFIX (Key.tx_name (Z.of_N n))) = Some (Z.of_N n).
Proof. by rewrite lstrip_tx_name, py_long_fmt_010d. Qed.

Section sweep.
Context (sq : gmap (list string) N) (se : nat) (t : Z).
Context (app : string) (n : N) (key : string).
Context (m : gmap (list string) string).
Context (Hs : holds_one_lock app (Z.of_N n) key m).
Context (s : string) (ts : Z).
Context (Hv : m !! Key.tx app (Z.of_N n) = Some s).
Context (Hf : py_float s = Some ts) (Hexp : ts + TX_TIMEOUT < t).

Local Abbreviation W m lg := (World m sq se [] lg t).
Local Abbreviation txid := (Z.of_N n).
Local Abbreviation mf := (failed app txid key t m).
Local Abbreviation txroot := (Key.tx_root app).
Local Abbreviation body :=
  (fun txid0 : string =>
    if negb (match_tx_digit txid0) then ret Next
    else
      let txpath := join PATH_SEPARATOR
                      [join PATH_SEPARATOR [get_app_root_path app; APP_TX_PATH];
                       txid0] in
      try_except
        (v <- call Get [PStr txpath] ;;
         s <- get_str v ;;
         txtime <- match py_float s with
                   | Some t => ret t
                   | None => raise ValueError
                   end ;;
         t <- time_time ;;
         if txtime + TX_TIMEOUT <? t then
           id <- match py_long (lstrip APP_TX_PREFIX txid0) with
                 | Some i => ret i
                 | None => raise ValueError
                 end ;;
           notify_failed_transaction app id ;;
           ret Next
         else ret Next)
        (fun e =>
           match e with
           | NoNodeError => ret (@Next unit)
           | _ => if is_zookeeper_error e
                  then reestablish_connection ;; ret (Return tt)
                  else raise e
           end)).

Lemma parse_child c :
no_slash c →
parse_path (join PATH_SEPARATOR
              [join PATH_SEPARATOR [get_app_root_path app; APP_TX_PATH]; c])
= Some (txroot ++ [c]).
Proof. intros Hc. by apply parse_join2; [apply parse_tx_root| |]. Qed.

Lemma step_skipped c m' lg :
match_tx_digit c = false → body c (W m' lg) = (Ok Next, W m' lg).
Proof. intros Hc. cbn beta. rewrite Hc. reflexivity. Qed.

Lemma step_young c m' lg s' ts' :
no_slash c → m' !! (txroot ++ [c]) = Some s' → py_float s' = Some ts' →
t ≤ ts' + TX_TIMEOUT →
∃ lg', body c (W m' lg) = (Ok Next, W m' lg').
Proof.
intros Hc Hm Hp Hy. cbn beta.
destruct (match_tx_digit c); [|by eexists]. cbn [negb]. eexists.
eapply try_ok. eapply bind_ok; [by eapply call_get; [apply parse_child|]|].
eapply bind_ok; [reflexivity|]. rewrite Hp.
eapply bind_ok; [reflexivity|].
eapply bind_ok; [reflexivity|]. cbn [now].
rewrite (proj2 (Z.ltb_ge _ _) Hy). reflexivity.
Qed.

Lemma step_gone c lg :
no_slash c → mf !! (txroot ++ [c]) = None →
∃ lg', body c (W mf lg) = (Ok Next, W mf lg').
Proof.
intros Hc Hm. cbn beta.
destruct (match_tx_digit c); [|by eexists]. cbn [negb]. eexists.
eapply try_raise.
- eapply bind_raise. by eapply call_get_none; [apply parse_child|].
- reflexivity.
Qed.

Lemma step_expired lg :
∃ lg', body (Key.tx_name txid) (W m lg) = (Ok Next, W mf lg').
Proof.
destruct (notify_single sq se t app txid key m Hs
            (Req Get [PStr (join PATH_SEPARATOR
                [join PATH_SEPARATOR [get_app_root_path app; APP_TX_PATH];
                 Key.tx_name txid])] :: lg)) as [lg' Hn].
exists lg'. cbn beta. rewrite match_tx_digit_tx_name. cbn [negb].
eapply try_ok. eapply bind_ok.
{ eapply call_get; [apply parse_child, no_slash_tx_name|exact Hv]. }
eapply bind_ok; [reflexivity|]. rewrite Hf.
eapply bind_ok; [reflexivity|].
eapply bind_ok; [reflexivity|]. cbn [now].
rewrite (proj2 (Z.ltb_lt _ _) Hexp). rewrite id_of_tx_name.
eapply bind_ok; [reflexivity|].
eapply bind_ok; [exact Hn|]. reflexivity.
Qed.

Lemma mf_other c s' :
c ≠ Key.tx_name txid → m !! (txroot ++ [c]) = Some s' →
mf !! (txroot ++ [c]) = Some s'.
Proof.
intros Hne Hm.
destruct (failed_frame app txid key t m) as (_ & _ & _ & _ & _ & Hk).
apply Hk; [done|by intros [= ?]..|].
intros [= ?]. by apply Hne.
Qed.

Lemma mf_gone : mf !! (txroot ++ [Key.tx_name txid]) = None.
Proof. by destruct (failed_frame app txid key t m) as (_ & _ & _ & _ & H & _). Qed.

(** An item of the sweep: the transaction that has timed out, or a child
    that the sweep leaves alone. *)
Local Abbreviation item_ok :=
  (fun c => no_slash c ∧ (c = Key.tx_name txid ∨ young m txroot t c)).

Lemma loop_after (l : list string) :
Forall item_ok l →
∀ lg, ∃ lg', for_ctl l body (W mf lg) = (Ok Next, W mf lg').
Proof.
induction l as [|c l IH]; intros Hl lg; [by eexists|].
apply Forall_cons in Hl as [[Hc Hy] Hl]. cbn [for_ctl].
assert (∃ lg1, body c (W mf lg) = (Ok Next, W mf lg1)) as [lg1 H1].
{ destruct (decide (c = Key.tx_name txid)) as [->|Hne].
  - apply (step_gone (Key.tx_name txid) lg); [done|apply mf_gone].
  - destruct Hy as [->|Hy]; [done|].
    destruct (decide (match_tx_digit c = true)) as [E|E%not_true_is_false].
    + destruct (Hy E) as (s' & ts' & Hm & Hp & Ht).
      apply (step_young c mf lg s' ts'); [done|by apply mf_other|done..].
    + exists lg. by apply (step_skipped c mf lg). }
destruct (IH Hl lg1) as [lg' H']. exists lg'.
eapply bind_ok; [exact H1|]. exact H'.
Qed.

Lemma loop_before (l : list string) :
Forall item_ok l →
∀ lg, ∃ lg',
  for_ctl l body (W m lg)
  = (Ok Next, W (if bool_decide (Key.tx_name txid ∈ l) then mf else m) lg').
Proof.
induction l as [|c l IH]; intros Hl lg; [by eexists|].
pose proof Hl as Hl0.
apply Forall_cons in Hl as [[Hc Hy] Hl]. cbn [for_ctl].
destruct (decide (c = Key.tx_name txid)) as [->|Hne].
- destruct (step_expired lg) as [lg1 H1].
  destruct (loop_after l Hl lg1) as [lg' H'].
  exists lg'. rewrite bool_decide_eq_true_2 by left.
  eapply bind_ok; [exact H1|]. exact H'.
- assert (∃ lg1, body c (W m lg) = (Ok Next, W m lg1)) as [lg1 H1].
  { destruct Hy as [->|Hy]; [done|].
    destruct (decide (match_tx_digit c = true)) as [E|E%not_true_is_false].
    - destruct (Hy E) as (s' & ts' & Hm & Hp & Ht).
      by apply (step_young c m lg s' ts').
    - exists lg. by apply (step_skipped c m lg). }
  destruct (IH Hl lg1) as [lg' H']. exists lg'.
  replace (bool_decide (Key.tx_name txid ∈ c :: l))
    with (bool_decide (Key.tx_name txid ∈ l)).
  + eapply bind_ok; [exact H1|]. exact H'.
  + apply bool_decide_ext. rewrite elem_of_cons. split; [by right|].
    intros [E|E]; [by destruct Hne|done].
Qed.

Lemma sweep_expired lg v :
m !! txroot = Some v →
Forall item_ok (children m txroot) →
∃ lg', execute_garbage_collection app (get_app_root_path app) (W m lg)
       = (Ok tt, W mf lg').
Proof.
intros Hr Hl.
destruct (loop_before _ Hl
            (Req GetChildren
               [PStr (join PATH_SEPARATOR [get_app_root_path app; APP_TX_PATH])]
             :: lg)) as [lg' H'].
rewrite bool_decide_eq_true_2 in H'.
2:{ apply elem_of_children. exists s. exact Hv. }
exists lg'. unfold execute_garbage_collection.
eapply bind_ok; [reflexivity|]. cbn beta.
eapply bind_ok.
{ eapply try_ok, bind_ok;
    [eapply call_children; [apply parse_tx_root|exact Hr]|reflexivity]. }
cbn beta iota. eapply bind_ok; [exact H'|]. reflexivity.
Qed.

End sweep.


Lemma expired_lock_holder_state :
  holds_one_lock "app" (Z.of_N 1) "k1" (nodes expired_lock_holder).
Proof.
  split; try reflexivity.
  - vm_compute. eauto.
  - intros c. apply eq_None_not_Some. rewrite <- elem_of_children.
    replace (children _ _) with (@nil string) by (vm_compute; reflexivity).
    apply not_elem_of_nil.
  - intros c. apply eq_None_not_Some. rewrite <- elem_of_children.
    replace (children _ _) with (@nil string) by (vm_compute; reflexivity).
    apply not_elem_of_nil.
  - intros c. apply eq_None_not_Some. rewrite <- elem_of_children.
    replace (children _ _) with (@nil string) by (vm_compute; reflexivity).
    apply not_elem_of_nil.
  - intros c Hc Hx. apply eq_None_not_Some. rewrite <- elem_of_children.
    replace (children (nodes expired_lock_holder) (Key.tx "app" (Z.of_N 1)))
      with ["lockpath"] by (vm_compute; reflexivity).
    by intros ->%list_elem_of_singleton.
Defined.


End Expiry.

(** ** Removal of a subtree *)

Module Subtree.
Import PyStrFacts PathFacts Steps Paths Tree Calls Lifecycle Failure.

(** [m'] is [m] without the keys that satisfy [R]. *)
Definition pruned (R : list string → Prop)
    (m m' : gmap (list string) string) : Prop :=
  ∀ k, (R k → m' !! k = None) ∧ (¬ R k → m' !! k = m !! k).

Definition under (p : list string) (ds : list string) (k : list string)
  : Prop := ∃ c, c ∈ ds ∧ (p ++ [c]) `prefix_of` k.

Lemma under_snoc p ds c k :
  under p (ds ++ [c]) k ↔ under p ds k ∨ (p ++ [c]) `prefix_of` k.
Proof.
  unfold under. split.
  - intros (c0 & [Hc|Hc%list_elem_of_singleton]%elem_of_app & Hk).
    + left. eauto.
    + right. by subst.
  - intros [(c0 & Hc & Hk)|Hk].
    + exists c0. split; [|done]. apply elem_of_app. by left.
    + exists c. split; [|done]. apply elem_of_app. right. left.
Qed.

Lemma child_prefix_inv (p : list string) (c c' : string) (q : list string) :
  (p ++ [c]) `prefix_of` (p ++ [c'] ++ q) → c = c'.
Proof.
  intros H%prefix_app_inv. destruct H as [k Hk]. by injection Hk.
Qed.

Lemma closed_root (m : gmap (list string) string) p d :
  subtree_ok m p d → ∀ q, is_Some (m !! (p ++ q)) → is_Some (m !! p).
Proof.
  intros Hok q. induction q as [|c q IH] using rev_ind.
  - by rewrite app_nil_r.
  - intros H. apply IH. by apply (st_closed _ _ _ Hok q c).
Qed.

Lemma subtree_ok_child (m : gmap (list string) string) p d c :
  subtree_ok m p (S d) → subtree_ok m (p ++ [c]) d.
Proof.
  intros [H1 H2 H3]. split.
  - intros q c'. rewrite <- !(assoc_L (++)). apply (H1 ([c] ++ q) c').
  - intros q c'. rewrite <- !(assoc_L (++)). apply (H2 ([c] ++ q) c').
  - intros q. rewrite <- (assoc_L (++)). intros H%H3. cbn in H. lia.
Qed.

Lemma subtree_ok_agree (m m' : gmap (list string) string) p d :
  (∀ q, m' !! (p ++ q) = m !! (p ++ q)) →
  subtree_ok m p d → subtree_ok m' p d.
Proof.
  intros Ha [H1 H2 H3]. split.
  - intros q c. rewrite !Ha. apply H1.
  - intros q c. rewrite Ha. apply H2.
  - intros q. rewrite Ha. apply H3.
Qed.

(** What a call of [delete_recursive] on the child [c] of [p] is to do. *)
Definition removes (sq : gmap (list string) N) (se : nat) (t : Z)
    (p : list string) (body : string → M (option unit)) (d : nat)
    (c : string) : Prop :=
  ∀ (mi : gmap (list string) string) lg,
    subtree_ok mi (p ++ [c]) d →
    ∃ m' lg',
      body c (World mi sq se [] lg t) = (Ok (Some tt), World m' sq se [] lg' t)
      ∧ pruned (fun k => (p ++ [c]) `prefix_of` k) mi m'.

Lemma children_loop (sq : gmap (list string) N) (se : nat) (t : Z)
    (m : gmap (list string) string) (p : list string)
    (body : string → M (option unit)) (d : nat) (todo : list string) :
  (∀ c, c ∈ todo → subtree_ok m (p ++ [c]) d ∧ removes sq se t p body d c) →
  ∀ (done : list string) mi lg,
    NoDup (done ++ todo) → pruned (under p done) m mi →
    ∃ m' lg',
      for_opt todo body (World mi sq se [] lg t)
      = (Ok (Some tt), World m' sq se [] lg' t)
      ∧ pruned (under p (done ++ todo)) m m'.
Proof.
  induction todo as [|c todo IH]; intros Hb done mi lg Hnd Hi.
  - exists mi, lg. by rewrite app_nil_r.
  - destruct (Hb c) as [Hok Hrem]; [left|].
    assert (c ∉ done) as Hc.
    { apply NoDup_app in Hnd as (_ & Hd & _). intros Hin.
      apply (Hd c Hin). left. }
    assert (subtree_ok mi (p ++ [c]) d) as Hoki.
    { apply (subtree_ok_agree m); [|done]. intros q.
      apply Hi. intros (c0 & Hc0 & Hk).
      rewrite <- (assoc_L (++)) in Hk. apply child_prefix_inv in Hk.
      by subst. }
    destruct (Hrem mi lg Hoki) as (m1 & lg1 & H1 & Hp1).
    destruct (IH (fun c' Hc' => Hb c' (list_elem_of_further _ _ _ Hc'))
                (done ++ [c]) m1 lg1) as (m' & lg' & H' & Hp').
    { by rewrite <- (assoc_L (++)). }
    { intros k. split.
      - intros [Hd|Hk]%under_snoc.
        + destruct (decide ((p ++ [c]) `prefix_of` k)) as [Hk|Hk].
          * by apply Hp1.
          * rewrite (proj2 (Hp1 k) Hk). by apply Hi.
        + by apply Hp1.
      - intros Hn. rewrite (proj2 (Hp1 k)).
        + apply Hi. intros Hd. apply Hn, under_snoc. by left.
        + intros Hk. apply Hn, under_snoc. by right. }
    exists m', lg'. split.
    + cbn [for_opt]. eapply bind_ok; [exact H1|]. exact H'.
    + by rewrite <- (assoc_L (++)) in Hp'.
Qed.

Lemma delete_recursive_clean (sq : gmap (list string) N) (se : nat) (t : Z)
    (d : nat) :
  ∀ (path : string) (p : list string) (m : gmap (list string) string) lg,
    parse_path path = Some p → p ≠ [] → subtree_ok m p d →
    ∃ m' lg',
      delete_recursive (S d) path (World m sq se [] lg t)
      = (Ok (Some tt), World m' sq se [] lg' t)
      ∧ pruned (fun k => p `prefix_of` k) m m'.
Proof.
  induction d as [|d IH]; intros path p m lg Hp Hne Hok.
  all: cbn [delete_recursive].
  all: destruct (m !! p) as [v|] eqn:E.
  (* the node is missing *)
  2,4: exists m; eexists; split;
    [eapply try_raise;
      [eapply bind_raise, zk_hand; [by left|];
       by eapply call_children_none
      |reflexivity]
    |intros k; split; [|done];
     intros [q ->]; apply eq_None_not_Some; intros Hk;
     apply (closed_root _ _ _ Hok) in Hk; rewrite E in Hk; by destruct Hk].
  - (* height 0: no children *)
    assert (∀ c, m !! (p ++ [c]) = None) as Hnc.
    { intros c. apply eq_None_not_Some. intros Hc.
      apply (st_depth _ _ _ Hok [c]) in Hc. cbn in Hc. lia. }
    exists (delete p m). eexists. split.
    + eapply try_ok.
      eapply bind_ok; [by eapply zk_ok, call_children|].
      eapply bind_ok; [reflexivity|].
      rewrite (proj2 (children_nil _ _) Hnc).
      eapply bind_ok; [reflexivity|]. cbn beta iota.
      eapply bind_ok; [|reflexivity].
      by eapply zk_ok, call_delete_leaf.
    + intros k. split.
      * intros [q ->]. destruct q as [|c q] using rev_ind.
        { rewrite app_nil_r. apply lookup_delete_eq. }
        apply lookup_delete_None. right. apply eq_None_not_Some. intros Hk.
        apply (st_depth _ _ _ Hok) in Hk. rewrite length_app in Hk.
        cbn in Hk. lia.
      * intros Hk. apply lookup_delete_ne. by intros <-.
  - (* height d + 1 *)
    destruct (children_loop sq se t m p
                (fun child => delete_recursive (S d)
                                (join PATH_SEPARATOR [path; child]))
                d (children m p)) with (done := @nil string) (mi := m)
      (lg := Req GetChildren [PStr path] :: lg)
      as (m1 & lg1 & H1 & Hp1).
    { intros c [x Hc]%elem_of_children. split.
      - by apply subtree_ok_child.
      - intros mi lgi Hoki. apply IH; [|by destruct p|done].
        apply parse_join2; [done|done|].
        apply (st_names _ _ _ Hok [] c). eauto. }
    { apply NoDup_children. }
    { intros k. split; [|done]. by intros (c & Hc%elem_of_nil & _). }
    cbn [app] in Hp1.
    assert (∀ c, m1 !! (p ++ [c]) = None) as Hnc.
    { intros c. destruct (decide (c ∈ children m p)) as [Hc|Hc].
      - apply Hp1. by exists c.
      - rewrite (proj2 (Hp1 _)).
        + apply eq_None_not_Some. by rewrite <- elem_of_children.
        + intros (c0 & Hc0 & Hk).
          apply (child_prefix_inv p c0 c []) in Hk. by subst. }
    assert (m1 !! p = Some v) as E1.
    { rewrite (proj2 (Hp1 _)); [done|].
      intros (c0 & _ & Hk). by apply prefix_snoc_not in Hk. }
    exists (delete p m1). eexists. split.
    + eapply try_ok.
      eapply bind_ok; [by eapply zk_ok, call_children|].
      eapply bind_ok; [reflexivity|].
      eapply bind_ok; [exact H1|]. cbn beta iota.
      eapply bind_ok; [|reflexivity].
      by eapply zk_ok, call_delete_leaf.
    + intros k. split.
      * intros [q ->]. destruct q as [|c q].
        { rewrite app_nil_r. apply lookup_delete_eq. }
        apply lookup_delete_None. right.
        destruct (decide (c ∈ children m p)) as [Hc|Hc].
        { apply Hp1. exists c. split; [done|].
          apply prefix_app, prefix_cons, prefix_nil. }
        rewrite (proj2 (Hp1 _)).
        { apply eq_None_not_Some. intros Hk. apply Hc.
          apply elem_of_children.
          change (c :: q) with ([c] ++ q) in Hk.
          rewrite (assoc_L (++)) in Hk.
          by apply (closed_root _ _ _ (subtree_ok_child m p d c Hok)) in Hk. }
        intros (c0 & Hc0 & Hk).
        apply (child_prefix_inv p c0 c q) in Hk. by subst.
      * intros Hk. rewrite lookup_delete_ne by (by intros <-).
        apply Hp1. intros (c0 & _ & Hk0). apply Hk.
        by eapply prefix_app_l.
Qed.

Lemma pruned_is_filter (p : list string) (m m' : gmap (list string) string) :
  pruned (fun k => p `prefix_of` k) m m' → m' = without_subtree p m.
Proof.
  intros Hp. apply map_eq. intros k. unfold without_subtree.
  destruct (decide (p `prefix_of` k)) as [Hk|Hk].
  - rewrite (proj1 (Hp k) Hk). symmetry.
    apply map_lookup_filter_None. right. intros x _ Hx. by apply Hx.
  - rewrite (proj2 (Hp k) Hk). symmetry. destruct (m !! k) as [x|] eqn:E.
    + by apply map_lookup_filter_Some.
    + apply map_lookup_filter_None. by left.
Qed.

(** A check of [subtree_ok] on the keys of the name-space. *)
Definition key_ok (m : gmap (list string) string) (p : list string) (d : nat)
    (k : list string) : Prop :=
  take (length p) k = p →
  (length (drop (length p) k) ≤ d)%nat
  ∧ Forall (fun c => has_char "/" c = false) (drop (length p) k)
  ∧ (drop (length p) k ≠ [] → is_Some (m !! removelast k)).

Lemma subtree_ok_check (m : gmap (list string) string) (p : list string)
    (d : nat) :
  map_Forall (fun k _ => key_ok m p d k) m → subtree_ok m p d.
Proof.
  intros Hall.
  assert (∀ q, is_Some (m !! (p ++ q)) →
            (length q ≤ d)%nat
            ∧ Forall (fun c => has_char "/" c = false) q
            ∧ (q ≠ [] → is_Some (m !! removelast (p ++ q)))) as H.
  { intros q [x Hx]. specialize (Hall _ _ Hx). unfold key_ok in Hall.
    rewrite take_app_length, drop_app_length in Hall. by apply Hall. }
  split.
  - intros q c Hk. destruct (H _ Hk) as (_ & _ & Hr).
    rewrite (assoc_L (++)), removelast_last in Hr. apply Hr.
    by destruct q.
  - intros q c Hk. destruct (H _ Hk) as (_ & Hf & _).
    apply Forall_app in Hf as [_ Hf].
    exact (proj1 (Forall_singleton _ _) Hf).
  - intros q Hk. by destruct (H _ Hk) as (Hl & _).
Qed.

(** X30.  [delete_recursive] removes a subtree and nothing else.  The
    nodes below [path] form a tree of height [d] at most.  On a service
    without faults [delete_recursive], with room for [d + 1] nested calls,
    returns, and the name-space is then the one of before without the node
    at [path] and the nodes below it.  This includes the case that the node
    at [path] is missing: nothing changes then. *)
Theorem delete_recursive_removes_the_subtree (path : string)
    (p : list string) (d : nat) w :
  faults w = [] → parse_path path = Some p → p ≠ [] →
  subtree_ok (nodes w) p d →
  ∃ w',
    delete_recursive (S d) path w = (Ok (Some tt), w')
    ∧ nodes w' = without_subtree p (nodes w)
    ∧ (∀ k, p `prefix_of` k → nodes w' !! k = None)
    ∧ (∀ k, ¬ p `prefix_of` k → nodes w' !! k = nodes w !! k).
Proof.
  destruct w as [m sq se fl lg t]. cbn [nodes faults]. intros -> Hp Hne Hok.
  destruct (delete_recursive_clean sq se t d path p m lg Hp Hne Hok)
    as (m' & lg' & Hr & Hpr).
  eexists. split; [exact Hr|]. cbn [nodes].
  split; [by apply pruned_is_filter|]. split; intros k Hk; by apply Hpr.
Qed.

Lemma delete_recursive_removes_the_subtree_witness :
  ∃ w',
    delete_recursive 3 "/appscale/apps/app/txids" one_lock_held
    = (Ok (Some tt), w')
    ∧ nodes w' = without_subtree ["appscale"; "apps"; "app"; "txids"]
                   (nodes one_lock_held)
    ∧ (∀ k, ["appscale"; "apps"; "app"; "txids"] `prefix_of` k →
            nodes w' !! k = None)
    ∧ (∀ k, ¬ ["appscale"; "apps"; "app"; "txids"] `prefix_of` k →
            nodes w' !! k = nodes one_lock_held !! k).
Proof.
  apply (delete_recursive_removes_the_subtree "/appscale/apps/app/txids"
           ["appscale"; "apps"; "app"; "txids"] 2 one_lock_held);
    [reflexivity | reflexivity | discriminate |].
  apply subtree_ok_check.
  apply (bool_decide_unpack _). vm_compute. exact I.
Defined.

End Subtree.
